(** * Bordered text tables with heterogeneous cells (tables.cpp)

    A shallow embedding of the classes [CBase], [CEmpty], [CText], [CImage],
    [CTableCell] and [CTable] of [src/HTML Tables/tables.cpp], in two layers.

    - The value layer describes what the [const] member functions compute:
      natural sizes, resized output, equality and the stream operator.  An
      object graph is read as a tree ([CBase], [CTable]) and the virtual
      functions become one structural fixpoint building the virtual table of
      a cell.
    - The store layer describes the objects behind [shared_ptr] and the
      member functions that allocate or mutate them ([Clone], the copy
      constructor, [setCell], [setText], [operator=]).  Sharing is explicit:
      copying a [shared_ptr] copies a location.

    Conventions.  [std::string] is [list ascii].  A [size_t] is a [nat]: every
    [size_t] of the program is the size of a container in memory or an index
    below one, except for the two unsigned differences [width - line.size()],
    whose wrap-around is written out.  An exception or undefined behaviour is
    an [outcome] other than [Ok].

    Two things are left out.  Memory is not bounded: a string or a vector of
    any size can be built, so [Output] is modelled for the boxes that can be
    built, and a [std::length_error] past [string::max_size()] or a
    [std::bad_alloc] is not.  And the store frees nothing: an object whose
    last [shared_ptr] is released stays in the store, with nothing pointing
    to it, so nothing is to be concluded about such an object. *)

From Stdlib Require Import Ascii String.
From stdpp Require Import base tactics option list list_numbers strings.

Local Open Scope nat_scope.
Local Open Scope list_scope.

(** ** Strings *)

Abbreviation str := (list ascii).

Definition lit (s : string) : str := list_ascii_of_string s.

Definition nl : ascii := ascii_of_nat 10.
Definition sp : ascii := " "%char.

(** ** Outcomes of a call *)

Inductive exn : Type :=
| length_error   (* std::length_error *)
| out_of_range   (* std::out_of_range *)
| bad_cast.      (* std::bad_cast *)

Inductive outcome (A : Type) : Type :=
| Ok (a : A)
| Throw (e : exn)
| Undefined.     (* undefined behaviour, e.g. operator[] past the end *)

Arguments Ok {A} a.
Arguments Throw {A} e.
Arguments Undefined {A}.

#[global] Instance outcome_ret : MRet outcome := @Ok.
#[global] Instance outcome_bind : MBind outcome := fun A B f m =>
  match m with
  | Ok a => f a
  | Throw e => Throw e
  | Undefined => Undefined
  end.

(** [for (i in ix) s = body(i, s)] *)
Fixpoint for_each {S : Type} (body : nat -> S -> outcome S) (ix : list nat) (s : S)
  : outcome S :=
  match ix with
  | [] => Ok s
  | i :: ix => s' ← body i s; for_each body ix s'
  end.

(** [for (size_t i = 0; i < n; ++i) s = body(i, s)] *)
Definition for_range {S : Type} (n : nat) (body : nat -> S -> outcome S) (s : S)
  : outcome S :=
  for_each body (seq 0 n) s.

(** A loop that returns [false] at the first index whose test fails. *)
Fixpoint all_of (test : nat -> outcome bool) (ix : list nat) : outcome bool :=
  match ix with
  | [] => Ok true
  | i :: ix => b ← test i; if b : bool then all_of test ix else Ok false
  end.

(** [v[i]], unchecked *)
Definition at_ {A : Type} (v : list A) (i : nat) : outcome A :=
  match v !! i with
  | Some x => Ok x
  | None => Undefined
  end.

(** [v[i] = x], unchecked *)
Definition set_at {A : Type} (v : list A) (i : nat) (x : A) : outcome (list A) :=
  if decide (i < length v) then Ok (<[i := x]> v) else Undefined.

(** [m[i][j]] *)
Definition at2 {A : Type} (m : list (list A)) (i j : nat) : outcome A :=
  row ← at_ m i; at_ row j.

(** [m[i][j] = x] *)
Definition set_at2 {A : Type} (m : list (list A)) (i j : nat) (x : A)
  : outcome (list (list A)) :=
  row ← at_ m i; row' ← set_at row j x; set_at m i row'.

(** ** The parts of [std::string] and of the streams the program uses *)

(** [string(width - size, c)]: the difference is unsigned, so below zero it
    wraps to a count no string can have and the constructor throws. *)
Definition fill_diff (width size : nat) (c : ascii) : outcome str :=
  if decide (size <= width) then Ok (replicate (width - size) c)
  else Throw length_error.

(** [s.substr(pos, len)] *)
Definition substr (s : str) (pos len : nat) : outcome str :=
  if decide (pos <= length s) then Ok (take len (drop pos s))
  else Throw out_of_range.

(** [s.replace(pos, len, r)] *)
Definition replace (s : str) (pos len : nat) (r : str) : outcome str :=
  if decide (pos <= length s)
  then Ok (take pos s ++ r ++ drop (pos + Nat.min len (length s - pos)) s)
  else Throw out_of_range.

(** [std::getline(iss, line)] on the rest [iss] of a stream that is not at its
    end: the line read and the rest of the stream. *)
Fixpoint getline (iss : str) : str * str :=
  match iss with
  | [] => ([], [])
  | c :: rest =>
      if decide (c = nl) then ([], rest)
      else let '(line, rest') := getline rest in (c :: line, rest')
  end.

(** [while (std::getline(iss, line)) lines.push_back(line)]: [getline] fails
    when it finds the stream at its end.  Every successful call extracts at
    least one character, so [length iss] calls are enough. *)
Fixpoint getlines_loop (fuel : nat) (iss : str) : list str :=
  match fuel with
  | 0 => []
  | S fuel =>
      match iss with
      | [] => []
      | _ :: _ => let '(line, rest) := getline iss in line :: getlines_loop fuel rest
      end
  end.

Definition getlines (text : str) : list str := getlines_loop (length text) text.

(** [std::count(content.begin(), content.end(), c)] *)
Definition count_char (c : ascii) (content : str) : nat :=
  length (filter (fun x => x = c) content).

(** ** Cells and tables as values *)

Inductive FormatingType : Type := ALIGN_LEFT | ALIGN_RIGHT.

Record CTable_ (A : Type) : Type := mkTable {
  Rows : nat;
  Cols : nat;
  Cells : list (list A)
}.

Arguments mkTable {A} Rows Cols Cells.
Arguments Rows {A} _.
Arguments Cols {A} _.
Arguments Cells {A} _.

#[warnings="-register-all"]
Inductive CBase : Type :=
| CEmpty
| CText (allLines : list str) (formatType : FormatingType)
| CImage (imageData : list str)
| CTableCell (tableContent : CTable_ CBase).

Abbreviation CTable := (CTable_ CBase).

#[global] Instance FormatingType_eq_dec : EqDecision FormatingType.
Proof. solve_decision. Defined.

(** The virtual member functions of one cell. *)
Record CBase_vtbl : Type := mkVtbl {
  vWidth : outcome nat;
  vHeight : outcome nat;
  vOutput : nat -> nat -> outcome (list str);
  vEquals : CBase -> outcome bool
}.

Definition fmap_table {A B : Type} (f : A -> B) (t : CTable_ A) : CTable_ B :=
  mkTable (Rows t) (Cols t) (map (map f) (Cells t)).

(** ** [CTable]: the stream operator and equality, over virtual tables *)

Section Table.
Context (table : CTable_ CBase_vtbl).

(** The first loop nest of [operator<<]: one pass over the grid that raises
    [maxColWidths[cols]] and [maxRowHeights[rows]]. *)
Definition measure : outcome (list nat * list nat) :=
  for_range (Rows table) (fun rows =>
    for_range (Cols table) (fun cols '(maxColWidths, maxRowHeights) =>
      cell ← at2 (Cells table) rows cols;
      w ← vWidth cell;
      w0 ← at_ maxColWidths cols;
      maxColWidths ← set_at maxColWidths cols (Nat.max w0 w);
      h ← vHeight cell;
      h0 ← at_ maxRowHeights rows;
      maxRowHeights ← set_at maxRowHeights rows (Nat.max h0 h);
      Ok (maxColWidths, maxRowHeights)))
    (replicate (Cols table) 0, replicate (Rows table) 0).

(** The lambda [printBorder], appending to the stream [os]. *)
Definition printBorder (maxColWidths : list nat) (os : str) : outcome str :=
  os ← for_range (Cols table) (fun col os =>
          w ← at_ maxColWidths col;
          Ok (os ++ replicate w "-"%char ++ lit "+"))
        (os ++ lit "+");
  Ok (os ++ [nl]).

(** The body of the loop over the rows of the grid. *)
Definition printRow (maxColWidths maxRowHeights : list nat) (row : nat) (os : str)
  : outcome str :=
  OutputRow ← for_range (Cols table) (fun col OutputRow =>
                 cell ← at2 (Cells table) row col;
                 h ← at_ maxRowHeights row;
                 w ← at_ maxColWidths col;
                 out ← vOutput cell h w;
                 Ok (OutputRow ++ [out]))
               [];
  h ← at_ maxRowHeights row;
  os ← for_range h (fun vertical os =>
          os ← for_range (Cols table) (fun col os =>
                  out ← at_ OutputRow col;
                  line ← at_ out vertical;
                  Ok (os ++ line ++ lit "|"))
                (os ++ lit "|");
          Ok (os ++ [nl]))
        os;
  printBorder maxColWidths os.

(** [os << table], from an empty stream. *)
Definition render : outcome str :=
  '(maxColWidths, maxRowHeights) ← measure;
  os ← printBorder maxColWidths [];
  for_range (Rows table) (printRow maxColWidths maxRowHeights) os.
End Table.

(** [CTable::operator==]: [this] is given by the [operator==] of its cells. *)
Definition table_equals (this : CTable_ (CBase -> outcome bool)) (other : CTable)
  : outcome bool :=
  if decide (Rows this <> Rows other \/ Cols this <> Cols other) then Ok false
  else
    all_of (fun rows =>
      all_of (fun cols =>
        cell ← at2 (Cells this) rows cols;
        cell' ← at2 (Cells other) rows cols;
        cell cell')
      (seq 0 (Cols this)))
    (seq 0 (Rows this)).

(** ** The four kinds of cells *)

Module Empty.
Definition Output (height width : nat) : outcome (list str) :=
  Ok (replicate height (replicate width sp)).
Definition Width : nat := 0.
Definition Height : nat := 0.
Definition equals (other : CBase) : bool :=
  match other with CEmpty => true | _ => false end.
End Empty.

Module Text.
Section Text.
Context (allLines : list str) (formatType : FormatingType).

Definition Width : nat :=
  fold_left (fun maxWidth line => Nat.max maxWidth (length line)) allLines 0.

Definition Height : nat := length allLines.

(** One iteration of the loop of [Output]. *)
Definition Output_step (width i : nat) (out : list str) : outcome (list str) :=
  let line := if decide (i < length allLines) then allLines !!! i else [] in
  pad ← fill_diff width (length line) sp;
  Ok (out ++ [if decide (formatType = ALIGN_LEFT) then line ++ pad else pad ++ line]).

Definition Output (height width : nat) : outcome (list str) :=
  for_range height (Output_step width) [].

Definition equals (other : CBase) : bool :=
  match other with
  | CText allLines' formatType' =>
      bool_decide (allLines = allLines') && bool_decide (formatType = formatType')
  | _ => false
  end.
End Text.

(** [setText]: the new value of [allLines]. *)
Definition setText (text : str) : list str := getlines text.
End Text.

Module Image.
Section Image.
Context (imageData : list str).

Definition Width : nat :=
  match imageData with [] => 0 | row0 :: _ => length row0 end.

Definition Height : nat := length imageData.

(** The loop stops at the first [i] with [i + offsetY >= height]; later
    indices fail the same test, so they are skipped here. *)
Definition Output (height width : nat) : outcome (list str) :=
  let out := replicate height (replicate width sp) in
  if decide (imageData = [] \/ height = 0 \/ width = 0) then Ok out
  else
    let imgHeight := length imageData in
    let imgWidth := Width in
    let offsetY := if decide (imgHeight < height) then (height - imgHeight) / 2 else 0 in
    let offsetX := if decide (imgWidth < width) then (width - imgWidth) / 2 else 0 in
    for_range imgHeight (fun i out =>
      if decide (i + offsetY < height) then
        imgLine ← at_ imageData i;
        canvas ← at_ out (i + offsetY);
        canvas ←
          (if decide (width < offsetX + length imgLine) then
             piece ← substr imgLine 0 (width - offsetX);
             replace canvas offsetX (width - offsetX) piece
           else replace canvas offsetX (length imgLine) imgLine);
        set_at out (i + offsetY) canvas
      else Ok out)
    out.

Definition equals (other : CBase) : bool :=
  match other with
  | CImage imageData' => bool_decide (imageData = imageData')
  | _ => false
  end.
End Image.

(** [addRow]: the new value of [imageData]. *)
Definition addRow (imageData : list str) (row : str) : list str := imageData ++ [row].
End Image.

Module TableCell.
Section TableCell.
(** [oss << *tableContent; oss.str()] *)
Context (content : outcome str).

Definition Width : outcome nat :=
  text ← content;
  Ok (fold_left (fun maxWidth line => Nat.max maxWidth (length line)) (getlines text) 0).

Definition Height : outcome nat :=
  text ← content;
  Ok (count_char nl text +
      (if decide (text = [] \/ last text = Some nl) then 0 else 1)).

(** The first loop takes lines while there are any and fewer than [height]
    are stored; the second one adds blank lines up to [height]. *)
Definition Output (height width : nat) : outcome (list str) :=
  text ← content;
  let result :=
    (fun line => if decide (width < length line) then take width line
                 else line ++ replicate (width - length line) sp)
      <$> take height (getlines text) in
  Ok (result ++ replicate (height - length result) (replicate width sp)).
End TableCell.
End TableCell.

(** The virtual table of a cell.  [CTableCell] streams its table with the
    virtual tables of the cells of that table. *)
Fixpoint vtbl (cell : CBase) : CBase_vtbl :=
  match cell with
  | CEmpty =>
      mkVtbl (Ok Empty.Width) (Ok Empty.Height) Empty.Output
             (fun other => Ok (Empty.equals other))
  | CText allLines formatType =>
      mkVtbl (Ok (Text.Width allLines)) (Ok (Text.Height allLines))
             (Text.Output allLines formatType)
             (fun other => Ok (Text.equals allLines formatType other))
  | CImage imageData =>
      mkVtbl (Ok (Image.Width imageData)) (Ok (Image.Height imageData))
             (Image.Output imageData)
             (fun other => Ok (Image.equals imageData other))
  | CTableCell tableContent =>
      let content := render (fmap_table vtbl tableContent) in
      mkVtbl (TableCell.Width content) (TableCell.Height content)
             (TableCell.Output content)
             (fun other =>
                match other with
                | CTableCell tableContent' =>
                    table_equals (fmap_table (fun c => vEquals (vtbl c)) tableContent)
                                 tableContent'
                | _ => Ok false
                end)
  end.

Definition Width (cell : CBase) : outcome nat := vWidth (vtbl cell).
Definition Height (cell : CBase) : outcome nat := vHeight (vtbl cell).
Definition Output (cell : CBase) (height width : nat) : outcome (list str) :=
  vOutput (vtbl cell) height width.
Definition cell_equals (this other : CBase) : outcome bool := vEquals (vtbl this) other.

(** [oss << table; oss.str()] *)
Definition to_text (table : CTable) : outcome str := render (fmap_table vtbl table).

(** [this == other] on tables *)
Definition equals (this other : CTable) : outcome bool :=
  table_equals (fmap_table (fun c => vEquals (vtbl c)) this) other.

(** [CTable(rows, cols)] *)
Definition new_table (rows cols : nat) : CTable :=
  mkTable rows cols (replicate rows (replicate cols CEmpty)).

(** Well-formed values: the grid of every table, at every depth, has [Rows]
    rows of [Cols] cells.  Every constructor establishes this and no member
    function breaks it. *)
Fixpoint wf_cell (cell : CBase) : bool :=
  match cell with
  | CTableCell t =>
      bool_decide (length (Cells t) = Rows t)
      && forallb (fun row => bool_decide (length row = Cols t) && forallb wf_cell row)
                 (Cells t)
  | _ => true
  end.

Definition wf_table (t : CTable) : bool := wf_cell (CTableCell t).

(** Nesting depth of embedded tables. *)
Fixpoint depth (cell : CBase) : nat :=
  match cell with
  | CTableCell t => S (max_list (max_list <$> (map (map depth) (Cells t))))
  | _ => 0
  end.

Definition table_depth (t : CTable) : nat :=
  max_list (max_list <$> (map (map depth) (Cells t))).

(** ** The layout of a rendered table, as the specification words it *)

Section Layout.
Context (rows cols : nat) (colWidth rowHeight : nat -> nat)
        (resized : nat -> nat -> list str).

Definition border_line : str :=
  lit "+" ++ concat ((fun c => replicate (colWidth c) "-"%char ++ lit "+") <$> seq 0 cols)
  ++ [nl].

Definition content_line (r i : nat) : str :=
  lit "|" ++ concat ((fun c => (resized r c !!! i) ++ lit "|") <$> seq 0 cols) ++ [nl].

Definition row_block (r : nat) : str :=
  concat (content_line r <$> seq 0 (rowHeight r)) ++ border_line.

Definition layout : str :=
  border_line ++ concat (row_block <$> seq 0 rows).
End Layout.

(** ** The store: objects behind [shared_ptr] and tables on the stack *)

Abbreviation loc := nat (only parsing).

(** An object.  A [shared_ptr] member is the location of what it points to,
    so copying a [shared_ptr] copies a location and shares the object. *)
Inductive object : Type :=
| OEmpty
| OText (allLines : list str) (formatType : FormatingType)
| OImage (imageData : list str)
| OTableCell (tableContent : loc)
| OTable (rows cols : nat) (cells : list (list loc)).

Abbreviation store := (list object).

(** [std::make_shared<T>(o)], or a new variable on the stack *)
Definition alloc (o : object) (h : store) : loc * store := (length h, h ++ [o]).

(** [*l = o] *)
Definition write (l : loc) (o : object) (h : store) : outcome store := set_at h l o.

(** [Clone], virtual: every override makes a shared copy of [*this] with the
    implicit copy constructor of its class, which copies the members.  For a
    [CTableCell] this copies the [shared_ptr<CTable>]: the copy shares the
    table of the original. *)
Definition Clone (this : loc) (h : store) : outcome (loc * store) :=
  o ← at_ h this;
  match o with
  | OTable _ _ _ => Undefined
  | _ => Ok (alloc o h)
  end.

(** The loop nest of the copy constructor and of [operator=]:
    [Cells[rows][cols] = other.Cells[rows][cols]->Clone()], row by row.  The
    new grid is built by appending instead of assigning into a grid of null
    pointers. *)
Definition clone_cells (Rows Cols : nat) (cells : list (list loc)) (h : store)
  : outcome (list (list loc) * store) :=
  for_range Rows (fun rows '(grid, h) =>
    '(row, h) ← for_range Cols (fun cols '(row, h) =>
                   cell ← at2 cells rows cols;
                   '(cell', h) ← Clone cell h;
                   Ok (row ++ [cell'], h))
                 ([], h);
    Ok (grid ++ [row], h))
  ([], h).

(** [CTable(const CTable& other)], for a new table object *)
Definition copy_table (other : loc) (h : store) : outcome (loc * store) :=
  o ← at_ h other;
  match o with
  | OTable Rows Cols cells =>
      '(cells', h) ← clone_cells Rows Cols cells h;
      Ok (alloc (OTable Rows Cols cells') h)
  | _ => Undefined
  end.

(** [std::make_shared<CTableCell>(table)]:
    [tableContent(std::make_shared<CTable>(table))] *)
Definition new_TableCell (table : loc) (h : store) : outcome (loc * store) :=
  '(tableContent, h) ← copy_table table h;
  Ok (alloc (OTableCell tableContent) h).

(** [CTable(rows, cols)], for a new table object *)
Definition new_CTable (rows cols : nat) (h : store) : outcome (loc * store) :=
  '(cells, h) ←
    for_range rows (fun _ '(grid, h) =>
      '(row, h) ← for_range cols (fun _ '(row, h) =>
                     let '(cell, h) := alloc OEmpty h in Ok (row ++ [cell], h))
                   ([], h);
      Ok (grid ++ [row], h))
    ([], h);
  Ok (alloc (OTable rows cols cells) h).

(** [getCell]: the reference is the location of the cell. *)
Definition getCell (this : loc) (row col : nat) (h : store) : outcome loc :=
  o ← at_ h this;
  match o with
  | OTable _ _ cells => at2 cells row col
  | _ => Undefined
  end.

(** [Cells[row][col] = p] *)
Definition set_pointer (this : loc) (row col : nat) (p : loc) (h : store)
  : outcome store :=
  o ← at_ h this;
  match o with
  | OTable Rows Cols cells =>
      cells' ← set_at2 cells row col p;
      write this (OTable Rows Cols cells') h
  | _ => Undefined
  end.

(** [setCell(row, col, const CBase& cell)] *)
Definition setCell (this : loc) (row col : nat) (cell : loc) (h : store)
  : outcome store :=
  '(p, h) ← Clone cell h;
  set_pointer this row col p h.

(** [setCell(row, col, const CTable& cell)] *)
Definition setCell_table (this : loc) (row col : nat) (cell : loc) (h : store)
  : outcome store :=
  '(p, h) ← new_TableCell cell h;
  set_pointer this row col p h.

(** [dynamic_cast<CText&>(cell).setText(text)] *)
Definition setText (cell : loc) (text : str) (h : store) : outcome store :=
  o ← at_ h cell;
  match o with
  | OText _ formatType => write cell (OText (Text.setText text) formatType) h
  | OTable _ _ _ => Undefined
  | _ => Throw bad_cast
  end.

(** [dynamic_cast<CImage&>(cell).addRow(row)] *)
Definition addRow (cell : loc) (row : str) (h : store) : outcome store :=
  o ← at_ h cell;
  match o with
  | OImage imageData => write cell (OImage (Image.addRow imageData row)) h
  | OTable _ _ _ => Undefined
  | _ => Throw bad_cast
  end.

(** [this = other] on tables *)
Definition assign (this other : loc) (h : store) : outcome store :=
  if decide (other = this) then Ok h
  else
    o ← at_ h other;
    match o with
    | OTable Rows Cols cells =>
        '(cells', h) ← clone_cells Rows Cols cells h;
        write this (OTable Rows Cols cells') h
    | _ => Undefined
    end.

(** ** Reading the store as values *)

(** The value of the cell at [cell], following pointers at most [fuel] tables
    deep.  A dangling pointer, an object of the wrong class or a cycle gives
    no value: a [const] member function called there has no defined result
    or recurses for ever. *)
Fixpoint load (fuel : nat) (h : store) (cell : loc) : option CBase :=
  match fuel with
  | 0 => None
  | S fuel =>
      match h !! cell with
      | Some OEmpty => Some CEmpty
      | Some (OText allLines formatType) => Some (CText allLines formatType)
      | Some (OImage imageData) => Some (CImage imageData)
      | Some (OTableCell tableContent) =>
          match h !! tableContent with
          | Some (OTable Rows Cols cells) =>
              cells' ← mapM (mapM (load fuel h)) cells;
              Some (CTableCell (mkTable Rows Cols cells'))
          | _ => None
          end
      | _ => None
      end
  end.

Definition load_table (fuel : nat) (h : store) (table : loc) : option CTable :=
  match h !! table with
  | Some (OTable Rows Cols cells) =>
      cells' ← mapM (mapM (load fuel h)) cells;
      Some (mkTable Rows Cols cells')
  | _ => None
  end.

(** The cell at [cell] has the value [v]. *)
Definition reads (h : store) (cell : loc) (v : CBase) : Prop :=
  exists fuel, load fuel h cell = Some v.

(** The table at [table] has the value [T]. *)
Definition reads_table (h : store) (table : loc) (T : CTable) : Prop :=
  exists fuel, load_table fuel h table = Some T.

(** [o] holds a pointer to [p]. *)
Definition points_to (o : object) (p : loc) : Prop :=
  match o with
  | OTableCell tableContent => p = tableContent
  | OTable _ _ cells => exists row, row ∈ cells /\ p ∈ row
  | _ => False
  end.

(** The table at [table] is a variable of the program: no [shared_ptr] points
    to it, and the cells of its grid are pointed to by nothing else. *)
Definition owned (h : store) (table : loc) : Prop :=
  forall x o p, h !! x = Some o -> points_to o p ->
    p <> table
    /\ (x <> table -> forall o', h !! table = Some o' -> ~ points_to o' p).

(** ** Notions used in the statements *)

Definition col_max (wm : nat -> nat -> nat) (rows c : nat) : nat :=
  max_list ((fun r => wm r c) <$> seq 0 rows).

Definition row_max (hm : nat -> nat -> nat) (cols r : nat) : nat :=
  max_list (hm r <$> seq 0 cols).

(** A block of [height] lines of [width] characters each. *)
Definition block (height width : nat) (out : list str) : Prop :=
  length out = height /\ Forall (fun line => length line = width) out.

(** Line [i] of the output of a text: the stored line, or the empty string
    past the last one, padded to [width]. *)
Definition text_line (allLines : list str) (formatType : FormatingType)
    (width i : nat) : str :=
  let line := default [] (allLines !! i) in
  let pad := replicate (width - length line) sp in
  match formatType with
  | ALIGN_LEFT => line ++ pad
  | ALIGN_RIGHT => pad ++ line
  end.

#[global] Instance CBase_inhabited : Inhabited CBase := populate CEmpty.

Definition natural_width (cell : CBase) : nat :=
  match Width cell with Ok w => w | _ => 0 end.

Definition natural_height (cell : CBase) : nat :=
  match Height cell with Ok h => h | _ => 0 end.

Definition cell_at (t : CTable) (r c : nat) : CBase := (Cells t !!! r) !!! c.

(** [colWidth[c]]: the largest natural width in column [c]. *)
Definition colWidth (t : CTable) (c : nat) : nat :=
  col_max (fun r c => natural_width (cell_at t r c)) (Rows t) c.

(** [rowHeight[r]]: the largest natural height in row [r]. *)
Definition rowHeight (t : CTable) (r : nat) : nat :=
  row_max (fun r c => natural_height (cell_at t r c)) (Cols t) r.

(** The output of cell [(r, c)] resized to its row and column. *)
Definition resized (t : CTable) (r c : nat) : list str :=
  match Output (cell_at t r c) (rowHeight t r) (colWidth t c) with
  | Ok out => out
  | _ => []
  end.

Definition table_layout (t : CTable) : str :=
  layout (Rows t) (Cols t) (colWidth t) (rowHeight t) (resized t).

Definition sized (cell : CBase) : Prop :=
  exists w h, Width cell = Ok w /\ Height cell = Ok h
    /\ forall height width, w <= width ->
         exists out, Output cell height width = Ok out /\ block height width out.

(** The shape of a grid, without its cells. *)
Definition grid_shape {A : Type} (rows cols : nat) (cells : list (list A)) : Prop :=
  length cells = rows /\ Forall (fun row => length row = cols) cells.

(** The lines of a text: the segments ended by a newline, and the characters
    after the last newline, if any, as one more line. *)
Fixpoint text_lines (text : str) : list str :=
  match text with
  | [] => []
  | c :: rest =>
      if decide (c = nl) then [] :: text_lines rest
      else match text_lines rest with
           | [] => [[c]]
           | line :: lines => (c :: line) :: lines
           end
  end.

(** A string with no newline in it. *)
Definition single_line (s : str) : Prop := nl ∉ s.

(** A cell whose stored lines are single lines: [setText] stores the result of
    [std::getline], and [addRow] documents its argument as
    "a single line of the image". *)
Definition single_lines (cell : CBase) : Prop :=
  match cell with
  | CText allLines _ => Forall single_line allLines
  | CImage imageData => Forall single_line imageData
  | _ => True
  end.

(** The lines [os << table] writes, each without its newline. *)
Definition written_lines (t : CTable) : list str :=
  let border := lit "+" ++ concat ((fun c => replicate (colWidth t c) "-"%char ++ lit "+")
                                     <$> seq 0 (Cols t)) in
  border ::
  concat ((fun r =>
      ((fun i => lit "|" ++ concat ((fun c => (resized t r c !!! i) ++ lit "|")
                                      <$> seq 0 (Cols t)))
         <$> seq 0 (rowHeight t r)) ++ [border])
    <$> seq 0 (Rows t)).

(** ** Tables of [main] used as test data *)

(** [t2] of [main]: a 2 x 2 table of left-aligned texts. *)
Definition main_t2 : CTable :=
  mkTable 2 2
    [[CText [lit "OOP"] ALIGN_LEFT; CText [lit "Encapsulation"] ALIGN_LEFT];
     [CText [lit "Polymorphism"] ALIGN_LEFT; CText [lit "Inheritance"] ALIGN_LEFT]].

(** A table with an embedded table, an image and an empty cell. *)
Definition nested_table : CTable :=
  mkTable 2 2
    [[CTableCell main_t2; CImage [lit "/\"; lit "\/"]];
     [CEmpty; CText [lit "Bye,"; lit "Hello Kitty"] ALIGN_RIGHT]].

(** The values of a grid of cells, given the value of each cell. *)
Definition load_grid (ld : loc -> option CBase) (cells : list (list loc))
  : option (list (list CBase)) :=
  mapM (mapM ld) cells.

(** Row [row] of locations holds the values [vs], and the same for a grid. *)
Definition row_loads (fuel : nat) (h : store) (row : list loc) (vs : list CBase) : Prop :=
  Forall2 (fun l v => load fuel h l = Some v) row vs.

Definition grid_loads (fuel : nat) (h : store) (cells : list (list loc))
    (vals : list (list CBase)) : Prop :=
  Forall2 (row_loads fuel h) cells vals.

(** Every location of the grid is at or above [bound]. *)
Definition grid_above (bound : nat) (cells : list (list loc)) : Prop :=
  Forall (Forall (fun l => bound <= l)) cells.

(** Every object of [k] is a copy of the object of a cell of the grid. *)
Definition copies_of (h : store) (cells : list (list loc)) (k : store) : Prop :=
  Forall (fun o => exists row x, row ∈ cells /\ x ∈ row /\ h !! x = Some o
                                 /\ forall R C cs, o <> OTable R C cs) k.

(** [Cells[row][col] = v] on the value of a table *)
Definition set_cell (T : CTable) (row col : nat) (v : CBase) : CTable :=
  mkTable (Rows T) (Cols T) (<[row := <[col := v]> (Cells T !!! row)]> (Cells T)).

(** The same on a grid of locations *)
Definition set_loc (cells : list (list loc)) (row col : nat) (p : loc) : list (list loc) :=
  <[row := <[col := p]> (cells !!! row)]> cells.

(** No object points to [table]. *)
Definition unreferenced (h : store) (table : loc) : Prop :=
  forall x o, h !! x = Some o -> ~ points_to o table.

(** Every pointer of [o] goes to a new object, or is a copy of a pointer of
    the object of a cell of the grid. *)
Definition fresh_or_copied (h : store) (cells : list (list loc)) (o : object) : Prop :=
  forall p, points_to o p ->
    length h <= p
    \/ exists row x o', row ∈ cells /\ x ∈ row /\ h !! x = Some o'
                        /\ (forall R C cs, o' <> OTable R C cs) /\ points_to o' p.

(** ** A store used as test data *)

(** The store of this program, with the table [t] at [example_t] and the
    table [u] at [example_u]:
<<
    CTable t(1, 2);  t.setCell(0, 0, CText("ab", CText::ALIGN_LEFT));
    CTable u(1, 1);  u.setCell(0, 0, CImage().addRow("##"));
>>
    The model frees nothing: the temporaries and the replaced cells stay in
    the store, with nothing pointing to them. *)
Definition example_program : outcome (loc * loc * store) :=
  '(t, h) ← new_CTable 1 2 [];
  let '(text, h) := alloc (OText (Text.setText (lit "ab")) ALIGN_LEFT) h in
  h ← setCell t 0 0 text h;
  '(u, h) ← new_CTable 1 1 h;
  let '(image, h) := alloc (OImage []) h in
  h ← addRow image (lit "##") h;
  h ← setCell u 0 0 image h;
  Ok (t, u, h).

Definition example_t : loc := 2.
Definition example_u : loc := 6.

Definition example_store : store :=
  [OEmpty; OEmpty; OTable 1 2 [[4; 1]];
   OText [lit "ab"] ALIGN_LEFT; OText [lit "ab"] ALIGN_LEFT;
   OEmpty; OTable 1 1 [[8]];
   OImage [lit "##"]; OImage [lit "##"]].

Definition example_T : CTable := mkTable 1 2 [[CText [lit "ab"] ALIGN_LEFT; CEmpty]].
Definition example_U : CTable := mkTable 1 1 [[CImage [lit "##"]]].

(** The pointers an object holds. *)
Definition pointers (o : object) : list loc :=
  match o with
  | OTableCell tableContent => [tableContent]
  | OTable _ _ cells => mjoin cells
  | _ => []
  end.

(** [unreferenced] and [owned] as properties of lists, which are decidable. *)
Definition unreferenced_list (h : store) (table : loc) : Prop :=
  Forall (fun o => table ∉ pointers o) h.

Definition owned_list (h : store) (table : loc) : Prop :=
  Forall (fun xo : nat * object =>
            Forall (fun p => p <> table
                             /\ (xo.1 <> table ->
                                 p ∉ pointers (default OEmpty (h !! table))))
                   (pointers xo.2))
         (imap pair h).

(** ** Changes a program can make to a table and its cells *)

Inductive mutation : Type :=
| SetCell (row col : nat) (cell : loc)
    (* t.setCell(row, col, c), for the cell object c at [cell] *)
| SetCellTable (row col : nat) (table : loc)
    (* t.setCell(row, col, u), for the table u at [table] *)
| SetText (row col : nat) (text : str)
    (* dynamic_cast<CText&>(t.getCell(row, col)).setText(text) *)
| AddRow (row col : nat) (line : str)
    (* dynamic_cast<CImage&>(t.getCell(row, col)).addRow(line) *)
| Assign (other : loc).
    (* t = u, for the table u at [other] *)

Definition mutate (t : loc) (m : mutation) (h : store) : outcome store :=
  match m with
  | SetCell row col cell => setCell t row col cell h
  | SetCellTable row col table => setCell_table t row col table h
  | SetText row col text => cell ← getCell t row col h; setText cell text h
  | AddRow row col line => cell ← getCell t row col h; addRow cell line h
  | Assign other => assign t other h
  end.

Fixpoint mutate_all (t : loc) (ms : list mutation) (h : store) : outcome store :=
  match ms with
  | [] => Ok h
  | m :: ms => h ← mutate t m h; mutate_all t ms h
  end.

(** [p] is one of the locations of the grid. *)
Definition in_grid (cells : list (list loc)) (p : loc) : Prop :=
  exists row, row ∈ cells /\ p ∈ row.

(** [h2] differs from [h1] only in new objects, in the table at [t] and in
    the cells [cells1] that table had in [h1]; the grid of the table now
    holds cells it had in [h1] and new objects. *)
Definition confined (h1 : store) (t : loc) (cells1 : list (list loc)) (h2 : store)
  : Prop :=
  length h1 <= length h2
  /\ (forall x, x < length h1 -> x <> t -> ~ in_grid cells1 x -> h2 !! x = h1 !! x)
  /\ exists R C cells2,
       h2 !! t = Some (OTable R C cells2)
       /\ forall p, in_grid cells2 p -> in_grid cells1 p \/ length h1 <= p.

(** [Rows] and [Cols] of the table at [t]. *)
Definition dims (h : store) (t : loc) : option (nat * nat) :=
  match h !! t with
  | Some (OTable Rows Cols _) => Some (Rows, Cols)
  | _ => None
  end.

(** What a program can do with a table [t].  Streaming, comparing and
    [getCell] itself are [const] or write nothing: they leave the store as it
    is. *)
Inductive operation : Type :=
| Mutation (m : mutation)
| Render                       (* os << t *)
| Compare (other : loc)        (* t == u, t != u *)
| GetCell (row col : nat).     (* t.getCell(row, col) *)

Definition is_assignment (op : operation) : Prop :=
  match op with
  | Mutation (Assign _) => True
  | _ => False
  end.

Definition exec (t : loc) (op : operation) (h : store) : outcome store :=
  match op with
  | Mutation m => mutate t m h
  | Render | Compare _ => Ok h
  | GetCell row col => _ ← getCell t row col h; Ok h
  end.

Fixpoint exec_all (t : loc) (ops : list operation) (h : store) : outcome store :=
  match ops with
  | [] => Ok h
  | op :: ops => h ← exec t op h; exec_all t ops h
  end.

(** ** What the [const] member functions return on a store

    They read the value under a location and compute on it; where there is
    no value they return nothing. *)

(** [oss << table] writes [text]. *)
Definition text_at (h : store) (table : loc) (text : str) : Prop :=
  exists T, reads_table h table T /\ to_text T = Ok text.

(** [cell.Output(height, width)] returns [out]. *)
Definition Output_at (h : store) (cell : loc) (height width : nat) (out : list str)
  : Prop :=
  exists v, reads h cell v /\ Output v height width = Ok out.

(** [a == b] returns [true]. *)
Definition equal_at (h : store) (a b : loc) : Prop :=
  exists va vb, reads h a va /\ reads h b vb /\ cell_equals va vb = Ok true.

(** ** The program [main], statement by statement *)

(** The text of a list of lines, with a newline between two lines. *)
Definition lines_text (lines : list str) : str :=
  match lines with
  | [] => []
  | line :: lines => line ++ concat ((fun l => nl :: l) <$> lines)
  end.

(** [t.setCell(row, col, c)] for a temporary [c] *)
Definition setCell_temp (t : loc) (row col : nat) (c : object) (h : store) : outcome store :=
  let '(x, h) := alloc c h in setCell t row col x h.

(** The temporary [CImage().addRow(r1). ... .addRow(rn)] *)
Definition image_temp (rows : list str) : object := OImage (fold_left Image.addRow rows []).

(** The temporary [CText(text, format)] *)
Definition text_temp (lines : list str) (format : FormatingType) : object :=
  OText (Text.setText (lines_text lines)) format.

(** [oss << t; oss.str()], reading at most [fuel] tables deep *)
Definition stream (fuel : nat) (h : store) (t : loc) : outcome str :=
  match load_table fuel h t with
  | Some T => to_text T
  | None => Undefined
  end.

(** [a == b] on the cells at [a] and [b] *)
Definition cells_equal (fuel : nat) (h : store) (a b : loc) : outcome bool :=
  match load fuel h a, load fuel h b with
  | Some va, Some vb => cell_equals va vb
  | _, _ => Undefined
  end.

(** [a == b] on the tables at [a] and [b] *)
Definition tables_equal (fuel : nat) (h : store) (a b : loc) : outcome bool :=
  match load_table fuel h a, load_table fuel h b with
  | Some Ta, Some Tb => equals Ta Tb
  | _, _ => Undefined
  end.

Definition main_image_1 : list str :=
  [lit "###                   ";
    lit "#  #                  ";
    lit "#  # # ##   ###    ###";
    lit "###  ##    #   #  #  #";
    lit "#    #     #   #  #  #";
    lit "#    #     #   #  #  #";
    lit "#    #      ###    ###";
    lit "                     #";
    lit "                   ## ";
    lit "                      ";
    lit " #    ###   ###   #   ";
    lit "###  #   # #     ###  ";
    lit " #   #####  ###   #   ";
    lit " #   #         #  #   ";
    lit "  ##  ###   ###    ## "].

Definition main_image_2 : list str :=
  [lit "*****   *      *  *      ******* ******  *";
    lit "*    *  *      *  *      *            *  *";
    lit "*    *  *      *  *      *           *   *";
    lit "*    *  *      *  *      *****      *    *";
    lit "****    *      *  *      *         *     *";
    lit "*  *    *      *  *      *        *       ";
    lit "*   *   *      *  *      *       *       *";
    lit "*    *    *****   ****** ******* ******  *"].

Definition main_image_3 : list str :=
  [lit "  ********                    ";
    lit " **********                   ";
    lit "**        **                  ";
    lit "**             **        **   ";
    lit "**             **        **   ";
    lit "***         ********  ********";
    lit "****        ********  ********";
    lit "****           **        **   ";
    lit "****           **        **   ";
    lit "****      **                  ";
    lit " **********                   ";
    lit "  ********                    "].

Definition main_long_text : list str :=
  [lit "Lorem ipsum dolor sit amet,";
    lit "consectetur adipiscing";
    lit "elit. Curabitur scelerisque";
    lit "lorem vitae lectus cursus,";
    lit "vitae porta ante placerat. Class aptent taciti";
    lit "sociosqu ad litora";
    lit "torquent per";
    lit "conubia nostra,";
    lit "per inceptos himenaeos.";
    lit "";
    lit "Donec tincidunt augue";
    lit "sit amet metus";
    lit "pretium volutpat.";
    lit "Donec faucibus,";
    lit "ante sit amet";
    lit "luctus posuere,";
    lit "mauris tellus"].

(** [main] up to its last assertion.  The result is what each assertion
    compares: the texts streamed, in order, and the results of the
    comparisons. *)
Definition main_program : outcome (list str * list bool) :=
  let fuel := 5 in
  '(t0, h) ← new_CTable 3 2 [];
  h ← setCell_temp t0 0 0 (text_temp [lit "Hello,"; lit "Hello Kitty"] ALIGN_LEFT) h;
  h ← setCell_temp t0 1 0 (text_temp [lit "Lorem ipsum dolor sit amet"] ALIGN_LEFT) h;
  h ← setCell_temp t0 2 0 (text_temp [lit "Bye,"; lit "Hello Kitty"] ALIGN_RIGHT) h;
  h ← setCell_temp t0 1 1 (image_temp main_image_1) h;
  h ← setCell_temp t0 2 1 OEmpty h;
  s1 ← stream fuel h t0;
  c ← getCell t0 1 1 h;
  h ← setCell t0 0 1 c h;
  h ← setCell_temp t0 2 1 (image_temp main_image_2) h;
  c ← getCell t0 1 0 h;
  h ← setText c (lines_text main_long_text) h;
  s2 ← stream fuel h t0;
  '(t1, h) ← copy_table t0 h;
  h ← setCell_temp t1 1 0 OEmpty h;
  h ← setCell_temp t1 1 1 OEmpty h;
  s3 ← stream fuel h t0;
  s4 ← stream fuel h t1;
  h ← assign t1 t0 h;
  h ← setCell_temp t1 0 0 OEmpty h;
  h ← setCell_temp t1 1 1 (image_temp main_image_3) h;
  s5 ← stream fuel h t0;
  s6 ← stream fuel h t1;
  '(t2, h) ← new_CTable 2 2 h;
  h ← setCell_temp t2 0 0 (text_temp [lit "OOP"] ALIGN_LEFT) h;
  h ← setCell_temp t2 0 1 (text_temp [lit "Encapsulation"] ALIGN_LEFT) h;
  h ← setCell_temp t2 1 0 (text_temp [lit "Polymorphism"] ALIGN_LEFT) h;
  h ← setCell_temp t2 1 1 (text_temp [lit "Inheritance"] ALIGN_LEFT) h;
  s7 ← stream fuel h t2;
  h ← setCell_table t1 0 0 t2 h;
  c ← getCell t2 0 0 h;
  h ← setText c (lit "Object Oriented Programming") h;
  s8 ← stream fuel h t2;
  s9 ← stream fuel h t1;
  b1 ← tables_equal fuel h t0 t1;
  c11 ← getCell t0 1 1 h;
  c01 ← getCell t0 0 1 h;
  c00 ← getCell t0 0 0 h;
  b2 ← cells_equal fuel h c11 c01;
  b3 ← cells_equal fuel h c00 c01;
  h ← setCell_table t1 0 0 t1 h;
  s10 ← stream fuel h t1;
  h ← setCell_table t1 0 0 t1 h;
  s11 ← stream fuel h t1;
  Ok ([s1; s2; s3; s4; s5; s6; s7; s8; s9; s10; s11], [b1; b2; b3]).

Definition main_expected_1 : list str :=
  [lit "+--------------------------+----------------------+";
    lit "|Hello,                    |                      |";
    lit "|Hello Kitty               |                      |";
    lit "+--------------------------+----------------------+";
    lit "|Lorem ipsum dolor sit amet|###                   |";
    lit "|                          |#  #                  |";
    lit "|                          |#  # # ##   ###    ###|";
    lit "|                          |###  ##    #   #  #  #|";
    lit "|                          |#    #     #   #  #  #|";
    lit "|                          |#    #     #   #  #  #|";
    lit "|                          |#    #      ###    ###|";
    lit "|                          |                     #|";
    lit "|                          |                   ## |";
    lit "|                          |                      |";
    lit "|                          | #    ###   ###   #   |";
    lit "|                          |###  #   # #     ###  |";
    lit "|                          | #   #####  ###   #   |";
    lit "|                          | #   #         #  #   |";
    lit "|                          |  ##  ###   ###    ## |";
    lit "+--------------------------+----------------------+";
    lit "|                      Bye,|                      |";
    lit "|               Hello Kitty|                      |";
    lit "+--------------------------+----------------------+"].

Definition main_expected_2 : list str :=
  [lit "+----------------------------------------------+------------------------------------------+";
    lit "|Hello,                                        |          ###                             |";
    lit "|Hello Kitty                                   |          #  #                            |";
    lit "|                                              |          #  # # ##   ###    ###          |";
    lit "|                                              |          ###  ##    #   #  #  #          |";
    lit "|                                              |          #    #     #   #  #  #          |";
    lit "|                                              |          #    #     #   #  #  #          |";
    lit "|                                              |          #    #      ###    ###          |";
    lit "|                                              |                               #          |";
    lit "|                                              |                             ##           |";
    lit "|                                              |                                          |";
    lit "|                                              |           #    ###   ###   #             |";
    lit "|                                              |          ###  #   # #     ###            |";
    lit "|                                              |           #   #####  ###   #             |";
    lit "|                                              |           #   #         #  #             |";
    lit "|                                              |            ##  ###   ###    ##           |";
    lit "+----------------------------------------------+------------------------------------------+";
    lit "|Lorem ipsum dolor sit amet,                   |                                          |";
    lit "|consectetur adipiscing                        |          ###                             |";
    lit "|elit. Curabitur scelerisque                   |          #  #                            |";
    lit "|lorem vitae lectus cursus,                    |          #  # # ##   ###    ###          |";
    lit "|vitae porta ante placerat. Class aptent taciti|          ###  ##    #   #  #  #          |";
    lit "|sociosqu ad litora                            |          #    #     #   #  #  #          |";
    lit "|torquent per                                  |          #    #     #   #  #  #          |";
    lit "|conubia nostra,                               |          #    #      ###    ###          |";
    lit "|per inceptos himenaeos.                       |                               #          |";
    lit "|                                              |                             ##           |";
    lit "|Donec tincidunt augue                         |                                          |";
    lit "|sit amet metus                                |           #    ###   ###   #             |";
    lit "|pretium volutpat.                             |          ###  #   # #     ###            |";
    lit "|Donec faucibus,                               |           #   #####  ###   #             |";
    lit "|ante sit amet                                 |           #   #         #  #             |";
    lit "|luctus posuere,                               |            ##  ###   ###    ##           |";
    lit "|mauris tellus                                 |                                          |";
    lit "+----------------------------------------------+------------------------------------------+";
    lit "|                                          Bye,|*****   *      *  *      ******* ******  *|";
    lit "|                                   Hello Kitty|*    *  *      *  *      *            *  *|";
    lit "|                                              |*    *  *      *  *      *           *   *|";
    lit "|                                              |*    *  *      *  *      *****      *    *|";
    lit "|                                              |****    *      *  *      *         *     *|";
    lit "|                                              |*  *    *      *  *      *        *       |";
    lit "|                                              |*   *   *      *  *      *       *       *|";
    lit "|                                              |*    *    *****   ****** ******* ******  *|";
    lit "+----------------------------------------------+------------------------------------------+"].

Definition main_expected_3 : list str :=
  [lit "+-----------+------------------------------------------+";
    lit "|Hello,     |          ###                             |";
    lit "|Hello Kitty|          #  #                            |";
    lit "|           |          #  # # ##   ###    ###          |";
    lit "|           |          ###  ##    #   #  #  #          |";
    lit "|           |          #    #     #   #  #  #          |";
    lit "|           |          #    #     #   #  #  #          |";
    lit "|           |          #    #      ###    ###          |";
    lit "|           |                               #          |";
    lit "|           |                             ##           |";
    lit "|           |                                          |";
    lit "|           |           #    ###   ###   #             |";
    lit "|           |          ###  #   # #     ###            |";
    lit "|           |           #   #####  ###   #             |";
    lit "|           |           #   #         #  #             |";
    lit "|           |            ##  ###   ###    ##           |";
    lit "+-----------+------------------------------------------+";
    lit "+-----------+------------------------------------------+";
    lit "|       Bye,|*****   *      *  *      ******* ******  *|";
    lit "|Hello Kitty|*    *  *      *  *      *            *  *|";
    lit "|           |*    *  *      *  *      *           *   *|";
    lit "|           |*    *  *      *  *      *****      *    *|";
    lit "|           |****    *      *  *      *         *     *|";
    lit "|           |*  *    *      *  *      *        *       |";
    lit "|           |*   *   *      *  *      *       *       *|";
    lit "|           |*    *    *****   ****** ******* ******  *|";
    lit "+-----------+------------------------------------------+"].

Definition main_expected_4 : list str :=
  [lit "+----------------------------------------------+------------------------------------------+";
    lit "|                                              |          ###                             |";
    lit "|                                              |          #  #                            |";
    lit "|                                              |          #  # # ##   ###    ###          |";
    lit "|                                              |          ###  ##    #   #  #  #          |";
    lit "|                                              |          #    #     #   #  #  #          |";
    lit "|                                              |          #    #     #   #  #  #          |";
    lit "|                                              |          #    #      ###    ###          |";
    lit "|                                              |                               #          |";
    lit "|                                              |                             ##           |";
    lit "|                                              |                                          |";
    lit "|                                              |           #    ###   ###   #             |";
    lit "|                                              |          ###  #   # #     ###            |";
    lit "|                                              |           #   #####  ###   #             |";
    lit "|                                              |           #   #         #  #             |";
    lit "|                                              |            ##  ###   ###    ##           |";
    lit "+----------------------------------------------+------------------------------------------+";
    lit "|Lorem ipsum dolor sit amet,                   |                                          |";
    lit "|consectetur adipiscing                        |                                          |";
    lit "|elit. Curabitur scelerisque                   |        ********                          |";
    lit "|lorem vitae lectus cursus,                    |       **********                         |";
    lit "|vitae porta ante placerat. Class aptent taciti|      **        **                        |";
    lit "|sociosqu ad litora                            |      **             **        **         |";
    lit "|torquent per                                  |      **             **        **         |";
    lit "|conubia nostra,                               |      ***         ********  ********      |";
    lit "|per inceptos himenaeos.                       |      ****        ********  ********      |";
    lit "|                                              |      ****           **        **         |";
    lit "|Donec tincidunt augue                         |      ****           **        **         |";
    lit "|sit amet metus                                |      ****      **                        |";
    lit "|pretium volutpat.                             |       **********                         |";
    lit "|Donec faucibus,                               |        ********                          |";
    lit "|ante sit amet                                 |                                          |";
    lit "|luctus posuere,                               |                                          |";
    lit "|mauris tellus                                 |                                          |";
    lit "+----------------------------------------------+------------------------------------------+";
    lit "|                                          Bye,|*****   *      *  *      ******* ******  *|";
    lit "|                                   Hello Kitty|*    *  *      *  *      *            *  *|";
    lit "|                                              |*    *  *      *  *      *           *   *|";
    lit "|                                              |*    *  *      *  *      *****      *    *|";
    lit "|                                              |****    *      *  *      *         *     *|";
    lit "|                                              |*  *    *      *  *      *        *       |";
    lit "|                                              |*   *   *      *  *      *       *       *|";
    lit "|                                              |*    *    *****   ****** ******* ******  *|";
    lit "+----------------------------------------------+------------------------------------------+"].

Definition main_expected_5 : list str :=
  [lit "+------------+-------------+";
    lit "|OOP         |Encapsulation|";
    lit "+------------+-------------+";
    lit "|Polymorphism|Inheritance  |";
    lit "+------------+-------------+"].

Definition main_expected_6 : list str :=
  [lit "+---------------------------+-------------+";
    lit "|Object Oriented Programming|Encapsulation|";
    lit "+---------------------------+-------------+";
    lit "|Polymorphism               |Inheritance  |";
    lit "+---------------------------+-------------+"].

Definition main_expected_7 : list str :=
  [lit "+----------------------------------------------+------------------------------------------+";
    lit "|+------------+-------------+                  |          ###                             |";
    lit "||OOP         |Encapsulation|                  |          #  #                            |";
    lit "|+------------+-------------+                  |          #  # # ##   ###    ###          |";
    lit "||Polymorphism|Inheritance  |                  |          ###  ##    #   #  #  #          |";
    lit "|+------------+-------------+                  |          #    #     #   #  #  #          |";
    lit "|                                              |          #    #     #   #  #  #          |";
    lit "|                                              |          #    #      ###    ###          |";
    lit "|                                              |                               #          |";
    lit "|                                              |                             ##           |";
    lit "|                                              |                                          |";
    lit "|                                              |           #    ###   ###   #             |";
    lit "|                                              |          ###  #   # #     ###            |";
    lit "|                                              |           #   #####  ###   #             |";
    lit "|                                              |           #   #         #  #             |";
    lit "|                                              |            ##  ###   ###    ##           |";
    lit "+----------------------------------------------+------------------------------------------+";
    lit "|Lorem ipsum dolor sit amet,                   |                                          |";
    lit "|consectetur adipiscing                        |                                          |";
    lit "|elit. Curabitur scelerisque                   |        ********                          |";
    lit "|lorem vitae lectus cursus,                    |       **********                         |";
    lit "|vitae porta ante placerat. Class aptent taciti|      **        **                        |";
    lit "|sociosqu ad litora                            |      **             **        **         |";
    lit "|torquent per                                  |      **             **        **         |";
    lit "|conubia nostra,                               |      ***         ********  ********      |";
    lit "|per inceptos himenaeos.                       |      ****        ********  ********      |";
    lit "|                                              |      ****           **        **         |";
    lit "|Donec tincidunt augue                         |      ****           **        **         |";
    lit "|sit amet metus                                |      ****      **                        |";
    lit "|pretium volutpat.                             |       **********                         |";
    lit "|Donec faucibus,                               |        ********                          |";
    lit "|ante sit amet                                 |                                          |";
    lit "|luctus posuere,                               |                                          |";
    lit "|mauris tellus                                 |                                          |";
    lit "+----------------------------------------------+------------------------------------------+";
    lit "|                                          Bye,|*****   *      *  *      ******* ******  *|";
    lit "|                                   Hello Kitty|*    *  *      *  *      *            *  *|";
    lit "|                                              |*    *  *      *  *      *           *   *|";
    lit "|                                              |*    *  *      *  *      *****      *    *|";
    lit "|                                              |****    *      *  *      *         *     *|";
    lit "|                                              |*  *    *      *  *      *        *       |";
    lit "|                                              |*   *   *      *  *      *       *       *|";
    lit "|                                              |*    *    *****   ****** ******* ******  *|";
    lit "+----------------------------------------------+------------------------------------------+"].

Definition main_expected_8 : list str :=
  [lit "+-------------------------------------------------------------------------------------------+------------------------------------------+";
    lit "|+----------------------------------------------+------------------------------------------+|                                          |";
    lit "||+------------+-------------+                  |          ###                             ||                                          |";
    lit "|||OOP         |Encapsulation|                  |          #  #                            ||                                          |";
    lit "||+------------+-------------+                  |          #  # # ##   ###    ###          ||                                          |";
    lit "|||Polymorphism|Inheritance  |                  |          ###  ##    #   #  #  #          ||                                          |";
    lit "||+------------+-------------+                  |          #    #     #   #  #  #          ||                                          |";
    lit "||                                              |          #    #     #   #  #  #          ||                                          |";
    lit "||                                              |          #    #      ###    ###          ||                                          |";
    lit "||                                              |                               #          ||                                          |";
    lit "||                                              |                             ##           ||                                          |";
    lit "||                                              |                                          ||                                          |";
    lit "||                                              |           #    ###   ###   #             ||                                          |";
    lit "||                                              |          ###  #   # #     ###            ||                                          |";
    lit "||                                              |           #   #####  ###   #             ||                                          |";
    lit "||                                              |           #   #         #  #             ||          ###                             |";
    lit "||                                              |            ##  ###   ###    ##           ||          #  #                            |";
    lit "|+----------------------------------------------+------------------------------------------+|          #  # # ##   ###    ###          |";
    lit "||Lorem ipsum dolor sit amet,                   |                                          ||          ###  ##    #   #  #  #          |";
    lit "||consectetur adipiscing                        |                                          ||          #    #     #   #  #  #          |";
    lit "||elit. Curabitur scelerisque                   |        ********                          ||          #    #     #   #  #  #          |";
    lit "||lorem vitae lectus cursus,                    |       **********                         ||          #    #      ###    ###          |";
    lit "||vitae porta ante placerat. Class aptent taciti|      **        **                        ||                               #          |";
    lit "||sociosqu ad litora                            |      **             **        **         ||                             ##           |";
    lit "||torquent per                                  |      **             **        **         ||                                          |";
    lit "||conubia nostra,                               |      ***         ********  ********      ||           #    ###   ###   #             |";
    lit "||per inceptos himenaeos.                       |      ****        ********  ********      ||          ###  #   # #     ###            |";
    lit "||                                              |      ****           **        **         ||           #   #####  ###   #             |";
    lit "||Donec tincidunt augue                         |      ****           **        **         ||           #   #         #  #             |";
    lit "||sit amet metus                                |      ****      **                        ||            ##  ###   ###    ##           |";
    lit "||pretium volutpat.                             |       **********                         ||                                          |";
    lit "||Donec faucibus,                               |        ********                          ||                                          |";
    lit "||ante sit amet                                 |                                          ||                                          |";
    lit "||luctus posuere,                               |                                          ||                                          |";
    lit "||mauris tellus                                 |                                          ||                                          |";
    lit "|+----------------------------------------------+------------------------------------------+|                                          |";
    lit "||                                          Bye,|*****   *      *  *      ******* ******  *||                                          |";
    lit "||                                   Hello Kitty|*    *  *      *  *      *            *  *||                                          |";
    lit "||                                              |*    *  *      *  *      *           *   *||                                          |";
    lit "||                                              |*    *  *      *  *      *****      *    *||                                          |";
    lit "||                                              |****    *      *  *      *         *     *||                                          |";
    lit "||                                              |*  *    *      *  *      *        *       ||                                          |";
    lit "||                                              |*   *   *      *  *      *       *       *||                                          |";
    lit "||                                              |*    *    *****   ****** ******* ******  *||                                          |";
    lit "|+----------------------------------------------+------------------------------------------+|                                          |";
    lit "+-------------------------------------------------------------------------------------------+------------------------------------------+";
    lit "|Lorem ipsum dolor sit amet,                                                                |                                          |";
    lit "|consectetur adipiscing                                                                     |                                          |";
    lit "|elit. Curabitur scelerisque                                                                |        ********                          |";
    lit "|lorem vitae lectus cursus,                                                                 |       **********                         |";
    lit "|vitae porta ante placerat. Class aptent taciti                                             |      **        **                        |";
    lit "|sociosqu ad litora                                                                         |      **             **        **         |";
    lit "|torquent per                                                                               |      **             **        **         |";
    lit "|conubia nostra,                                                                            |      ***         ********  ********      |";
    lit "|per inceptos himenaeos.                                                                    |      ****        ********  ********      |";
    lit "|                                                                                           |      ****           **        **         |";
    lit "|Donec tincidunt augue                                                                      |      ****           **        **         |";
    lit "|sit amet metus                                                                             |      ****      **                        |";
    lit "|pretium volutpat.                                                                          |       **********                         |";
    lit "|Donec faucibus,                                                                            |        ********                          |";
    lit "|ante sit amet                                                                              |                                          |";
    lit "|luctus posuere,                                                                            |                                          |";
    lit "|mauris tellus                                                                              |                                          |";
    lit "+-------------------------------------------------------------------------------------------+------------------------------------------+";
    lit "|                                                                                       Bye,|*****   *      *  *      ******* ******  *|";
    lit "|                                                                                Hello Kitty|*    *  *      *  *      *            *  *|";
    lit "|                                                                                           |*    *  *      *  *      *           *   *|";
    lit "|                                                                                           |*    *  *      *  *      *****      *    *|";
    lit "|                                                                                           |****    *      *  *      *         *     *|";
    lit "|                                                                                           |*  *    *      *  *      *        *       |";
    lit "|                                                                                           |*   *   *      *  *      *       *       *|";
    lit "|                                                                                           |*    *    *****   ****** ******* ******  *|";
    lit "+-------------------------------------------------------------------------------------------+------------------------------------------+"].

Definition main_expected_9 : list str :=
  [lit "+----------------------------------------------------------------------------------------------------------------------------------------+------------------------------------------+";
    lit "|+-------------------------------------------------------------------------------------------+------------------------------------------+|                                          |";
    lit "||+----------------------------------------------+------------------------------------------+|                                          ||                                          |";
    lit "|||+------------+-------------+                  |          ###                             ||                                          ||                                          |";
    lit "||||OOP         |Encapsulation|                  |          #  #                            ||                                          ||                                          |";
    lit "|||+------------+-------------+                  |          #  # # ##   ###    ###          ||                                          ||                                          |";
    lit "||||Polymorphism|Inheritance  |                  |          ###  ##    #   #  #  #          ||                                          ||                                          |";
    lit "|||+------------+-------------+                  |          #    #     #   #  #  #          ||                                          ||                                          |";
    lit "|||                                              |          #    #     #   #  #  #          ||                                          ||                                          |";
    lit "|||                                              |          #    #      ###    ###          ||                                          ||                                          |";
    lit "|||                                              |                               #          ||                                          ||                                          |";
    lit "|||                                              |                             ##           ||                                          ||                                          |";
    lit "|||                                              |                                          ||                                          ||                                          |";
    lit "|||                                              |           #    ###   ###   #             ||                                          ||                                          |";
    lit "|||                                              |          ###  #   # #     ###            ||                                          ||                                          |";
    lit "|||                                              |           #   #####  ###   #             ||                                          ||                                          |";
    lit "|||                                              |           #   #         #  #             ||          ###                             ||                                          |";
    lit "|||                                              |            ##  ###   ###    ##           ||          #  #                            ||                                          |";
    lit "||+----------------------------------------------+------------------------------------------+|          #  # # ##   ###    ###          ||                                          |";
    lit "|||Lorem ipsum dolor sit amet,                   |                                          ||          ###  ##    #   #  #  #          ||                                          |";
    lit "|||consectetur adipiscing                        |                                          ||          #    #     #   #  #  #          ||                                          |";
    lit "|||elit. Curabitur scelerisque                   |        ********                          ||          #    #     #   #  #  #          ||                                          |";
    lit "|||lorem vitae lectus cursus,                    |       **********                         ||          #    #      ###    ###          ||                                          |";
    lit "|||vitae porta ante placerat. Class aptent taciti|      **        **                        ||                               #          ||                                          |";
    lit "|||sociosqu ad litora                            |      **             **        **         ||                             ##           ||                                          |";
    lit "|||torquent per                                  |      **             **        **         ||                                          ||                                          |";
    lit "|||conubia nostra,                               |      ***         ********  ********      ||           #    ###   ###   #             ||                                          |";
    lit "|||per inceptos himenaeos.                       |      ****        ********  ********      ||          ###  #   # #     ###            ||                                          |";
    lit "|||                                              |      ****           **        **         ||           #   #####  ###   #             ||                                          |";
    lit "|||Donec tincidunt augue                         |      ****           **        **         ||           #   #         #  #             ||                                          |";
    lit "|||sit amet metus                                |      ****      **                        ||            ##  ###   ###    ##           ||          ###                             |";
    lit "|||pretium volutpat.                             |       **********                         ||                                          ||          #  #                            |";
    lit "|||Donec faucibus,                               |        ********                          ||                                          ||          #  # # ##   ###    ###          |";
    lit "|||ante sit amet                                 |                                          ||                                          ||          ###  ##    #   #  #  #          |";
    lit "|||luctus posuere,                               |                                          ||                                          ||          #    #     #   #  #  #          |";
    lit "|||mauris tellus                                 |                                          ||                                          ||          #    #     #   #  #  #          |";
    lit "||+----------------------------------------------+------------------------------------------+|                                          ||          #    #      ###    ###          |";
    lit "|||                                          Bye,|*****   *      *  *      ******* ******  *||                                          ||                               #          |";
    lit "|||                                   Hello Kitty|*    *  *      *  *      *            *  *||                                          ||                             ##           |";
    lit "|||                                              |*    *  *      *  *      *           *   *||                                          ||                                          |";
    lit "|||                                              |*    *  *      *  *      *****      *    *||                                          ||           #    ###   ###   #             |";
    lit "|||                                              |****    *      *  *      *         *     *||                                          ||          ###  #   # #     ###            |";
    lit "|||                                              |*  *    *      *  *      *        *       ||                                          ||           #   #####  ###   #             |";
    lit "|||                                              |*   *   *      *  *      *       *       *||                                          ||           #   #         #  #             |";
    lit "|||                                              |*    *    *****   ****** ******* ******  *||                                          ||            ##  ###   ###    ##           |";
    lit "||+----------------------------------------------+------------------------------------------+|                                          ||                                          |";
    lit "|+-------------------------------------------------------------------------------------------+------------------------------------------+|                                          |";
    lit "||Lorem ipsum dolor sit amet,                                                                |                                          ||                                          |";
    lit "||consectetur adipiscing                                                                     |                                          ||                                          |";
    lit "||elit. Curabitur scelerisque                                                                |        ********                          ||                                          |";
    lit "||lorem vitae lectus cursus,                                                                 |       **********                         ||                                          |";
    lit "||vitae porta ante placerat. Class aptent taciti                                             |      **        **                        ||                                          |";
    lit "||sociosqu ad litora                                                                         |      **             **        **         ||                                          |";
    lit "||torquent per                                                                               |      **             **        **         ||                                          |";
    lit "||conubia nostra,                                                                            |      ***         ********  ********      ||                                          |";
    lit "||per inceptos himenaeos.                                                                    |      ****        ********  ********      ||                                          |";
    lit "||                                                                                           |      ****           **        **         ||                                          |";
    lit "||Donec tincidunt augue                                                                      |      ****           **        **         ||                                          |";
    lit "||sit amet metus                                                                             |      ****      **                        ||                                          |";
    lit "||pretium volutpat.                                                                          |       **********                         ||                                          |";
    lit "||Donec faucibus,                                                                            |        ********                          ||                                          |";
    lit "||ante sit amet                                                                              |                                          ||                                          |";
    lit "||luctus posuere,                                                                            |                                          ||                                          |";
    lit "||mauris tellus                                                                              |                                          ||                                          |";
    lit "|+-------------------------------------------------------------------------------------------+------------------------------------------+|                                          |";
    lit "||                                                                                       Bye,|*****   *      *  *      ******* ******  *||                                          |";
    lit "||                                                                                Hello Kitty|*    *  *      *  *      *            *  *||                                          |";
    lit "||                                                                                           |*    *  *      *  *      *           *   *||                                          |";
    lit "||                                                                                           |*    *  *      *  *      *****      *    *||                                          |";
    lit "||                                                                                           |****    *      *  *      *         *     *||                                          |";
    lit "||                                                                                           |*  *    *      *  *      *        *       ||                                          |";
    lit "||                                                                                           |*   *   *      *  *      *       *       *||                                          |";
    lit "||                                                                                           |*    *    *****   ****** ******* ******  *||                                          |";
    lit "|+-------------------------------------------------------------------------------------------+------------------------------------------+|                                          |";
    lit "+----------------------------------------------------------------------------------------------------------------------------------------+------------------------------------------+";
    lit "|Lorem ipsum dolor sit amet,                                                                                                             |                                          |";
    lit "|consectetur adipiscing                                                                                                                  |                                          |";
    lit "|elit. Curabitur scelerisque                                                                                                             |        ********                          |";
    lit "|lorem vitae lectus cursus,                                                                                                              |       **********                         |";
    lit "|vitae porta ante placerat. Class aptent taciti                                                                                          |      **        **                        |";
    lit "|sociosqu ad litora                                                                                                                      |      **             **        **         |";
    lit "|torquent per                                                                                                                            |      **             **        **         |";
    lit "|conubia nostra,                                                                                                                         |      ***         ********  ********      |";
    lit "|per inceptos himenaeos.                                                                                                                 |      ****        ********  ********      |";
    lit "|                                                                                                                                        |      ****           **        **         |";
    lit "|Donec tincidunt augue                                                                                                                   |      ****           **        **         |";
    lit "|sit amet metus                                                                                                                          |      ****      **                        |";
    lit "|pretium volutpat.                                                                                                                       |       **********                         |";
    lit "|Donec faucibus,                                                                                                                         |        ********                          |";
    lit "|ante sit amet                                                                                                                           |                                          |";
    lit "|luctus posuere,                                                                                                                         |                                          |";
    lit "|mauris tellus                                                                                                                           |                                          |";
    lit "+----------------------------------------------------------------------------------------------------------------------------------------+------------------------------------------+";
    lit "|                                                                                                                                    Bye,|*****   *      *  *      ******* ******  *|";
    lit "|                                                                                                                             Hello Kitty|*    *  *      *  *      *            *  *|";
    lit "|                                                                                                                                        |*    *  *      *  *      *           *   *|";
    lit "|                                                                                                                                        |*    *  *      *  *      *****      *    *|";
    lit "|                                                                                                                                        |****    *      *  *      *         *     *|";
    lit "|                                                                                                                                        |*  *    *      *  *      *        *       |";
    lit "|                                                                                                                                        |*   *   *      *  *      *       *       *|";
    lit "|                                                                                                                                        |*    *    *****   ****** ******* ******  *|";
    lit "+----------------------------------------------------------------------------------------------------------------------------------------+------------------------------------------+"].

(** The right-hand sides of the assertions of [main], in order. *)
Definition main_expected : list str :=
  (fun lines => concat ((fun line => line ++ [nl]) <$> lines))
  <$> [main_expected_1; main_expected_2; main_expected_2; main_expected_3;
       main_expected_2; main_expected_4; main_expected_5; main_expected_6;
       main_expected_7; main_expected_8; main_expected_9].

(** ** The stores of programs *)

(** No pointer dangles. *)
Definition closed (h : store) : Prop :=
  forall x o p, h !! x = Some o -> points_to o p -> p < length h.

(** The cell at [p] has a well-formed value. *)
Definition readable (h : store) (p : loc) : Prop :=
  exists v, reads h p v /\ wf_cell v.

(** The table at [t] has a well-formed value. *)
Definition table_ok (h : store) (t : loc) : Prop :=
  exists T, reads_table h t T /\ wf_table T.

(** [h] is the store of a program whose table variables are at [ts]: every
    one of them owns its cells and has a well-formed value. *)
Definition program_store (ts : list loc) (h : store) : Prop :=
  closed h /\ forall t, t ∈ ts -> owned h t /\ table_ok h t.

(** A new object [o] that respects the tables at [ts]: it points to objects
    of [h] that are neither one of these tables nor one of their cells. *)
Definition respects (ts : list loc) (h : store) (o : object) : Prop :=
  forall p, points_to o p ->
    p < length h
    /\ forall t, t ∈ ts -> p <> t /\ forall o', h !! t = Some o' -> ~ points_to o' p.

(** A cell object without pointers. *)
Definition plain (o : object) : Prop :=
  match o with
  | OEmpty | OText _ _ | OImage _ => True
  | _ => False
  end.

(** The arguments of a change are objects with a well-formed value. *)
Definition arguments_ok (h : store) (m : mutation) : Prop :=
  match m with
  | SetCell _ _ cell => readable h cell
  | SetCellTable _ _ table => table_ok h table
  | Assign other => table_ok h other
  | SetText _ _ _ | AddRow _ _ _ => True
  end.

(** ** Further member functions and notions *)

(** [this != other] on tables: the negation of [this == other] *)
Definition not_equals (this other : CTable) : outcome bool :=
  b ← equals this other; Ok (negb b).

(** [line] cut to [width] characters, or padded to them with spaces on the
    right. *)
Definition fit (width : nat) (line : str) : str :=
  take width line ++ replicate (width - length line) sp.

(** The space [CImage::Output] leaves before an image of size [size] in a box
    of size [box]: half of what is left over, rounded down, and nothing when
    the image does not fit. *)
Definition margin (box size : nat) : nat :=
  if decide (size < box) then (box - size) / 2 else 0.

(** Line [j] of what [CImage::Output(height, width)] returns: a blank line
    above and below the image, and in between the row of the image after the
    left margin, cut or padded to the rest of the width. *)
Definition image_line (imageData : list str) (height width j : nat) : str :=
  let top := margin height (length imageData) in
  let left := margin width (Image.Width imageData) in
  if decide (top <= j < top + length imageData)
  then replicate left sp ++ fit (width - left) (imageData !!! (j - top))
  else replicate width sp.

(** [closed] as a property of lists, which is decidable. *)
Definition closed_list (h : store) : Prop :=
  Forall (fun o => Forall (fun p => p < length h) (pointers o)) h.

(** No two positions of the grid of the table at [t] hold the same cell. *)
Definition distinct_cells (h : store) (t : loc) : Prop :=
  forall R C cells, h !! t = Some (OTable R C cells) -> NoDup (mjoin cells).

(** The stores of programs, with the cells of every table apart. *)
Definition program_state (ts : list loc) (h : store) : Prop :=
  program_store ts h /\ forall t, t ∈ ts -> distinct_cells h t.


(** * Proofs *)

(** ** Outcomes and loops *)

Lemma bind_Ok {A B : Type} (a : A) (f : A -> outcome B) : (Ok a ≫= f) = f a.
Proof. reflexivity. Qed.

Lemma bind_Ok_inv {A B : Type} (m : outcome A) (f : A -> outcome B) (b : B) :
  m ≫= f = Ok b -> exists a, m = Ok a /\ f a = Ok b.
Proof. destruct m as [a| |]; simpl; try discriminate. intros H. by exists a. Qed.

Lemma for_each_app {S : Type} (body : nat -> S -> outcome S) (ix ix' : list nat) (s : S) :
  for_each body (ix ++ ix') s = for_each body ix s ≫= for_each body ix'.
Proof.
  revert s. induction ix as [|i ix IH]; intros s; simpl; [done|].
  destruct (body i s) as [s'| |]; simpl; auto.
Qed.

Lemma for_range_S {S : Type} (n : nat) (body : nat -> S -> outcome S) (s : S) :
  for_range (Datatypes.S n) body s = for_range n body s ≫= body n.
Proof.
  unfold for_range. rewrite seq_S, for_each_app. simpl.
  destruct (for_each body (seq 0 n) s) as [s'| |]; simpl; [|done..].
  by destruct (body n s').
Qed.

Ltac ok := rewrite ?bind_Ok; cbn beta.
Ltac run H := rewrite H; ok.

(** The loop rule: an invariant that holds at entry and that every iteration
    maintains without failing holds at exit. *)
Lemma for_range_invariant {S : Type} (Inv : nat -> S -> Prop) (n : nat)
    (body : nat -> S -> outcome S) (s0 : S) :
  Inv 0 s0 ->
  (forall i s, i < n -> Inv i s -> exists s', body i s = Ok s' /\ Inv (Datatypes.S i) s') ->
  exists s, for_range n body s0 = Ok s /\ Inv n s.
Proof.
  intros H0 Hstep. induction n as [|n IH].
  - by exists s0.
  - destruct IH as (s & Hs & HI); [intros; apply Hstep; [lia|done]|].
    destruct (Hstep n s) as (s' & Hs' & HI'); [lia|done|].
    exists s'. by rewrite for_range_S, Hs.
Qed.

Lemma at_Ok {A : Type} (v : list A) (i : nat) (x : A) : v !! i = Some x -> at_ v i = Ok x.
Proof. unfold at_. by intros ->. Qed.

Lemma at_Undefined {A : Type} (v : list A) (i : nat) : length v <= i -> at_ v i = Undefined.
Proof. intros H. unfold at_. by rewrite lookup_ge_None_2. Qed.

Lemma set_at_Ok {A : Type} (v : list A) (i : nat) (x : A) :
  i < length v -> set_at v i x = Ok (<[i := x]> v).
Proof. intros H. unfold set_at. by rewrite decide_True. Qed.

Lemma set_at_Undefined {A : Type} (v : list A) (i : nat) (x : A) :
  length v <= i -> set_at v i x = Undefined.
Proof. intros H. unfold set_at. rewrite decide_False; [done|lia]. Qed.

Lemma max_list_app (l k : list nat) :
  max_list (l ++ k) = Nat.max (max_list l) (max_list k).
Proof. induction l as [|x l IH]; simpl; [done|]. rewrite IH. lia. Qed.

Lemma max_list_seq_S (f : nat -> nat) (n : nat) :
  max_list (f <$> seq 0 (S n)) = Nat.max (max_list (f <$> seq 0 n)) (f n).
Proof.
  rewrite seq_S, fmap_app, max_list_app. simpl. lia.
Qed.

Lemma concat_seq_S {A : Type} (f : nat -> list A) (n : nat) :
  concat (f <$> seq 0 (S n)) = concat (f <$> seq 0 n) ++ f n.
Proof.
  rewrite seq_S, fmap_app, concat_app. simpl. by rewrite ?app_nil_r.
Qed.

(** Lists given by their entries. *)
Lemma lookup_tabulate {A : Type} (f : nat -> A) (n k : nat) :
  k < n -> (f <$> seq 0 n) !! k = Some (f k).
Proof. intros H. rewrite list_lookup_fmap, lookup_seq_lt; done. Qed.

Lemma tabulate_ext {A : Type} (f g : nat -> A) (n : nat) :
  (forall k, k < n -> f k = g k) -> f <$> seq 0 n = g <$> seq 0 n.
Proof.
  intros H. apply list_fmap_ext. intros i k Hk.
  apply lookup_seq in Hk as [-> ?]. apply H. lia.
Qed.

Lemma insert_tabulate {A : Type} (f : nat -> A) (n j : nat) (x : A) :
  <[j := x]> (f <$> seq 0 n) = (fun k => if decide (k = j) then x else f k) <$> seq 0 n.
Proof.
  apply list_eq. intros k.
  destruct (decide (k < n)) as [Hk|Hk].
  - rewrite (lookup_tabulate _ n k Hk).
    destruct (decide (k = j)) as [->|Hne].
    + rewrite list_lookup_insert_eq; [done|]. by rewrite length_fmap, length_seq.
    + rewrite list_lookup_insert_ne by done. by rewrite lookup_tabulate.
  - rewrite !lookup_ge_None_2; [done| |];
      rewrite ?length_insert, length_fmap, length_seq; lia.
Qed.

Lemma replicate_tabulate {A : Type} (x : A) (n : nat) :
  replicate n x = (fun _ => x) <$> seq 0 n.
Proof.
  apply list_eq. intros k. destruct (decide (k < n)) as [Hk|Hk].
  - rewrite lookup_tabulate by done. by apply lookup_replicate_2.
  - rewrite !lookup_ge_None_2; [done| |];
      rewrite ?length_replicate, ?length_fmap, ?length_seq; lia.
Qed.

Lemma length_tabulate {A : Type} (f : nat -> A) (n : nat) : length (f <$> seq 0 n) = n.
Proof. by rewrite length_fmap, length_seq. Qed.

Lemma at_tabulate {A : Type} (f : nat -> A) (n k : nat) :
  k < n -> at_ (f <$> seq 0 n) k = Ok (f k).
Proof. intros H. apply at_Ok. by apply lookup_tabulate. Qed.

(** ** The stream operator computes the layout *)

Section RenderCorrect.
Context (table : CTable_ CBase_vtbl).
Context (wm hm : nat -> nat -> nat) (om : nat -> nat -> list str).

Abbreviation R := (Rows table).
Abbreviation C := (Cols table).
Abbreviation cW := (col_max wm R).
Abbreviation rH := (row_max hm C).

Hypothesis Hcells : forall r c, r < R -> c < C ->
  exists cell, at2 (Cells table) r c = Ok cell
    /\ vWidth cell = Ok (wm r c) /\ vHeight cell = Ok (hm r c)
    /\ vOutput cell (rH r) (cW c) = Ok (om r c)
    /\ length (om r c) = rH r.

Local Ltac piecewise :=
  repeat case_decide; subst; unfold col_max, row_max;
  rewrite ?max_list_seq_S; solve [done | lia].

Lemma measure_correct : measure table = Ok (cW <$> seq 0 C, rH <$> seq 0 R).
Proof.
  unfold measure.
  destruct (for_range_invariant
    (fun i '(W, H) =>
       W = col_max wm i <$> seq 0 C
       /\ H = (fun r => if decide (r < i) then rH r else 0) <$> seq 0 R)
    R
    (fun rows => for_range C (fun cols '(maxColWidths, maxRowHeights) =>
      cell ← at2 (Cells table) rows cols;
      w ← vWidth cell;
      w0 ← at_ maxColWidths cols;
      maxColWidths ← set_at maxColWidths cols (Nat.max w0 w);
      h ← vHeight cell;
      h0 ← at_ maxRowHeights rows;
      maxRowHeights ← set_at maxRowHeights rows (Nat.max h0 h);
      Ok (maxColWidths, maxRowHeights)))
    (replicate C 0, replicate R 0)) as ([W H] & Hrun & HW & HH).
  - split; rewrite replicate_tabulate; apply tabulate_ext; intros k Hk; [done|].
    by rewrite decide_False by lia.
  - intros i [W H] Hi [-> ->].
    destruct (for_range_invariant
      (fun j '(W, H) =>
         W = (fun c => if decide (c < j) then col_max wm (S i) c else col_max wm i c)
               <$> seq 0 C
         /\ H = (fun r => if decide (r < i) then rH r
                          else if decide (r = i) then row_max hm j r else 0)
                  <$> seq 0 R)
      C
      (fun cols '(maxColWidths, maxRowHeights) =>
        cell ← at2 (Cells table) i cols;
        w ← vWidth cell;
        w0 ← at_ maxColWidths cols;
        maxColWidths ← set_at maxColWidths cols (Nat.max w0 w);
        h ← vHeight cell;
        h0 ← at_ maxRowHeights i;
        maxRowHeights ← set_at maxRowHeights i (Nat.max h0 h);
        Ok (maxColWidths, maxRowHeights))
      (col_max wm i <$> seq 0 C,
       (fun r => if decide (r < i) then rH r else 0) <$> seq 0 R))
      as ([W' H'] & Hrun & HW' & HH').
    + split; apply tabulate_ext; intros k Hk.
      * by rewrite decide_False by lia.
      * repeat case_decide; try done; try lia.
    + intros j [W H] Hj [-> ->].
      destruct (Hcells i j Hi Hj) as (cell & Hat & Hw & Hh & _).
      run Hat. run Hw. rewrite (at_tabulate _ C j) by done. ok.
      rewrite set_at_Ok by (by rewrite length_tabulate). ok.
      run Hh. rewrite (at_tabulate _ R i) by done. ok.
      rewrite set_at_Ok by (by rewrite length_tabulate). ok.
      eexists; split; [done|]. rewrite !insert_tabulate.
      split; apply tabulate_ext; intros k Hk.
      * piecewise.
      * piecewise.
    + exists (W', H'). split; [exact Hrun|]. subst.
      split; apply tabulate_ext; intros k Hk; piecewise.
  - rewrite Hrun, HW, HH. do 2 f_equal.
    apply tabulate_ext; intros k Hk. by rewrite decide_True by lia.
Qed.

Lemma printBorder_correct (os : str) :
  printBorder table (cW <$> seq 0 C) os = Ok (os ++ border_line C cW).
Proof.
  unfold printBorder.
  destruct (for_range_invariant
    (fun j s => s = os ++ lit "+" ++
       concat ((fun c => replicate (cW c) "-"%char ++ lit "+") <$> seq 0 j))
    C
    (fun col os => w ← at_ (cW <$> seq 0 C) col;
                   Ok (os ++ replicate w "-"%char ++ lit "+"))
    (os ++ lit "+")) as (s & Hrun & ->).
  - simpl. by rewrite ?app_nil_r.
  - intros j s Hj ->. rewrite (at_tabulate _ C j) by done. ok.
    eexists; split; [done|]. rewrite concat_seq_S. by rewrite <- !app_assoc.
  - rewrite Hrun. ok. unfold border_line. by rewrite <- !app_assoc.
Qed.

Lemma printRow_correct (r : nat) (os : str) :
  r < R ->
  printRow table (cW <$> seq 0 C) (rH <$> seq 0 R) r os
  = Ok (os ++ row_block C cW rH om r).
Proof.
  intros Hr. unfold printRow.
  destruct (for_range_invariant
    (fun j OutputRow => OutputRow = om r <$> seq 0 j)
    C
    (fun col OutputRow =>
       cell ← at2 (Cells table) r col;
       h ← at_ (rH <$> seq 0 R) r;
       w ← at_ (cW <$> seq 0 C) col;
       out ← vOutput cell h w;
       Ok (OutputRow ++ [out]))
    []) as (OutputRow & Hrun & ->).
  - done.
  - intros j OutputRow Hj ->.
    destruct (Hcells r j Hr Hj) as (cell & Hat & _ & _ & Hout & _).
    run Hat. rewrite (at_tabulate _ R r) by done. ok.
    rewrite (at_tabulate _ C j) by done. ok. run Hout.
    eexists; split; [done|]. by rewrite seq_S, fmap_app.
  - rewrite Hrun. ok. rewrite (at_tabulate _ R r) by done. ok.
    destruct (for_range_invariant
      (fun i s => s = os ++ concat (content_line C om r <$> seq 0 i))
      (rH r)
      (fun vertical os =>
         os ← for_range C (fun col os =>
                 out ← at_ (om r <$> seq 0 C) col;
                 line ← at_ out vertical;
                 Ok (os ++ line ++ lit "|"))
               (os ++ lit "|");
         Ok (os ++ [nl]))
      os) as (s & Hlines & ->).
    + simpl. by rewrite ?app_nil_r.
    + intros i s Hi ->.
      destruct (for_range_invariant
        (fun j s' => s' = (os ++ concat (content_line C om r <$> seq 0 i)) ++ lit "|" ++
           concat ((fun c => (om r c !!! i) ++ lit "|") <$> seq 0 j))
        C
        (fun col os =>
           out ← at_ (om r <$> seq 0 C) col;
           line ← at_ out i;
           Ok (os ++ line ++ lit "|"))
        ((os ++ concat (content_line C om r <$> seq 0 i)) ++ lit "|"))
        as (s' & Hline & ->).
      * simpl. by rewrite ?app_nil_r.
      * intros j s' Hj ->. rewrite (at_tabulate _ C j) by done. ok.
        destruct (Hcells r j Hr Hj) as (_ & _ & _ & _ & _ & Hlen).
        rewrite (at_Ok (om r j) i (om r j !!! i)); [ok|].
        2:{ apply list_lookup_lookup_total_lt. lia. }
        eexists; split; [done|]. rewrite concat_seq_S. by rewrite <- !app_assoc.
      * rewrite Hline. ok. eexists; split; [done|].
        rewrite concat_seq_S. unfold content_line at 3. by rewrite <- !app_assoc.
    + rewrite Hlines. ok. rewrite printBorder_correct.
      unfold row_block. by rewrite <- !app_assoc.
Qed.

Theorem render_correct : render table = Ok (layout R C cW rH om).
Proof.
  unfold render. rewrite measure_correct. ok.
  rewrite printBorder_correct. ok.
  destruct (for_range_invariant
    (fun i s => s = border_line C cW ++ concat (row_block C cW rH om <$> seq 0 i))
    R
    (printRow table (cW <$> seq 0 C) (rH <$> seq 0 R))
    ([] ++ border_line C cW)) as (s & Hrun & ->).
  - simpl. by rewrite ?app_nil_r.
  - intros i s Hi ->. rewrite printRow_correct by done.
    eexists; split; [done|]. rewrite concat_seq_S. by rewrite <- !app_assoc.
  - by rewrite Hrun.
Qed.
End RenderCorrect.

(** ** Output of the four kinds of cells *)

Lemma Empty_Output_block (height width : nat) :
  exists out, Empty.Output height width = Ok out /\ block height width out.
Proof.
  eexists; split; [done|]. split.
  - by rewrite length_replicate.
  - apply Forall_replicate. by rewrite length_replicate.
Qed.

Lemma fold_max_length (lines : list str) (a : nat) :
  fold_left (fun maxWidth line => Nat.max maxWidth (length line)) lines a
  = Nat.max a (max_list (length <$> lines)).
Proof.
  revert a. induction lines as [|l lines IH]; intros a; simpl; [lia|].
  rewrite IH. symmetry. apply Nat.max_assoc.
Qed.

Lemma Text_Width_max (allLines : list str) :
  Text.Width allLines = max_list (length <$> allLines).
Proof. unfold Text.Width. by rewrite fold_max_length. Qed.

Lemma line_or_empty (allLines : list str) (i : nat) :
  (if decide (i < length allLines) then allLines !!! i else [])
  = default [] (allLines !! i).
Proof.
  case_decide as Hlt.
  - by rewrite (list_lookup_lookup_total_lt allLines i Hlt).
  - by rewrite lookup_ge_None_2 by lia.
Qed.

Lemma Text_Output_step (allLines : list str) (formatType : FormatingType)
    (width i : nat) (out : list str) :
  Text.Output_step allLines formatType width i out
  = if decide (length (default [] (allLines !! i)) <= width)
    then Ok (out ++ [text_line allLines formatType width i])
    else Throw length_error.
Proof.
  unfold Text.Output_step. cbn zeta. rewrite line_or_empty. unfold fill_diff.
  destruct (decide (length (default [] (allLines !! i)) <= width)); [|reflexivity].
  ok. unfold text_line. by destruct formatType.
Qed.

Lemma Text_Output_lines (allLines : list str) (formatType : FormatingType)
    (height width : nat) :
  (forall i line, i < height -> allLines !! i = Some line -> length line <= width) ->
  Text.Output allLines formatType height width
  = Ok (text_line allLines formatType width <$> seq 0 height).
Proof.
  intros Hfit. unfold Text.Output.
  destruct (for_range_invariant
    (fun i out => out = text_line allLines formatType width <$> seq 0 i)
    height (Text.Output_step allLines formatType width) [])
    as (out & Hrun & ->); [done| |done].
  intros i out Hi ->. rewrite Text_Output_step, decide_True.
  - eexists; split; [done|]. by rewrite seq_S, fmap_app.
  - destruct (allLines !! i) as [line|] eqn:E; simpl; [eauto|lia].
Qed.

Lemma Text_Output_loop (allLines : list str) (formatType : FormatingType)
    (width : nat) (ix : list nat) (acc out : list str) :
  for_each (Text.Output_step allLines formatType width) ix acc = Ok out ->
  out = acc ++ (text_line allLines formatType width <$> ix).
Proof.
  revert acc. induction ix as [|i ix IH]; intros acc; cbn [for_each].
  - intros [= <-]. by rewrite app_nil_r.
  - rewrite Text_Output_step. case_decide; [|done].
    ok. intros ->%IH. by rewrite <- app_assoc.
Qed.

(** Whenever the output of a text is defined, it is made of [text_line]s. *)
Lemma Text_Output_inv (allLines : list str) (formatType : FormatingType)
    (height width : nat) (out : list str) :
  Text.Output allLines formatType height width = Ok out ->
  out = text_line allLines formatType width <$> seq 0 height.
Proof. intros H. by apply Text_Output_loop in H. Qed.

Lemma text_line_length (allLines : list str) (formatType : FormatingType)
    (width i : nat) :
  length (default [] (allLines !! i)) <= width ->
  length (text_line allLines formatType width i) = width.
Proof.
  intros H. unfold text_line.
  destruct formatType; rewrite length_app, length_replicate; lia.
Qed.

Lemma Text_Output_block (allLines : list str) (formatType : FormatingType)
    (height width : nat) :
  Text.Width allLines <= width ->
  exists out, Text.Output allLines formatType height width = Ok out
              /\ block height width out.
Proof.
  intros Hw. rewrite Text_Width_max in Hw.
  assert (forall i line, allLines !! i = Some line -> length line <= width) as Hfit.
  { intros i line Hi. etrans; [|exact Hw]. apply max_list_elem_of_le.
    apply list_elem_of_fmap. exists line. split; [done|].
    by eapply list_elem_of_lookup_2. }
  rewrite Text_Output_lines by eauto. eexists; split; [done|]. split.
  - by rewrite length_tabulate.
  - apply Forall_fmap, Forall_forall. intros i _. simpl.
    apply text_line_length.
    destruct (allLines !! i) as [line|] eqn:E; simpl; [eauto|lia].
Qed.

Lemma single_line_app (s s' : str) :
  single_line s -> single_line s' -> single_line (s ++ s').
Proof. unfold single_line. rewrite elem_of_app. tauto. Qed.

Lemma single_line_take (n : nat) (s : str) : single_line s -> single_line (take n s).
Proof. unfold single_line. intros H Hin. by apply H, (subseteq_take n). Qed.

Lemma single_line_drop (n : nat) (s : str) : single_line s -> single_line (drop n s).
Proof. unfold single_line. intros H Hin. by apply H, (subseteq_drop n). Qed.

Lemma single_line_replicate (n : nat) (c : ascii) :
  c <> nl -> single_line (replicate n c).
Proof.
  unfold single_line. intros H Hin. apply elem_of_replicate_inv in Hin. congruence.
Qed.

Lemma blank_block (height width : nat) :
  block height width (replicate height (replicate width sp))
  /\ Forall single_line (replicate height (replicate width sp)).
Proof.
  repeat split.
  - by rewrite length_replicate.
  - apply Forall_replicate. by rewrite length_replicate.
  - apply Forall_replicate. by apply single_line_replicate.
Qed.

Lemma Image_Output_block (imageData : list str) (height width : nat) :
  exists out, Image.Output imageData height width = Ok out
    /\ block height width out
    /\ (Forall single_line imageData -> Forall single_line out).
Proof.
  destruct (blank_block height width) as [Hblank Hblank'].
  unfold Image.Output. case_decide as Hdeg; [by eexists|].
  set (offsetY := if decide (length imageData < height)
                  then (height - length imageData) / 2 else 0).
  set (offsetX := if decide (Image.Width imageData < width)
                  then (width - Image.Width imageData) / 2 else 0).
  assert (offsetX <= width) as HX.
  { unfold offsetX. case_decide; [|lia].
    etrans; [apply Nat.Div0.div_le_upper_bound
               with (q := width - Image.Width imageData)|]; lia. }
  apply (for_range_invariant
           (fun _ out => block height width out
                         /\ (Forall single_line imageData -> Forall single_line out)));
    [done|].
  intros i out Hi [[Hlen Hall] Hsingle]. case_decide as Hin; [|by eexists].
  destruct (lookup_lt_is_Some_2 imageData i Hi) as [imgLine HimgLine].
  destruct (lookup_lt_is_Some_2 out (i + offsetY)) as [canvas Hcanvas]; [lia|].
  run (at_Ok _ _ _ HimgLine). run (at_Ok _ _ _ Hcanvas).
  assert (length canvas = width) as Hc.
  { eapply (proj1 (Forall_lookup _ _) Hall); eauto. }
  assert (exists canvas',
    (if decide (width < offsetX + length imgLine)
     then piece ← substr imgLine 0 (width - offsetX);
          replace canvas offsetX (width - offsetX) piece
     else replace canvas offsetX (length imgLine) imgLine) = Ok canvas'
    /\ length canvas' = width
    /\ (single_line canvas -> single_line imgLine -> single_line canvas'))
    as (canvas' & -> & Hc' & Hs').
  { case_decide as Hover.
    - unfold substr. rewrite decide_True by lia. ok.
      unfold replace. rewrite decide_True by lia.
      eexists; split; [done|]. split.
      + rewrite !length_app, !length_take, !length_drop. lia.
      + intros. auto using single_line_app, single_line_take, single_line_drop.
    - unfold replace. rewrite decide_True by lia.
      eexists; split; [done|]. split.
      + rewrite !length_app, !length_take, !length_drop. lia.
      + intros. auto using single_line_app, single_line_take, single_line_drop. }
  ok. rewrite set_at_Ok by lia. eexists; split; [done|]. repeat split.
  - by rewrite length_insert.
  - by apply Forall_insert.
  - intros Himg. specialize (Hsingle Himg). apply Forall_insert; [done|].
    apply Hs'.
    + eapply (proj1 (Forall_lookup _ _) Hsingle); eauto.
    + eapply (proj1 (Forall_lookup _ _) Himg); eauto.
Qed.

Lemma TableCell_Output_block (text : str) (height width : nat) :
  exists out, TableCell.Output (Ok text) height width = Ok out
              /\ block height width out.
Proof.
  unfold TableCell.Output. ok. eexists; split; [done|]. split.
  - rewrite length_app, length_replicate, length_fmap, length_take. lia.
  - apply Forall_app. split.
    + apply Forall_fmap, Forall_forall. intros line _. simpl.
      case_decide; rewrite ?length_take, ?length_app, ?length_replicate; lia.
    + apply Forall_replicate. by rewrite length_replicate.
Qed.

(** ** Every well-formed cell has sizes and fills the box it is given *)

Lemma CBase_nested_ind (P : CBase -> Prop) :
  P CEmpty ->
  (forall allLines formatType, P (CText allLines formatType)) ->
  (forall imageData, P (CImage imageData)) ->
  (forall t, Forall (Forall P) (Cells t) -> P (CTableCell t)) ->
  forall cell, P cell.
Proof.
  intros HE HT HI HC. fix IH 1.
  intros [| | |[rows cols cells]]; [exact HE|apply HT|apply HI|].
  apply HC. simpl. induction cells as [|row cells IHcells]; constructor; [|exact IHcells].
  induction row as [|cell row IHrow]; constructor; [apply IH|exact IHrow].
Qed.

Lemma grid_shape_lookup {A : Type} `{Inhabited A} (rows cols : nat)
    (cells : list (list A)) (r c : nat) :
  grid_shape rows cols cells -> r < rows -> c < cols ->
  exists row, cells !! r = Some row /\ row !! c = Some ((cells !!! r) !!! c).
Proof.
  intros [Hlen Hrows] Hr Hc.
  destruct (lookup_lt_is_Some_2 cells r) as [row Hrow]; [lia|].
  exists row. split; [done|].
  rewrite (list_lookup_total_correct _ _ _ Hrow).
  apply list_lookup_lookup_total_lt.
  rewrite (proj1 (Forall_lookup _ _) Hrows r row Hrow). done.
Qed.

Lemma wf_cell_TableCell (t : CTable) :
  wf_cell (CTableCell t) <->
  grid_shape (Rows t) (Cols t) (Cells t) /\ Forall (Forall wf_cell) (Cells t).
Proof.
  simpl. rewrite andb_True, bool_decide_spec. unfold grid_shape.
  rewrite Is_true_true, forallb_forall, !Forall_forall.
  split.
  - intros [Hlen Hall]. repeat split; try done.
    + intros row Hrow%list_elem_of_In. apply Hall in Hrow.
      apply andb_prop in Hrow as [Hrow _]. by apply bool_decide_eq_true in Hrow.
    + intros row Hrow%list_elem_of_In. apply Hall in Hrow.
      apply andb_prop in Hrow as [_ Hrow]. apply Forall_forall.
      intros cell Hcell%list_elem_of_In.
      rewrite forallb_forall in Hrow. apply Is_true_true. auto.
  - intros [[Hlen Hrows] Hall]. split; [done|].
    intros row Hrow%list_elem_of_In. apply andb_true_intro. split.
    + apply bool_decide_eq_true. auto.
    + apply forallb_forall. intros cell Hcell%list_elem_of_In.
      apply Is_true_true. specialize (Hall row Hrow).
      rewrite Forall_forall in Hall. auto.
Qed.

Section TableOfSized.
Context (t : CTable).
Hypothesis Hshape : grid_shape (Rows t) (Cols t) (Cells t).
Hypothesis Hsized : Forall (Forall sized) (Cells t).

Lemma cell_at_sized (r c : nat) : r < Rows t -> c < Cols t -> sized (cell_at t r c).
Proof.
intros Hr Hc.
destruct (grid_shape_lookup _ _ _ r c Hshape Hr Hc) as (row & Hrow & Hcell).
eapply (proj1 (Forall_lookup _ _)); [|exact Hcell].
eapply (proj1 (Forall_lookup _ _)); [exact Hsized|exact Hrow].
Qed.

Lemma natural_width_le_colWidth (r c : nat) :
r < Rows t -> natural_width (cell_at t r c) <= colWidth t c.
Proof.
intros Hr. unfold colWidth, col_max. apply max_list_elem_of_le.
apply list_elem_of_fmap. exists r. split; [done|]. apply elem_of_seq. lia.
Qed.

Lemma resized_block (r c : nat) :
r < Rows t -> c < Cols t ->
Output (cell_at t r c) (rowHeight t r) (colWidth t c) = Ok (resized t r c)
/\ block (rowHeight t r) (colWidth t c) (resized t r c).
Proof.
intros Hr Hc. destruct (cell_at_sized r c Hr Hc) as (w & h & Hw & _ & Hout).
destruct (Hout (rowHeight t r) (colWidth t c)) as (out & Hrun & Hblock).
{ pose proof (natural_width_le_colWidth r c Hr) as Hle.
  unfold natural_width in Hle. by rewrite Hw in Hle. }
unfold resized. by rewrite Hrun.
Qed.

Lemma render_table_layout : render (fmap_table vtbl t) = Ok (table_layout t).
Proof.
apply (render_correct (fmap_table vtbl t)
         (fun r c => natural_width (cell_at t r c))
         (fun r c => natural_height (cell_at t r c))
         (resized t)).
simpl. intros r c Hr Hc. exists (vtbl (cell_at t r c)).
destruct (grid_shape_lookup _ _ _ r c Hshape Hr Hc) as (row & Hrow & Hcell).
destruct (cell_at_sized r c Hr Hc) as (w & h & Hw & Hh & _).
destruct (resized_block r c Hr Hc) as [Hout [Hlen _]].
repeat split.
- unfold at2.
  rewrite (at_Ok _ r (map vtbl row)) by (by rewrite list_lookup_fmap, Hrow). ok.
  apply at_Ok. by rewrite list_lookup_fmap, Hcell.
- unfold natural_width. fold (Width (cell_at t r c)). by rewrite Hw.
- unfold natural_height. fold (Height (cell_at t r c)). by rewrite Hh.
- exact Hout.
- exact Hlen.
Qed.
End TableOfSized.

Lemma wf_cell_sized (cell : CBase) : wf_cell cell -> sized cell.
Proof.
  induction cell as [|allLines formatType|imageData|t IH] using CBase_nested_ind;
    intros Hwf.
  - exists 0, 0. repeat split; try done. intros. apply Empty_Output_block.
  - exists (Text.Width allLines), (Text.Height allLines). repeat split; try done.
    intros. by apply Text_Output_block.
  - exists (Image.Width imageData), (Image.Height imageData). repeat split; try done.
    intros height width _.
    destruct (Image_Output_block imageData height width) as (out & ? & ? & _).
    by exists out.
  - apply wf_cell_TableCell in Hwf as [Hshape Hwf].
    assert (Forall (Forall sized) (Cells t)) as Hsized.
    { rewrite Forall_forall in IH, Hwf. apply Forall_forall. intros row Hrow.
      specialize (IH row Hrow). specialize (Hwf row Hrow).
      rewrite Forall_forall in IH, Hwf. apply Forall_forall. auto. }
    pose proof (render_table_layout t Hshape Hsized) as Hrender.
    unfold sized, Width, Height, Output. simpl. rewrite Hrender.
    do 2 eexists. repeat split; try done.
    intros. apply TableCell_Output_block.
Qed.

Lemma wf_table_sized (t : CTable) :
  wf_table t -> grid_shape (Rows t) (Cols t) (Cells t) /\ Forall (Forall sized) (Cells t).
Proof.
  intros [Hshape Hwf]%wf_cell_TableCell. split; [done|].
  eapply Forall_impl; [exact Hwf|]. intros row Hrow.
  eapply Forall_impl; [exact Hrow|]. apply wf_cell_sized.
Qed.

(** [os << table] succeeds on every well-formed table and writes its layout. *)
Lemma to_text_layout (t : CTable) : wf_table t -> to_text t = Ok (table_layout t).
Proof. intros [? ?]%wf_table_sized. by apply render_table_layout. Qed.

(** ** Lines of a text *)

Lemma text_lines_nil (text : str) : text_lines text = [] -> text = [].
Proof.
  destruct text as [|c rest]; [done|]. simpl.
  case_decide; [done|]. by destruct (text_lines rest).
Qed.

Lemma getline_text_lines (c : ascii) (rest : str) :
  text_lines (c :: rest)
  = (getline (c :: rest)).1 :: text_lines (getline (c :: rest)).2
  /\ length (getline (c :: rest)).2 <= length rest.
Proof.
  revert c. induction rest as [|c' rest IH]; intros c.
  - simpl. case_decide; simpl; done.
  - specialize (IH c'). destruct IH as [IH Hlen].
    cbn [getline text_lines] in *. destruct (decide (c = nl)) as [->|Hc].
    + simpl. split; [done|lia].
    + destruct (decide (c' = nl)) as [->|Hc'].
      * simpl. split; [done|lia].
      * destruct (getline rest) as [line rest'] eqn:E. simpl in *.
        rewrite IH. split; [done|lia].
Qed.

Lemma getlines_loop_text_lines (fuel : nat) (text : str) :
  length text <= fuel -> getlines_loop fuel text = text_lines text.
Proof.
  revert text. induction fuel as [|fuel IH]; intros text Hlen.
  - destruct text; [done|simpl in Hlen; lia].
  - destruct text as [|c rest]; [done|].
    destruct (getline_text_lines c rest) as [Heq Hle].
    cbn [getlines_loop]. destruct (getline (c :: rest)) as [line rest'] eqn:E.
    cbn [fst snd] in Heq, Hle. rewrite Heq, IH; [done|]. simpl in Hlen. lia.
Qed.

Lemma getlines_text_lines (text : str) : getlines text = text_lines text.
Proof. by apply getlines_loop_text_lines. Qed.

Lemma count_newlines_text_lines (text : str) :
  count_char nl text + (if decide (text = [] \/ last text = Some nl) then 0 else 1)
  = length (text_lines text).
Proof.
  unfold count_char. induction text as [|c rest IH]; [by rewrite decide_True by auto|].
  destruct rest as [|c' rest].
  - cbn [text_lines last]. rewrite filter_cons, filter_nil.
    destruct (decide (c = nl)) as [->|Hc].
    + reflexivity.
    + cbn [length]. rewrite decide_False; [done|]. intros [?|?]; congruence.
  - change (last (c :: c' :: rest)) with (last (c' :: rest)).
    assert (c' :: rest <> []) as Hne by done.
    remember (c' :: rest) as tl eqn:Htl. clear Htl c' rest.
    rewrite filter_cons.
    assert ((if decide (c :: tl = [] \/ last tl = Some nl) then 0 else 1)
            = (if decide (tl = [] \/ last tl = Some nl) then 0 else 1)) as ->.
    { repeat case_decide; try done; exfalso; intuition congruence. }
    cbn [text_lines]. destruct (decide (c = nl)) as [->|Hc].
    + cbn [length]. lia.
    + destruct (text_lines tl) as [|line lines] eqn:E.
      * by apply text_lines_nil in E.
      * cbn [length] in *. lia.
Qed.

(** * The claims about rendering *)

(** [main] asserts this output for [t2]. *)
Example main_t2_text :
  to_text main_t2
  = Ok (lit "+------------+-------------+" ++ [nl] ++
        lit "|OOP         |Encapsulation|" ++ [nl] ++
        lit "+------------+-------------+" ++ [nl] ++
        lit "|Polymorphism|Inheritance  |" ++ [nl] ++
        lit "+------------+-------------+" ++ [nl]).
Proof. vm_compute. reflexivity. Qed.

(** C1. A well-formed table with at least one row and one column renders as a
    border line, then for each row in order [rowHeight[r]] content lines and
    a border line again.  A border line is ['+'] and, for each column,
    [colWidth[c]] dashes and ['+']; a content line is ['|'] and, for each
    column, one line of the resized output of the cell and ['|']; every line
    ends with a newline.  The resized output of cell [(r, c)] has
    [rowHeight[r]] lines of [colWidth[c]] characters, where [colWidth[c]] and
    [rowHeight[r]] are the largest natural width of column [c] and the
    largest natural height of row [r]. *)
Theorem render_shape (t : CTable) :
  wf_table t -> 1 <= Rows t -> 1 <= Cols t ->
  let border :=
    lit "+" ++ concat ((fun c => replicate (colWidth t c) "-"%char ++ lit "+")
                         <$> seq 0 (Cols t)) ++ [nl] in
  let content r i :=
    lit "|" ++ concat ((fun c => (resized t r c !!! i) ++ lit "|") <$> seq 0 (Cols t))
    ++ [nl] in
  to_text t
  = Ok (border ++
        concat ((fun r => concat (content r <$> seq 0 (rowHeight t r)) ++ border)
                  <$> seq 0 (Rows t)))
  /\ (forall c, c < Cols t ->
        colWidth t c = max_list ((fun r => natural_width (cell_at t r c)) <$> seq 0 (Rows t)))
  /\ (forall r, r < Rows t ->
        rowHeight t r = max_list ((fun c => natural_height (cell_at t r c)) <$> seq 0 (Cols t)))
  /\ (forall r c, r < Rows t -> c < Cols t ->
        Width (cell_at t r c) = Ok (natural_width (cell_at t r c))
        /\ Height (cell_at t r c) = Ok (natural_height (cell_at t r c))
        /\ Output (cell_at t r c) (rowHeight t r) (colWidth t c) = Ok (resized t r c)
        /\ length (resized t r c) = rowHeight t r
        /\ Forall (fun line => length line = colWidth t c) (resized t r c)).
Proof.
  intros Hwf _ _. cbn zeta. split; [exact (to_text_layout t Hwf)|].
  split; [done|]. split; [done|].
  destruct (wf_table_sized t Hwf) as [Hshape Hsized].
  intros r c Hr Hc.
  destruct (cell_at_sized t Hshape Hsized r c Hr Hc) as (w & h & Hw & Hh & _).
  destruct (resized_block t Hshape Hsized r c Hr Hc) as [Hout [Hlen Hall]].
  unfold natural_width, natural_height. rewrite Hw, Hh. done.
Qed.

Lemma render_shape_witness :
  to_text nested_table = Ok (table_layout nested_table).
Proof.
  refine (proj1 (render_shape nested_table _ _ _)).
  - vm_compute. exact I.
  - simpl. lia.
  - simpl. lia.
Defined.

(** C5, as the code has it.  A 1 x 1 table whose only cell is empty renders as
    the two lines ["++"] and ["++"]: the column is 0 wide and the row is 0
    high, so there are two border lines without a dash and no content line. *)
Theorem empty_1x1_renders_two_borders :
  to_text (new_table 1 1) = Ok (lit "++" ++ [nl] ++ lit "++" ++ [nl])
  /\ colWidth (new_table 1 1) 0 = 0
  /\ rowHeight (new_table 1 1) 0 = 0.
Proof. vm_compute. done. Qed.

(** C5, as the specification has it, fails: the text is not
    ["+-+\n||\n+-+\n"]. *)
Lemma empty_1x1_not_three_lines :
  to_text (new_table 1 1)
  <> Ok (lit "+-+" ++ [nl] ++ lit "||" ++ [nl] ++ lit "+-+" ++ [nl]).
Proof. vm_compute. discriminate. Qed.

(** C7. When no stored line is longer than [width], [Output(height, width)]
    of a text returns [height] strings of [width] characters; string [i] is
    line [i] if there is one and the empty string otherwise, with spaces
    added on the right for [ALIGN_LEFT] and on the left for [ALIGN_RIGHT]. *)
Theorem Text_Output_padded (allLines : list str) (formatType : FormatingType)
    (height width : nat) :
  Forall (fun line => length line <= width) allLines ->
  exists out,
    Output (CText allLines formatType) height width = Ok out
    /\ length out = height
    /\ forall i, i < height ->
         let line := default [] (allLines !! i) in
         let pad := replicate (width - length line) sp in
         out !! i = Some (match formatType with
                          | ALIGN_LEFT => line ++ pad
                          | ALIGN_RIGHT => pad ++ line
                          end)
         /\ length (out !!! i) = width.
Proof.
  intros Hfit. unfold Output. simpl.
  assert (forall i line, allLines !! i = Some line -> length line <= width) as Hfit'.
  { intros i line Hi. eapply (proj1 (Forall_lookup _ _) Hfit); eauto. }
  rewrite Text_Output_lines by eauto.
  eexists. split; [done|]. split; [by rewrite length_tabulate|].
  intros i Hi. cbn zeta.
  assert (length (default [] (allLines !! i)) <= width) as Hle.
  { destruct (allLines !! i) as [line|] eqn:E; simpl; [eauto|lia]. }
  split.
  - by rewrite lookup_tabulate.
  - rewrite (list_lookup_total_correct _ _ _ (lookup_tabulate _ _ _ Hi)).
    by apply text_line_length.
Qed.

Lemma Text_Output_padded_witness :
  exists out,
    Output (CText [lit "Bye,"; lit "Hello Kitty"] ALIGN_RIGHT) 3 11 = Ok out
    /\ length out = 3.
Proof.
  destruct (Text_Output_padded [lit "Bye,"; lit "Hello Kitty"] ALIGN_RIGHT 3 11)
    as (out & Hout & Hlen & _).
  - repeat constructor; simpl; lia.
  - exists out. split; assumption.
Defined.

(** C9. The cell that embeds a well-formed table [T] reports as its width the
    length of the longest line of the text of [T], and as its height the
    number of lines of that text, where characters after the last newline
    count as one more line. *)
Theorem TableCell_measures_text (T : CTable) :
  wf_table T ->
  exists text,
    to_text T = Ok text
    /\ Width (CTableCell T) = Ok (max_list (length <$> text_lines text))
    /\ Height (CTableCell T) = Ok (length (text_lines text)).
Proof.
  intros Hwf. exists (table_layout T). split; [by apply to_text_layout|].
  unfold Width, Height. simpl. fold (to_text T). rewrite (to_text_layout T Hwf).
  unfold TableCell.Width, TableCell.Height. ok. split.
  - by rewrite fold_max_length, getlines_text_lines.
  - by rewrite count_newlines_text_lines.
Qed.

Lemma TableCell_measures_text_witness :
  Width (CTableCell main_t2) = Ok 28 /\ Height (CTableCell main_t2) = Ok 5.
Proof.
  destruct (TableCell_measures_text main_t2) as (text & Htext & Hw & Hh).
  - vm_compute. exact I.
  - rewrite main_t2_text in Htext. injection Htext as <-. split; assumption.
Defined.

(** ** The lines of a rendered table *)

Lemma concat_fmap_concat {A B : Type} (g : A -> list B) (ll : list (list A)) :
  concat (g <$> concat ll) = concat ((fun l => concat (g <$> l)) <$> ll).
Proof.
  induction ll as [|l ll IH]; [done|]. cbn [concat].
  rewrite fmap_app, concat_app, IH. done.
Qed.

Lemma length_concat_tabulate {A : Type} (f : nat -> list A) (n : nat) :
  length (concat (f <$> seq 0 n)) = sum_list ((fun i => length (f i)) <$> seq 0 n).
Proof.
  induction n as [|n IH]; [done|].
  rewrite concat_seq_S, length_app, IH, seq_S, fmap_app, sum_list_with_app.
  simpl. lia.
Qed.

Lemma sum_list_tabulate_ext (f g : nat -> nat) (n : nat) :
  (forall k, k < n -> f k = g k) ->
  sum_list (f <$> seq 0 n) = sum_list (g <$> seq 0 n).
Proof. intros H. by rewrite (tabulate_ext f g n H). Qed.

(** The text of a table is its written lines, each followed by a newline. *)
Lemma table_layout_written_lines (t : CTable) :
  table_layout t = concat ((fun line => line ++ [nl]) <$> written_lines t).
Proof.
  unfold table_layout, layout, written_lines. cbn zeta.
  rewrite fmap_cons. cbn [concat]. unfold border_line at 1.
  rewrite <- !app_assoc. do 3 f_equal.
  rewrite concat_fmap_concat, <- list_fmap_compose.
  apply (f_equal (@concat _)), tabulate_ext. intros r _. cbn beta.
  unfold row_block, compose. rewrite fmap_app, concat_app, <- list_fmap_compose.
  f_equal. cbn [fmap list_fmap concat]. unfold border_line.
  by rewrite app_nil_r, <- !app_assoc.
Qed.

Lemma written_lines_length (t : CTable) :
  wf_table t ->
  Forall (fun line =>
            length line = 1 + sum_list ((fun c => colWidth t c + 1) <$> seq 0 (Cols t)))
         (written_lines t).
Proof.
  intros Hwf. destruct (wf_table_sized t Hwf) as [Hshape Hsized].
  assert (length (lit "+" ++ concat ((fun c => replicate (colWidth t c) "-"%char ++ lit "+")
                           <$> seq 0 (Cols t)))
          = 1 + sum_list ((fun c => colWidth t c + 1) <$> seq 0 (Cols t))) as Hborder.
  { rewrite length_app, length_concat_tabulate. simpl. f_equal.
    apply sum_list_tabulate_ext. intros c _.
    rewrite length_app, length_replicate. done. }
  unfold written_lines. cbn zeta. constructor; [exact Hborder|].
  apply Forall_concat, Forall_fmap, Forall_forall. intros r Hr%elem_of_seq. simpl.
  apply Forall_app. split; [|by constructor].
  apply Forall_fmap, Forall_forall. intros i Hi%elem_of_seq. simpl.
  rewrite length_concat_tabulate. f_equal.
  apply sum_list_tabulate_ext. intros c Hc.
  destruct (resized_block t Hshape Hsized r c) as [_ [Hlen Hall]]; [lia|lia|].
  rewrite length_app. simpl. f_equal.
  eapply (proj1 (Forall_lookup _ _) Hall).
  apply list_lookup_lookup_total_lt. lia.
Qed.

Lemma text_lines_line_app (line rest : str) :
  single_line line -> text_lines (line ++ nl :: rest) = line :: text_lines rest.
Proof.
  unfold single_line. induction line as [|c line IH]; intros Hline.
  - cbn [app text_lines]. by rewrite decide_True.
  - rewrite not_elem_of_cons in Hline. destruct Hline as [Hc Hline].
    cbn [app text_lines]. rewrite decide_False by congruence.
    by rewrite IH.
Qed.

Lemma text_lines_terminated (lines : list str) :
  Forall single_line lines ->
  text_lines (concat ((fun line => line ++ [nl]) <$> lines)) = lines.
Proof.
  induction 1 as [|line lines Hline _ IH]; [done|].
  rewrite fmap_cons. cbn [concat]. rewrite <- app_assoc. cbn [app].
  by rewrite text_lines_line_app, IH.
Qed.

Lemma text_lines_single_line (text : str) : Forall single_line (text_lines text).
Proof.
  induction text as [|c rest IH]; [constructor|]. cbn [text_lines].
  case_decide as Hc.
  - constructor; [|done]. apply not_elem_of_nil.
  - destruct (text_lines rest) as [|line lines].
    + constructor; [|done]. unfold single_line.
      rewrite not_elem_of_cons. split; [congruence|apply not_elem_of_nil].
    + inversion IH as [|? ? Hline Hlines]; subst. constructor; [|done].
      unfold single_line in *. rewrite not_elem_of_cons. split; [congruence|done].
Qed.

(** The output of a cell whose stored lines are single lines has no newline. *)
Lemma Output_single_line (cell : CBase) (height width : nat) (out : list str) :
  single_lines cell -> Output cell height width = Ok out -> Forall single_line out.
Proof.
  unfold Output. destruct cell as [|allLines formatType|imageData|t]; simpl.
  - intros _ [= <-]. apply blank_block.
  - intros Hlines ->%Text_Output_inv.
    apply Forall_fmap, Forall_forall. intros i _. simpl. unfold text_line.
    assert (single_line (default [] (allLines !! i))) as Hi.
    { destruct (allLines !! i) as [line|] eqn:E; simpl.
      - eapply (proj1 (Forall_lookup _ _) Hlines); eauto.
      - apply not_elem_of_nil. }
    destruct formatType; apply single_line_app; try done;
      by apply single_line_replicate.
  - intros Himg Hout.
    destruct (Image_Output_block imageData height width) as (out' & Hout' & _ & Hs).
    rewrite Hout in Hout'. injection Hout' as <-. auto.
  - intros _. unfold TableCell.Output.
    destruct (render (fmap_table vtbl t)) as [text| |]; simpl; try done.
    intros [= <-]. apply Forall_app. split.
    + apply Forall_fmap, Forall_take.
      rewrite getlines_text_lines.
      eapply Forall_impl; [apply text_lines_single_line|].
      intros line Hline. simpl. case_decide.
      * by apply single_line_take.
      * apply single_line_app; [done|]. by apply single_line_replicate.
    + apply blank_block.
Qed.

Lemma single_line_char (c : ascii) : c <> nl -> single_line [c].
Proof.
  intros Hc. unfold single_line. rewrite not_elem_of_cons.
  split; [congruence|apply not_elem_of_nil].
Qed.

Lemma single_line_concat (lines : list str) :
  Forall single_line lines -> single_line (concat lines).
Proof.
  induction 1 as [|line lines Hline _ IH]; [apply not_elem_of_nil|].
  by apply single_line_app.
Qed.

Lemma written_lines_single_line (t : CTable) :
  wf_table t -> Forall (Forall single_lines) (Cells t) ->
  Forall single_line (written_lines t).
Proof.
  intros Hwf Hsingle. destruct (wf_table_sized t Hwf) as [Hshape Hsized].
  assert (single_line (lit "+" ++ concat ((fun c => replicate (colWidth t c) "-"%char
                                                     ++ lit "+") <$> seq 0 (Cols t))))
    as Hborder.
  { apply single_line_app; [by apply single_line_char|].
    apply single_line_concat, Forall_fmap, Forall_forall. intros c _. simpl.
    apply single_line_app; [by apply single_line_replicate|].
    by apply single_line_char. }
  unfold written_lines. cbn zeta. constructor; [exact Hborder|].
  apply Forall_concat, Forall_fmap, Forall_forall. intros r Hr%elem_of_seq. simpl.
  apply Forall_app. split; [|by constructor].
  apply Forall_fmap, Forall_forall. intros i Hi%elem_of_seq. simpl.
  apply (single_line_app (lit "|")); [by apply single_line_char|].
  apply single_line_concat, Forall_fmap, Forall_forall. intros c Hc%elem_of_seq.
  simpl. apply single_line_app; [|by apply single_line_char].
  destruct (resized_block t Hshape Hsized r c) as [Hout [Hlen _]]; [lia|lia|].
  destruct (grid_shape_lookup _ _ _ r c Hshape) as (row & Hrow & Hcell); [lia|lia|].
  assert (single_lines (cell_at t r c)) as Hcell'.
  { eapply (proj1 (Forall_lookup _ _)); [|exact Hcell].
    eapply (proj1 (Forall_lookup _ _)); [exact Hsingle|exact Hrow]. }
  eapply (proj1 (Forall_lookup _ _) (Output_single_line _ _ _ _ Hcell' Hout)).
  apply list_lookup_lookup_total_lt. lia.
Qed.




(** * The store *)

(** ** Reading values *)

Lemma load_grid_Some (ld : loc -> option CBase) (cells : list (list loc))
    (vals : list (list CBase)) :
  load_grid ld cells = Some vals
  <-> Forall2 (Forall2 (fun l v => ld l = Some v)) cells vals.
Proof.
  unfold load_grid. rewrite mapM_Some. split; intros H.
  - eapply Forall2_impl; [exact H|]. intros row vs. by rewrite mapM_Some.
  - eapply Forall2_impl; [exact H|]. intros row vs. by rewrite mapM_Some.
Qed.

Lemma load_grid_impl (ld ld' : loc -> option CBase) (cells : list (list loc))
    (vals : list (list CBase)) :
  load_grid ld cells = Some vals ->
  (forall row l v, row ∈ cells -> l ∈ row -> ld l = Some v -> ld' l = Some v) ->
  load_grid ld' cells = Some vals.
Proof.
  rewrite !load_grid_Some. intros H Himpl.
  induction H as [|row vs cells vals Hrow _ IH]; constructor.
  - assert (forall l v, l ∈ row -> ld l = Some v -> ld' l = Some v) as Hr.
    { intros l v Hl. apply (Himpl row); [apply list_elem_of_here|done]. }
    clear Himpl IH. induction Hrow as [|l v row vs Hl _ IH]; constructor.
    + apply Hr; [apply list_elem_of_here|done].
    + apply IH. intros l' v' Hl'. apply Hr. by apply list_elem_of_further.
  - apply IH. intros row' l v Hrow'. apply Himpl. by apply list_elem_of_further.
Qed.

Lemma load_S (fuel : nat) (h : store) (cell : loc) :
  load (S fuel) h cell
  = match h !! cell with
    | Some OEmpty => Some CEmpty
    | Some (OText allLines formatType) => Some (CText allLines formatType)
    | Some (OImage imageData) => Some (CImage imageData)
    | Some (OTableCell tableContent) => CTableCell <$> load_table fuel h tableContent
    | _ => None
    end.
Proof.
  cbn [load]. destruct (h !! cell) as [[| | |p|]|]; try done.
  unfold load_table. destruct (h !! p) as [[| | | |R C cells]|]; try done.
  fold (load_grid (load fuel h) cells).
  by destruct (load_grid (load fuel h) cells).
Qed.

Lemma load_table_Some (fuel : nat) (h : store) (table : loc) (T : CTable) :
  load_table fuel h table = Some T <->
  exists cells, h !! table = Some (OTable (Rows T) (Cols T) cells)
                /\ load_grid (load fuel h) cells = Some (Cells T).
Proof.
  unfold load_table. split.
  - destruct (h !! table) as [[| | | |R C cells]|]; try done.
    fold (load_grid (load fuel h) cells).
    destruct (load_grid (load fuel h) cells) as [vals|] eqn:E; [|done].
    simpl. intros [= <-]. by exists cells.
  - intros (cells & -> & Hgrid). fold (load_grid (load fuel h) cells).
    rewrite Hgrid. by destruct T.
Qed.

Lemma load_lt (fuel : nat) (h : store) (cell : loc) (v : CBase) :
  load fuel h cell = Some v -> cell < length h.
Proof.
  destruct fuel as [|fuel]; [done|]. rewrite load_S.
  destruct (h !! cell) eqn:E; [|done]. intros _. by eapply lookup_lt_Some.
Qed.

(** A location set [M] that no object outside of it points into: changes of
    the store inside [M] are not seen from outside. *)
Section Frame.
Context (M : loc -> Prop) (h h' : store).
Hypothesis Hsame : forall x, ~ M x -> h' !! x = h !! x.
Hypothesis Hclosed : forall x o p,
  ~ M x -> h !! x = Some o -> points_to o p -> p < length h -> ~ M p.

Lemma load_grid_frame (fuel : nat) (x : loc) (Rows Cols : nat)
    (cells : list (list loc)) (vals : list (list CBase)) :
  (forall cell v, ~ M cell -> load fuel h cell = Some v -> load fuel h' cell = Some v) ->
  ~ M x -> h !! x = Some (OTable Rows Cols cells) ->
  load_grid (load fuel h) cells = Some vals ->
  load_grid (load fuel h') cells = Some vals.
Proof.
  intros IH Hx Hobj Hgrid. eapply load_grid_impl; [exact Hgrid|].
  intros row l v Hrow Hl Hload. apply IH; [|done].
  eapply (Hclosed x); [done|exact Hobj| |by eapply load_lt].
  simpl. eauto.
Qed.

Lemma load_frame (fuel : nat) (cell : loc) (v : CBase) :
  ~ M cell -> load fuel h cell = Some v -> load fuel h' cell = Some v.
Proof.
  revert cell v. induction fuel as [|fuel IH]; intros cell v Hcell; [done|].
  rewrite !load_S, (Hsame cell Hcell).
  destruct (h !! cell) as [[| | |p|]|] eqn:Hobj; try done.
  destruct (load_table fuel h p) as [T|] eqn:HT; [|done].
  apply load_table_Some in HT as (cells & Hp & Hgrid).
  assert (~ M p) as HMp.
  { eapply (Hclosed cell); [done|exact Hobj|done|by eapply lookup_lt_Some]. }
  intros [= <-].
  assert (load_table fuel h' p = Some T) as ->; [|done].
  apply load_table_Some. exists cells. rewrite (Hsame p HMp). split; [done|].
  by eapply load_grid_frame.
Qed.

Lemma load_table_frame (fuel : nat) (table : loc) (T : CTable) :
  ~ M table -> load_table fuel h table = Some T -> load_table fuel h' table = Some T.
Proof.
  intros Ht (cells & Hobj & Hgrid)%load_table_Some.
  apply load_table_Some. exists cells. rewrite (Hsame table Ht). split; [done|].
  eapply load_grid_frame; eauto using load_frame.
Qed.
End Frame.

(** New objects do not change the value of old ones. *)
Lemma load_extend (fuel : nat) (h k : store) (cell : loc) (v : CBase) :
  load fuel h cell = Some v -> load fuel (h ++ k) cell = Some v.
Proof.
  intros Hload. apply (load_frame (fun x => length h <= x) h); try done.
  - intros x Hx. apply lookup_app_l. lia.
  - intros. lia.
  - apply load_lt in Hload. lia.
Qed.

Lemma load_table_extend (fuel : nat) (h k : store) (table : loc) (T : CTable) :
  load_table fuel h table = Some T -> load_table fuel (h ++ k) table = Some T.
Proof.
  intros Hload. apply (load_table_frame (fun x => length h <= x) h); try done.
  - intros x Hx. apply lookup_app_l. lia.
  - intros. lia.
  - apply load_table_Some in Hload as (cells & Hobj & _).
    apply lookup_lt_Some in Hobj. lia.
Qed.

(** More fuel reads the same value. *)
Lemma load_mono (fuel fuel' : nat) (h : store) (cell : loc) (v : CBase) :
  fuel <= fuel' -> load fuel h cell = Some v -> load fuel' h cell = Some v.
Proof.
  revert fuel' cell v. induction fuel as [|fuel IH]; intros fuel' cell v Hle; [done|].
  destruct fuel' as [|fuel']; [lia|]. rewrite !load_S.
  destruct (h !! cell) as [[| | |p|]|] eqn:Hobj; try done.
  destruct (load_table fuel h p) as [T|] eqn:HT; [|done].
  apply load_table_Some in HT as (cells & Hp & Hgrid). intros [= <-].
  assert (load_table fuel' h p = Some T) as ->; [|done].
  apply load_table_Some. exists cells. split; [done|].
  eapply load_grid_impl; [exact Hgrid|]. intros row l v _ _. apply IH. lia.
Qed.

Lemma load_table_mono (fuel fuel' : nat) (h : store) (table : loc) (T : CTable) :
  fuel <= fuel' -> load_table fuel h table = Some T ->
  load_table fuel' h table = Some T.
Proof.
  intros Hle (cells & Hobj & Hgrid)%load_table_Some.
  apply load_table_Some. exists cells. split; [done|].
  eapply load_grid_impl; [exact Hgrid|]. intros row l v _ _. by apply load_mono.
Qed.

Lemma reads_deterministic (h : store) (cell : loc) (v v' : CBase) :
  reads h cell v -> reads h cell v' -> v = v'.
Proof.
  intros [n Hn] [m Hm].
  apply (load_mono n (n `max` m)) in Hn; [|lia].
  apply (load_mono m (n `max` m)) in Hm; [|lia]. congruence.
Qed.

Lemma reads_table_deterministic (h : store) (table : loc) (T T' : CTable) :
  reads_table h table T -> reads_table h table T' -> T = T'.
Proof.
  intros [n Hn] [m Hm].
  apply (load_table_mono n (n `max` m)) in Hn; [|lia].
  apply (load_table_mono m (n `max` m)) in Hm; [|lia]. congruence.
Qed.

(** ** Copies *)

Lemma grid_loads_load_grid (fuel : nat) (h : store) (cells : list (list loc))
    (vals : list (list CBase)) :
  load_grid (load fuel h) cells = Some vals <-> grid_loads fuel h cells vals.
Proof. apply load_grid_Some. Qed.

Lemma row_loads_extend (fuel : nat) (h k : store) (row : list loc) (vs : list CBase) :
  row_loads fuel h row vs -> row_loads fuel (h ++ k) row vs.
Proof. intros H. eapply Forall2_impl; [exact H|]. intros l v. apply load_extend. Qed.

Lemma grid_loads_extend (fuel : nat) (h k : store) (cells : list (list loc))
    (vals : list (list CBase)) :
  grid_loads fuel h cells vals -> grid_loads fuel (h ++ k) cells vals.
Proof.
  intros H. eapply Forall2_impl; [exact H|]. intros row vs. apply row_loads_extend.
Qed.

Lemma grid_loads_shape (fuel : nat) (h : store) (cells : list (list loc))
    (vals : list (list CBase)) (rows cols : nat) :
  grid_loads fuel h cells vals ->
  grid_shape rows cols cells <-> grid_shape rows cols vals.
Proof.
  intros H. unfold grid_shape. rewrite (Forall2_length _ _ _ H).
  enough (Forall (fun row => length row = cols) cells
          <-> Forall (fun row => length row = cols) vals) by tauto.
  induction H as [|row vs cells vals Hrow _ IH]; [done|].
  rewrite !Forall_cons, IH, (Forall2_length _ _ _ Hrow). done.
Qed.

Lemma Clone_load (fuel : nat) (h : store) (this : loc) (v : CBase) :
  load fuel h this = Some v ->
  exists o, h !! this = Some o
    /\ (forall R C cs, o <> OTable R C cs)
    /\ Clone this h = Ok (length h, h ++ [o])
    /\ load fuel (h ++ [o]) (length h) = Some v.
Proof.
  destruct fuel as [|fuel]; [done|]. rewrite load_S. unfold Clone, at_.
  destruct (h !! this) as [o|] eqn:Hobj; [|done].
  intros Hv. exists o. split; [done|].
  rewrite load_S, list_lookup_middle by done.
  destruct o as [| | |p|]; try done; repeat split; try done.
  destruct (load_table fuel h p) as [T|] eqn:HT; [|done].
  by rewrite (load_table_extend _ _ _ _ _ HT).
Qed.

Section CloneCells.
Context (fuel : nat) (h : store) (Rows Cols : nat).
Context (cells : list (list loc)) (vals : list (list CBase)).
Hypothesis Hshape : grid_shape Rows Cols cells.
Hypothesis Hloads : grid_loads fuel h cells vals.

Lemma clone_row_spec (rows : nat) (h0 : store) (row : list loc) (vs : list CBase) :
  rows < Rows -> cells !! rows = Some row -> vals !! rows = Some vs ->
  (exists k, h0 = h ++ k /\ copies_of h cells k) ->
  exists row' k,
    for_range Cols (fun cols '(row, h) =>
        cell ← at2 cells rows cols;
        '(cell', h) ← Clone cell h;
        Ok (row ++ [cell'], h)) ([], h0)
    = Ok (row', h0 ++ k)
    /\ copies_of h cells k
    /\ row_loads fuel (h0 ++ k) row' vs
    /\ length row' = Cols
    /\ Forall (fun l => length h0 <= l) row'.
Proof.
  intros Hrows Hrow Hvs (k0 & -> & Hk0).
  assert (length row = Cols) as Hlen.
  { destruct Hshape as [_ Hall]. eapply (proj1 (Forall_lookup _ _) Hall); eauto. }
  assert (row_loads fuel h row vs) as Hrl.
  { eapply Forall2_lookup_lr in Hloads; eauto. }
  destruct (for_range_invariant
    (fun j '(row', h') =>
       exists k, h' = (h ++ k0) ++ k /\ copies_of h cells k
                 /\ row_loads fuel h' row' (take j vs)
                 /\ length row' = j
                 /\ Forall (fun l => length (h ++ k0) <= l) row')
    Cols
    (fun cols '(row, h) =>
        cell ← at2 cells rows cols;
        '(cell', h) ← Clone cell h;
        Ok (row ++ [cell'], h))
    ([], h ++ k0)) as ([row' h'] & Hrun & k & -> & Hk & Hr & Hl & Hf).
  - exists []. rewrite app_nil_r, take_0. repeat split; constructor.
  - intros j [row' h'] Hj (k & -> & Hk & Hr & Hl & Hf).
    destruct (lookup_lt_is_Some_2 row j) as [cell Hcell]; [lia|].
    destruct (Forall2_lookup_l _ _ _ _ _ Hrl Hcell) as (v & Hv & Hload).
    unfold at2. run (at_Ok _ _ _ Hrow). run (at_Ok _ _ _ Hcell).
    apply (load_extend _ _ (k0 ++ k)) in Hload as Hload'.
    rewrite app_assoc in Hload'.
    destruct (Clone_load _ _ _ _ Hload') as (o & Ho & Hno & -> & Hnew). ok.
    eexists. split; [done|]. exists (k ++ [o]). rewrite !app_assoc.
    repeat split.
    + apply Forall_app. split; [done|]. constructor; [|done].
      exists row, cell. repeat split; try done.
      * by eapply list_elem_of_lookup_2.
      * by eapply list_elem_of_lookup_2.
      * rewrite <- app_assoc in Ho. rewrite lookup_app_l in Ho; [done|].
        by eapply load_lt.
    + rewrite (take_S_r _ _ _ Hv). apply Forall2_app.
      * by apply row_loads_extend.
      * constructor; [|constructor]. done.
    + rewrite length_app. simpl. lia.
    + apply Forall_app. split; [done|]. constructor; [|done].
      rewrite !length_app. lia.
  - exists row', k. rewrite Hrun. repeat split; try done.
    rewrite take_ge in Hr; [done|].
    rewrite <- (Forall2_length _ _ _ Hrl). lia.
Qed.

Lemma clone_cells_spec :
  exists cells' k,
    clone_cells Rows Cols cells h = Ok (cells', h ++ k)
    /\ copies_of h cells k
    /\ grid_loads fuel (h ++ k) cells' vals
    /\ grid_shape Rows Cols cells'
    /\ grid_above (length h) cells'.
Proof.
  unfold clone_cells.
  destruct (for_range_invariant
    (fun i '(grid, h') =>
       exists k, h' = h ++ k /\ copies_of h cells k
                 /\ grid_loads fuel h' grid (take i vals)
                 /\ grid_shape i Cols grid
                 /\ grid_above (length h) grid)
    Rows
    (fun rows '(grid, h) =>
      '(row, h) ← for_range Cols (fun cols '(row, h) =>
                     cell ← at2 cells rows cols;
                     '(cell', h) ← Clone cell h;
                     Ok (row ++ [cell'], h))
                   ([], h);
      Ok (grid ++ [row], h))
    ([], h)) as ([cells' h'] & Hrun & k & -> & Hk & Hg & Hs & Hf).
  - exists []. rewrite app_nil_r, take_0. repeat split; constructor.
  - intros i [grid h'] Hi (k & -> & Hk & Hg & [Hl Hs] & Hf).
    destruct Hshape as [Hlen _].
    destruct (lookup_lt_is_Some_2 cells i) as [row Hrow]; [lia|].
    destruct (Forall2_lookup_l _ _ _ _ _ Hloads Hrow) as (vs & Hvs & _).
    destruct (clone_row_spec i (h ++ k) row vs Hi Hrow Hvs)
      as (row' & k' & -> & Hk' & Hr' & Hl' & Hf'); [by exists k|]. ok.
    eexists. split; [done|]. exists (k ++ k'). rewrite !app_assoc.
    repeat split.
    + by apply Forall_app.
    + rewrite (take_S_r _ _ _ Hvs). apply Forall2_app.
      * by apply grid_loads_extend.
      * by constructor.
    + rewrite length_app. simpl. lia.
    + apply Forall_app. split; [done|]. by constructor.
    + apply Forall_app. split; [done|]. constructor; [|done].
      eapply Forall_impl; [exact Hf'|]. intros l. rewrite length_app. simpl. lia.
  - exists cells', k. rewrite Hrun. repeat split; try tauto.
    + rewrite take_ge in Hg; [done|].
      rewrite <- (Forall2_length _ _ _ Hloads). destruct Hshape. lia.
    + apply Hs.
    + apply Hs.
Qed.
End CloneCells.

(** The loop rule for a loop known to succeed. *)
Lemma for_each_partial {S : Type} (Inv : S -> Prop) (body : nat -> S -> outcome S)
    (ix : list nat) (s0 s : S) :
  for_each body ix s0 = Ok s -> Inv s0 ->
  (forall i s s', Inv s -> body i s = Ok s' -> Inv s') ->
  Inv s.
Proof.
  intros Hrun H0 Hstep. revert s0 Hrun H0.
  induction ix as [|i ix IH]; intros s0; cbn [for_each].
  - by intros [= <-].
  - intros (s' & Hbody & Hrest)%bind_Ok_inv H0. eapply IH; eauto.
Qed.

Lemma set_at2_Ok {A : Type} `{Inhabited (list A)} (rows cols : nat) (m : list (list A))
    (i j : nat) (x : A) :
  grid_shape rows cols m -> i < rows -> j < cols ->
  set_at2 m i j x = Ok (<[i := <[j := x]> (m !!! i)]> m).
Proof.
  intros [Hlen Hall] Hi Hj. unfold set_at2.
  destruct (lookup_lt_is_Some_2 m i) as [row Hrow]; [lia|].
  run (at_Ok _ _ _ Hrow). rewrite (list_lookup_total_correct _ _ _ Hrow).
  assert (length row = cols) as Hl.
  { eapply (proj1 (Forall_lookup _ _) Hall); eauto. }
  rewrite set_at_Ok by lia. ok. rewrite set_at_Ok by lia. done.
Qed.

Lemma grid_shape_insert {A : Type} (rows cols : nat) (m : list (list A))
    (i j : nat) (x : A) :
  grid_shape rows cols m -> grid_shape rows cols (<[i := <[j := x]> (m !!! i)]> m).
Proof.
  intros [Hlen Hall]. split; [by rewrite length_insert|].
  destruct (decide (i < length m)) as [Hi|Hi].
  - apply Forall_insert; [done|]. rewrite length_insert.
    eapply (proj1 (Forall_lookup _ _) Hall).
    by apply list_lookup_lookup_total_lt.
  - rewrite list_insert_ge by lia. done.
Qed.

(** ** The copy constructor and the embedding of a table *)

Section CopyTable.
Context (fuel : nat) (h : store) (other : loc) (T : CTable).
Hypothesis Hload : load_table fuel h other = Some T.
Hypothesis Hshape : grid_shape (Rows T) (Cols T) (Cells T).

Lemma copy_table_spec :
  exists cells cells' k,
    h !! other = Some (OTable (Rows T) (Cols T) cells)
    /\ copy_table other h
       = Ok (length (h ++ k), (h ++ k) ++ [OTable (Rows T) (Cols T) cells'])
    /\ copies_of h cells k
    /\ grid_loads fuel (h ++ k) cells' (Cells T)
    /\ grid_shape (Rows T) (Cols T) cells'
    /\ grid_above (length h) cells'.
Proof.
  apply load_table_Some in Hload as (cells & Hobj & Hgrid).
  apply grid_loads_load_grid in Hgrid.
  assert (grid_shape (Rows T) (Cols T) cells) as Hcells.
  { by apply (grid_loads_shape _ _ _ _ _ _ Hgrid). }
  destruct (clone_cells_spec fuel h (Rows T) (Cols T) cells (Cells T) Hcells Hgrid)
    as (cells' & k & Hrun & Hk & Hg & Hs & Hf).
  exists cells, cells', k. unfold copy_table. run (at_Ok _ _ _ Hobj). run Hrun.
  done.
Qed.

Lemma new_TableCell_spec :
  exists cells cells' k,
    let p := length (h ++ k) in
    let h' := (h ++ k) ++ [OTable (Rows T) (Cols T) cells'; OTableCell p] in
    h !! other = Some (OTable (Rows T) (Cols T) cells)
    /\ new_TableCell other h = Ok (S p, h')
    /\ copies_of h cells k
    /\ grid_above (length h) cells'
    /\ load (S fuel) h' (S p) = Some (CTableCell T).
Proof.
  destruct copy_table_spec as (cells & cells' & k & Hobj & Hrun & Hk & Hg & Hs & Hf).
  exists cells, cells', k. cbn zeta. unfold new_TableCell. run Hrun.
  unfold alloc. rewrite length_app. cbn [length].
  rewrite Nat.add_1_r, <- app_assoc. cbn [app].
  repeat split; try done.
  rewrite load_S.
  assert (((h ++ k) ++ [OTable (Rows T) (Cols T) cells';
                         OTableCell (length (h ++ k))]) !! S (length (h ++ k))
          = Some (OTableCell (length (h ++ k)))) as ->.
  { rewrite lookup_app_r by lia. by replace (S _ - _) with 1 by lia. }
  assert (load_table fuel
            ((h ++ k) ++ [OTable (Rows T) (Cols T) cells'; OTableCell (length (h ++ k))])
            (length (h ++ k)) = Some T) as ->; [|done].
  apply load_table_Some. exists cells'. split.
  - rewrite lookup_app_r by lia. by rewrite Nat.sub_diag.
  - apply grid_loads_load_grid. by apply grid_loads_extend.
Qed.
End CopyTable.

Lemma owned_unreferenced (h : store) (table : loc) : owned h table -> unreferenced h table.
Proof. intros Ho x o Hx Hp. by destruct (Ho x o table Hx Hp). Qed.

Lemma load_not_table (fuel : nat) (h : store) (cell : loc) (v : CBase)
    (R C : nat) (cs : list (list loc)) :
  load fuel h cell = Some v -> h !! cell <> Some (OTable R C cs).
Proof.
  destruct fuel as [|fuel]; [done|]. rewrite load_S. intros H Hobj.
  by rewrite Hobj in H.
Qed.

Lemma grid_loads_elem (fuel : nat) (h : store) (cells : list (list loc))
    (vals : list (list CBase)) (row : list loc) (x : loc) :
  grid_loads fuel h cells vals -> row ∈ cells -> x ∈ row ->
  exists v, load fuel h x = Some v.
Proof.
  intros Hg (i & Hi)%list_elem_of_lookup_1 (j & Hj)%list_elem_of_lookup_1.
  destruct (Forall2_lookup_l _ _ _ _ _ Hg Hi) as (vs & _ & Hr).
  destruct (Forall2_lookup_l _ _ _ _ _ Hr Hj) as (v & _ & Hv). eauto.
Qed.

Lemma grid_loads_insert (fuel : nat) (h : store) (cells : list (list loc))
    (vals : list (list CBase)) (r c : nat) (p : loc) (v : CBase) :
  grid_loads fuel h cells vals -> load fuel h p = Some v ->
  grid_loads fuel h (set_loc cells r c p) (<[r := <[c := v]> (vals !!! r)]> vals).
Proof.
  intros Hg Hp. unfold set_loc.
  destruct (decide (r < length cells)) as [Hr|Hr].
  - apply Forall2_insert; [done|].
    destruct (lookup_lt_is_Some_2 cells r Hr) as [row Hrow].
    destruct (Forall2_lookup_l _ _ _ _ _ Hg Hrow) as (vs & Hvs & Hrl).
    rewrite (list_lookup_total_correct _ _ _ Hrow),
            (list_lookup_total_correct _ _ _ Hvs).
    destruct (decide (c < length row)) as [Hc|Hc].
    + by apply Forall2_insert.
    + rewrite !list_insert_ge; [done| |lia].
      rewrite <- (Forall2_length _ _ _ Hrl). lia.
  - rewrite !list_insert_ge; [done| |lia].
    rewrite <- (Forall2_length _ _ _ Hg). lia.
Qed.

Section SetCellTable.
Context (fuel : nat) (h : store) (src dst : loc) (S D : CTable) (r c : nat).
Hypothesis Hsrc : load_table fuel h src = Some S.
Hypothesis HS : grid_shape (Rows S) (Cols S) (Cells S).
Hypothesis Hdst : load_table fuel h dst = Some D.
Hypothesis HD : grid_shape (Rows D) (Cols D) (Cells D).
Hypothesis Hr : r < Rows D.
Hypothesis Hc : c < Cols D.
Hypothesis Hfree : unreferenced h dst.

(** [dst.setCell(r, c, src)] stores at [(r, c)] a new cell whose value is the
    value [src] has at the call. *)
Lemma setCell_table_spec :
  exists cellsS cellsD k q,
    h !! src = Some (OTable (Rows S) (Cols S) cellsS)
    /\ h !! dst = Some (OTable (Rows D) (Cols D) cellsD)
    /\ setCell_table dst r c src h
       = Ok (<[dst := OTable (Rows D) (Cols D) (set_loc cellsD r c q)]> (h ++ k))
    /\ length h <= q < length (h ++ k)
    /\ Forall (fresh_or_copied h cellsS) k
    /\ load (Datatypes.S fuel)
            (<[dst := OTable (Rows D) (Cols D) (set_loc cellsD r c q)]> (h ++ k)) q
       = Some (CTableCell S)
    /\ load_table (Datatypes.S fuel)
            (<[dst := OTable (Rows D) (Cols D) (set_loc cellsD r c q)]> (h ++ k)) dst
       = Some (set_cell D r c (CTableCell S)).
Proof.
  destruct (new_TableCell_spec fuel h src S Hsrc HS)
    as (cellsS & cells' & k & HsrcO & Hrun & Hk & Hf & Hq).
  cbn zeta in *.
  pose proof Hdst as (cellsD & HdstO & HgD%grid_loads_load_grid)%load_table_Some.
  assert (grid_shape (Rows D) (Cols D) cellsD) as HcD.
  { by apply (grid_loads_shape _ _ _ _ _ _ HgD). }
  set (p := length (h ++ k)) in *.
  set (k' := k ++ [OTable (Rows S) (Cols S) cells'; OTableCell p]).
  assert ((h ++ k) ++ [OTable (Rows S) (Cols S) cells'; OTableCell p] = h ++ k') as Hk'.
  { unfold k'. by rewrite app_assoc. }
  rewrite Hk' in *.
  assert (dst < length h) as Hdlt by (by eapply lookup_lt_Some).
  exists cellsS, cellsD, k', (Datatypes.S p).
  assert (Forall (fresh_or_copied h cellsS) k') as Hfc.
  { unfold k'. apply Forall_app.
    split; [|constructor; [|constructor; [|constructor]]].
    - eapply Forall_impl; [exact Hk|]. intros o (row & x & Hrow & Hx & Ho & Hno) q' Hq'.
      right. exists row, x, o. done.
    - intros q' (row & Hrow & Hq'). left.
      eapply (proj1 (Forall_forall _ _)); [|exact Hq'].
      eapply (proj1 (Forall_forall _ _) Hf); done.
    - intros q' ->. unfold p. rewrite length_app. lia. }
  assert (forall x o q', x <> dst -> (h ++ k') !! x = Some o -> points_to o q' ->
                         q' <> dst) as Hclosed.
  { intros x o q' Hx Ho Hq' ->.
    destruct (decide (x < length h)) as [Hlt|Hge].
    - rewrite lookup_app_l in Ho by done. by eapply Hfree.
    - rewrite lookup_app_r in Ho by lia.
      apply list_elem_of_lookup_2 in Ho.
      destruct (proj1 (Forall_forall _ _) Hfc o Ho dst Hq')
        as [?|(row & x' & o' & _ & _ & Ho' & _ & Hp')]; [lia|].
      by eapply Hfree. }
  split; [done|]. split; [done|]. split.
  { unfold setCell_table. run Hrun. unfold set_pointer.
    rewrite (at_Ok _ dst (OTable (Rows D) (Cols D) cellsD))
      by (by rewrite lookup_app_l). ok.
    rewrite (set_at2_Ok (Rows D) (Cols D)) by done. ok.
    unfold write. rewrite set_at_Ok by (rewrite length_app; lia). done. }
  split. { unfold k', p. rewrite !length_app. simpl. lia. }
  split; [done|].
  assert (forall cell v, cell <> dst ->
            load (Datatypes.S fuel) (h ++ k') cell = Some v ->
            load (Datatypes.S fuel)
              (<[dst := OTable (Rows D) (Cols D) (set_loc cellsD r c (Datatypes.S p))]>
                 (h ++ k')) cell = Some v) as Hframe.
  { intros cell v Hcell. apply (load_frame (fun x => x = dst)); try done.
    - intros x Hx. by rewrite list_lookup_insert_ne.
    - intros x o q' Hx Ho Hq' _. by eapply Hclosed. }
  split.
  - apply Hframe; [unfold p; rewrite length_app; lia|done].
  - apply load_table_Some. exists (set_loc cellsD r c (Datatypes.S p)). split.
    + rewrite list_lookup_insert_eq; [done|]. rewrite length_app. lia.
    + apply grid_loads_load_grid. apply grid_loads_insert.
      * eapply Forall2_impl; [exact HgD|]. intros row vs Hrow.
        eapply Forall2_impl; [exact Hrow|]. intros l v Hl. apply Hframe.
        -- intros ->. by eapply load_not_table.
        -- apply (load_mono fuel); [lia|]. by apply load_extend.
      * apply Hframe; [unfold p; rewrite length_app; lia|done].
Qed.
End SetCellTable.

(** ** Replacing a cell, on values *)

Lemma wf_table_set_cell (T : CTable) (r c : nat) (v : CBase) :
  wf_table T -> wf_cell v -> wf_table (set_cell T r c v).
Proof.
  intros [Hshape Hwf]%wf_cell_TableCell Hv. apply wf_cell_TableCell. simpl. split.
  - by apply grid_shape_insert.
  - destruct (decide (r < length (Cells T))) as [Hr|Hr].
    + apply Forall_insert; [done|].
      assert (Forall wf_cell (Cells T !!! r)) as Hrow.
      { eapply (proj1 (Forall_lookup _ _) Hwf).
        by apply list_lookup_lookup_total_lt. }
      destruct (decide (c < length (Cells T !!! r))) as [Hc|Hc].
      * by apply Forall_insert.
      * by rewrite list_insert_ge by lia.
    + by rewrite list_insert_ge by lia.
Qed.

Lemma max_list_le (l : list nat) (x : nat) : Forall (fun y => y <= x) l -> max_list l <= x.
Proof. induction 1; simpl; lia. Qed.

Lemma max_list_insert_top (l : list nat) (i x : nat) :
  i < length l -> Forall (fun y => y <= x) l -> max_list (<[i := x]> l) = x.
Proof.
  intros Hi Hall. apply Nat.le_antisymm.
  - apply max_list_le. apply Forall_insert; [done|lia].
  - apply max_list_elem_of_le. eapply list_elem_of_lookup_2.
    by apply list_lookup_insert_eq.
Qed.

Lemma table_depth_cell (T : CTable) (row : list CBase) (v : CBase) :
  row ∈ Cells T -> v ∈ row -> depth v <= table_depth T.
Proof.
  intros Hrow Hv. unfold table_depth.
  etrans; [|apply max_list_elem_of_le, list_elem_of_fmap;
            exists (map depth row); split; [done|]].
  - apply max_list_elem_of_le. apply list_elem_of_fmap. by exists v.
  - apply (list_elem_of_fmap_2 (map depth)). done.
Qed.

(** A table set into a cell of itself is one level deeper. *)
Lemma table_depth_self (T : CTable) (r c : nat) :
  grid_shape (Rows T) (Cols T) (Cells T) -> r < Rows T -> c < Cols T ->
  table_depth (set_cell T r c (CTableCell T)) = S (table_depth T).
Proof.
  intros [Hlen Hall] Hr Hc. unfold table_depth at 1. simpl.
  fold (table_depth T).
  change (map (map depth)) with (fmap (M := list) (fmap (M := list) depth)).
  rewrite list_fmap_insert, list_fmap_insert, list_fmap_insert.
  assert (length (Cells T !!! r) = Cols T) as Hrow.
  { eapply (proj1 (Forall_lookup _ _) Hall).
    apply list_lookup_lookup_total_lt. lia. }
  assert (Cells T !!! r ∈ Cells T) as Hin.
  { eapply list_elem_of_lookup_2. apply list_lookup_lookup_total_lt. lia. }
  rewrite (max_list_insert_top (depth <$> Cells T !!! r)).
  - apply max_list_insert_top.
    + rewrite !length_fmap. lia.
    + apply Forall_fmap, Forall_fmap, Forall_forall. intros row Hrow'. simpl.
      etrans; [|apply Nat.le_succ_diag_r]. apply max_list_le.
      apply Forall_fmap, Forall_forall. intros v Hv. simpl.
      by eapply table_depth_cell.
  - rewrite length_fmap. lia.
  - apply Forall_fmap, Forall_forall. intros v Hv. simpl.
    etrans; [|apply Nat.le_succ_diag_r]. by eapply table_depth_cell.
Qed.

(** * The claims about copies and sharing *)

Example example_program_store :
  example_program = Ok (example_t, example_u, example_store).
Proof. reflexivity. Qed.

Example example_store_tables :
  load_table 1 example_store example_t = Some example_T
  /\ load_table 1 example_store example_u = Some example_U.
Proof. split; reflexivity. Qed.

(** C2. Let [t] be a table of the program with at least one row and one
    column, whose value is [T].  Then [t.setCell(0, 0, t)] returns, after it
    the value of [t] is [T] with the cell [(0, 0)] replaced by a cell
    embedding [T] itself, so the nesting is exactly one level deeper than in
    [T], and streaming it returns its text. *)
Theorem self_embedding_terminates (h : store) (t : loc) (T : CTable) :
  reads_table h t T -> wf_table T -> 0 < Rows T -> 0 < Cols T ->
  unreferenced h t ->
  let T' := set_cell T 0 0 (CTableCell T) in
  exists h' text,
    setCell_table t 0 0 t h = Ok h'
    /\ reads_table h' t T'
    /\ cell_at T' 0 0 = CTableCell T
    /\ table_depth T' = S (table_depth T)
    /\ text_at h' t text.
Proof.
  intros [fuel Hload] Hwf Hr Hc Hfree T'.
  pose proof Hwf as [Hshape _]%wf_cell_TableCell.
  destruct (setCell_table_spec fuel h t t T T 0 0 Hload Hshape Hload Hshape Hr Hc Hfree)
    as (cellsS & cellsD & k & q & _ & _ & Hrun & _ & _ & _ & Hnew).
  eexists _, (table_layout T'). split; [exact Hrun|]. split; [by eexists|].
  split; [|split].
  - destruct Hshape as [Hlen Hall]. unfold cell_at, T'. simpl.
    rewrite list_lookup_total_insert_eq by lia.
    apply list_lookup_total_insert_eq.
    rewrite (proj1 (Forall_lookup _ _) Hall 0 (Cells T !!! 0)); [done|].
    apply list_lookup_lookup_total_lt. lia.
  - by apply table_depth_self.
  - exists T'. split; [by eexists|].
    apply to_text_layout. by apply wf_table_set_cell.
Qed.

(** ** Deciding the hypotheses on a given store *)

Lemma points_to_pointers (o : object) (p : loc) : points_to o p <-> p ∈ pointers o.
Proof.
  destruct o as [| | |q|R C cells]; simpl.
  - by rewrite elem_of_nil.
  - by rewrite elem_of_nil.
  - by rewrite elem_of_nil.
  - by rewrite list_elem_of_singleton.
  - rewrite list_elem_of_join. split.
    + intros (row & ? & ?). by exists row.
    + intros (row & ? & ?). by exists row.
Qed.

Lemma unreferenced_list_correct (h : store) (table : loc) :
  unreferenced_list h table -> unreferenced h table.
Proof.
  intros Hall x o Hx Hp%points_to_pointers.
  by apply (proj1 (Forall_lookup _ _) Hall x o Hx).
Qed.

Lemma owned_list_correct (h : store) (table : loc) :
  owned_list h table -> owned h table.
Proof.
  intros Hall x o p Hx Hp%points_to_pointers.
  assert ((x, o) ∈ imap pair h) as Hin.
  { apply list_elem_of_lookup. exists x. by rewrite list_lookup_imap, Hx. }
  pose proof (proj1 (Forall_forall _ _) Hall _ Hin) as Hxo. simpl in Hxo.
  destruct (proj1 (Forall_forall _ _) Hxo p Hp) as [Hne Hcells].
  split; [done|]. intros Hxt o' Ho' Hp'%points_to_pointers.
  apply (Hcells Hxt). by rewrite Ho'.
Qed.

#[global] Instance unreferenced_list_dec (h : store) (table : loc) :
  Decision (unreferenced_list h table).
Proof. unfold unreferenced_list. apply _. Defined.

#[global] Instance owned_list_dec (h : store) (table : loc) :
  Decision (owned_list h table).
Proof. unfold owned_list. apply _. Defined.

Lemma self_embedding_terminates_witness :
  exists h',
    setCell_table example_t 0 0 example_t example_store = Ok h'
    /\ reads_table h' example_t
         (mkTable 1 2 [[CTableCell example_T; CEmpty]]).
Proof.
  destruct (self_embedding_terminates example_store example_t example_T)
    as (h' & text & Hrun & Hreads & _); cbn zeta in *.
  - exists 1. reflexivity.
  - vm_compute. exact I.
  - simpl. lia.
  - simpl. lia.
  - apply unreferenced_list_correct, (bool_decide_unpack _). vm_compute. exact I.
  - exists h'. split; [exact Hrun|exact Hreads].
Defined.

(** ** What a call that returned has done to the store *)

Lemma at_Ok_inv {A : Type} (v : list A) (i : nat) (x : A) : at_ v i = Ok x -> v !! i = Some x.
Proof. unfold at_. destruct (v !! i); [by intros [= ->]|done]. Qed.

Lemma set_at_Ok_inv {A : Type} (v v' : list A) (i : nat) (x : A) :
  set_at v i x = Ok v' -> i < length v /\ v' = <[i := x]> v.
Proof. unfold set_at. case_decide; [by intros [= <-]|done]. Qed.

Lemma at2_in_grid (cells : list (list loc)) (i j : nat) (p : loc) :
  at2 cells i j = Ok p -> in_grid cells p.
Proof.
  unfold at2. intros (row & Hrow%at_Ok_inv & Hp%at_Ok_inv)%bind_Ok_inv.
  exists row. split; by eapply list_elem_of_lookup_2.
Qed.

Lemma set_at2_in_grid (cells cells' : list (list loc)) (i j : nat) (p x : loc) :
  set_at2 cells i j p = Ok cells' -> in_grid cells' x -> in_grid cells x \/ x = p.
Proof.
  unfold set_at2.
  intros (row & Hrow%at_Ok_inv & (row' & [Hj ->]%set_at_Ok_inv
                                  & [Hi ->]%set_at_Ok_inv)%bind_Ok_inv)%bind_Ok_inv.
  intros (r & Hr & Hx).
  apply list_elem_of_lookup_1 in Hr as [i' Hr].
  destruct (decide (i' = i)) as [->|Hne].
  - rewrite list_lookup_insert_eq in Hr by done. injection Hr as <-.
    apply list_elem_of_lookup_1 in Hx as [j' Hx].
    destruct (decide (j' = j)) as [->|Hne].
    + rewrite list_lookup_insert_eq in Hx by done. injection Hx as <-. by right.
    + rewrite list_lookup_insert_ne in Hx by done. left. exists row.
      split; by eapply list_elem_of_lookup_2.
  - rewrite list_lookup_insert_ne in Hr by done. left. exists r.
    split; [by eapply list_elem_of_lookup_2|done].
Qed.

Lemma Clone_inv (this : loc) (h h' : store) (p : loc) :
  Clone this h = Ok (p, h') ->
  p = length h /\ exists o, h' = h ++ [o] /\ h !! this = Some o.
Proof.
  unfold Clone. intros (o & Ho%at_Ok_inv & Hrun)%bind_Ok_inv.
  destruct o; try done; injection Hrun as <- <-; eauto.
Qed.

Lemma clone_cells_inv (Rows Cols : nat) (cells cells' : list (list loc))
    (h h' : store) :
  clone_cells Rows Cols cells h = Ok (cells', h') ->
  (exists k, h' = h ++ k) /\ grid_above (length h) cells'.
Proof.
  unfold clone_cells, for_range. intros Hrun.
  apply (for_each_partial
           (fun '(grid, h') => (exists k, h' = h ++ k) /\ grid_above (length h) grid)
           _ _ _ _ Hrun).
  - split; [exists []; by rewrite app_nil_r|constructor].
  - clear. intros i [grid h1] [grid' h2] [[k ->] Hg].
    intros ([row h3] & Hrow & [= <- <-])%bind_Ok_inv.
    enough ((exists k', h3 = (h ++ k) ++ k') /\ Forall (fun l => length h <= l) row)
      as [[k' ->] Hrow'].
    { split; [exists (k ++ k'); by rewrite app_assoc|].
      apply Forall_app. split; [done|]. by constructor. }
    apply (for_each_partial
             (fun '(row, h3) => (exists k', h3 = (h ++ k) ++ k')
                                /\ Forall (fun l => length h <= l) row)
             _ _ _ _ Hrow).
    + split; [exists []; by rewrite app_nil_r|constructor].
    + clear. intros j [row h1] [row' h2] [[k' ->] Hr].
      intros (cell & _ & ([p h3] & (-> & o & -> & _)%Clone_inv
                          & [= <- <-])%bind_Ok_inv)%bind_Ok_inv.
      split; [exists (k' ++ [o]); by rewrite !app_assoc|].
      apply Forall_app. split; [done|]. constructor; [|done].
      rewrite !length_app. lia.
Qed.

Lemma new_TableCell_inv (table : loc) (h h' : store) (p : loc) :
  new_TableCell table h = Ok (p, h') ->
  length h <= p /\ exists k, h' = h ++ k.
Proof.
  unfold new_TableCell, copy_table.
  intros ([q h1] & (o & _ & Hcopy)%bind_Ok_inv & [= <- <-])%bind_Ok_inv.
  destruct o as [| | | |R C cells]; try done.
  apply bind_Ok_inv in Hcopy as ([cells' h2] & [[k ->] _]%clone_cells_inv & [= <- <-]).
  rewrite !length_app. split; [simpl; lia|].
  eexists. by rewrite <- !app_assoc.
Qed.

Lemma set_pointer_inv (this : loc) (row col : nat) (p : loc) (h h' : store) :
  set_pointer this row col p h = Ok h' ->
  exists R C cells cells',
    h !! this = Some (OTable R C cells)
    /\ h' = <[this := OTable R C cells']> h
    /\ forall x, in_grid cells' x -> in_grid cells x \/ x = p.
Proof.
  unfold set_pointer. intros (o & Ho%at_Ok_inv & Hrun)%bind_Ok_inv.
  destruct o as [| | | |R C cells]; try done.
  apply bind_Ok_inv in Hrun as (cells' & Hset & [_ ->]%set_at_Ok_inv).
  exists R, C, cells, cells'. repeat split; try done.
  intros x. eapply set_at2_in_grid; eauto.
Qed.

Lemma getCell_inv (this : loc) (row col : nat) (h : store) (p : loc) :
  getCell this row col h = Ok p ->
  exists R C cells, h !! this = Some (OTable R C cells) /\ in_grid cells p.
Proof.
  unfold getCell. intros (o & Ho%at_Ok_inv & Hrun)%bind_Ok_inv.
  destruct o as [| | | |R C cells]; try done.
  exists R, C, cells. split; [done|]. eapply at2_in_grid; eauto.
Qed.

Lemma setText_inv (cell : loc) (text : str) (h h' : store) :
  setText cell text h = Ok h' ->
  exists o', h' = <[cell := o']> h /\ forall R C cells, h !! cell <> Some (OTable R C cells).
Proof.
  unfold setText. intros (o & Ho%at_Ok_inv & Hrun)%bind_Ok_inv.
  destruct o; try done. apply set_at_Ok_inv in Hrun as [_ ->].
  eexists. split; [done|]. intros R C cells. by rewrite Ho.
Qed.

Lemma addRow_inv (cell : loc) (line : str) (h h' : store) :
  addRow cell line h = Ok h' ->
  exists o', h' = <[cell := o']> h /\ forall R C cells, h !! cell <> Some (OTable R C cells).
Proof.
  unfold addRow. intros (o & Ho%at_Ok_inv & Hrun)%bind_Ok_inv.
  destruct o; try done. apply set_at_Ok_inv in Hrun as [_ ->].
  eexists. split; [done|]. intros R C cells. by rewrite Ho.
Qed.

Lemma assign_inv (this other : loc) (h h' : store) :
  assign this other h = Ok h' ->
  h' = h
  \/ exists k R C cells cells',
       h' = <[this := OTable R C cells']> (h ++ k)
       /\ h !! other = Some (OTable R C cells)
       /\ grid_above (length h) cells'.
Proof.
  unfold assign. case_decide; [intros [= <-]; by left|].
  intros (o & Ho%at_Ok_inv & Hrun)%bind_Ok_inv.
  destruct o as [| | | |R C cells]; try done.
  apply bind_Ok_inv in Hrun as ([cells' h1] & [[k ->] Hf]%clone_cells_inv
                                & [_ ->]%set_at_Ok_inv).
  right. by exists k, R, C, cells, cells'.
Qed.

(** ** Changes of a table stay within the table, its cells and new objects *)

Section Confined.
Context (h1 : store) (t : loc) (cells1 : list (list loc)).

Lemma confined_refl (R C : nat) :
  h1 !! t = Some (OTable R C cells1) -> confined h1 t cells1 h1.
Proof.
  intros Ht. split; [done|]. split; [done|]. exists R, C, cells1. split; [done|].
  intros p Hp. by left.
Qed.

Lemma confined_set_pointer (h2 k h3 : store) (row col : nat) (p : loc) :
  confined h1 t cells1 h2 -> length h1 <= p ->
  set_pointer t row col p (h2 ++ k) = Ok h3 ->
  confined h1 t cells1 h3.
Proof.
  intros (Hlen & Hsame & R2 & C2 & cells2 & Ht & Hin) Hp
         (R & C & cells & cells' & Ht' & -> & Hin')%set_pointer_inv.
  assert (t < length h2) as Hlt by (by eapply lookup_lt_Some).
  rewrite lookup_app_l in Ht' by done. rewrite Ht in Ht'. injection Ht' as <- <- <-.
  split; [rewrite length_insert, length_app; lia|]. split.
  - intros x Hx Hxt Hxg. rewrite list_lookup_insert_ne by done.
    rewrite lookup_app_l by lia. by apply Hsame.
  - exists R2, C2, cells'. split.
    + rewrite list_lookup_insert_eq; [done|]. rewrite length_app. lia.
    + intros x [Hx| ->]%Hin'; [by apply Hin|by right].
Qed.

Lemma confined_write_cell (h2 : store) (cell : loc) (o' : object) (row col : nat) :
  confined h1 t cells1 h2 ->
  getCell t row col h2 = Ok cell ->
  (forall R C cells, h2 !! cell <> Some (OTable R C cells)) ->
  confined h1 t cells1 (<[cell := o']> h2).
Proof.
  intros (Hlen & Hsame & R2 & C2 & cells2 & Ht & Hin)
         (R & C & cells & Ht' & Hcell)%getCell_inv Hno.
  rewrite Ht in Ht'. injection Ht' as <- <- <-.
  assert (cell <> t) as Hne by (intros ->; by eapply Hno).
  split; [by rewrite length_insert|]. split.
  - intros x Hx Hxt Hxg. rewrite list_lookup_insert_ne; [by apply Hsame|].
    intros <-. destruct (Hin cell Hcell); [done|lia].
  - exists R2, C2, cells2. split; [|done]. by rewrite list_lookup_insert_ne.
Qed.

Lemma confined_mutate (h2 h3 : store) (m : mutation) :
  confined h1 t cells1 h2 -> mutate t m h2 = Ok h3 -> confined h1 t cells1 h3.
Proof.
  intros Hconf. pose proof Hconf as (Hlen & Hsame & R2 & C2 & cells2 & Ht & Hin).
  destruct m as [row col cell|row col table|row col text|row col line|other];
    cbn [mutate].
  - unfold setCell.
    intros ([p h2'] & (-> & o & -> & _)%Clone_inv & Hset)%bind_Ok_inv.
    eapply confined_set_pointer; [exact Hconf| |exact Hset]. lia.
  - unfold setCell_table.
    intros ([p h2'] & (Hp & k & ->)%new_TableCell_inv & Hset)%bind_Ok_inv.
    eapply confined_set_pointer; [exact Hconf| |exact Hset]. lia.
  - intros (cell & Hget & (o' & -> & Hno)%setText_inv)%bind_Ok_inv.
    by eapply confined_write_cell.
  - intros (cell & Hget & (o' & -> & Hno)%addRow_inv)%bind_Ok_inv.
    by eapply confined_write_cell.
  - intros [->|(k & R & C & cells & cells' & -> & _ & Hf)]%assign_inv; [done|].
    assert (t < length h2) as Hlt by (by eapply lookup_lt_Some).
    split; [rewrite length_insert, length_app; lia|]. split.
    + intros x Hx Hxt Hxg. rewrite list_lookup_insert_ne by done.
      rewrite lookup_app_l by lia. by apply Hsame.
    + exists R, C, cells'. split.
      * rewrite list_lookup_insert_eq; [done|]. rewrite length_app. lia.
      * intros p (r & Hr & Hp). right.
        pose proof (proj1 (Forall_forall _ _) (proj1 (Forall_forall _ _) Hf r Hr) p Hp).
        simpl in *. lia.
Qed.

Lemma confined_mutate_all (ms : list mutation) (h2 h3 : store) :
  confined h1 t cells1 h2 -> mutate_all t ms h2 = Ok h3 -> confined h1 t cells1 h3.
Proof.
  revert h2. induction ms as [|m ms IH]; intros h2 Hconf; cbn [mutate_all].
  - by intros [= <-].
  - intros (h2' & Hm & Hrest)%bind_Ok_inv. eapply IH; [|exact Hrest].
    by eapply confined_mutate.
Qed.

(** What is confined to a table that owns its cells is not seen from a cell
    of another table. *)
Lemma confined_frame (h2 : store) (fuel : nat) (cell : loc) (v : CBase) :
  owned h1 t -> (exists R C, h1 !! t = Some (OTable R C cells1)) ->
  confined h1 t cells1 h2 ->
  cell <> t -> ~ in_grid cells1 cell ->
  load fuel h1 cell = Some v -> load fuel h2 cell = Some v.
Proof.
  intros Hown (R & C & Ht) (Hlen & Hsame & _) Hct Hcg Hload.
  apply (load_frame (fun x => x = t \/ in_grid cells1 x \/ length h1 <= x) h1);
    try done.
  - intros x Hx. apply Hsame; [lia|tauto|tauto].
  - intros x o p Hx Ho Hp Hlt.
    destruct (Hown x o p Ho Hp) as [Hpt Hpg].
    intros [->|[Hg|?]]; [done| |lia].
    eapply (Hpg ltac:(tauto)); [exact Ht|]. exact Hg.
  - apply load_lt in Hload. intros [?|[?|?]]; [done|done|lia].
Qed.
End Confined.

Lemma in_grid_set_loc (cells : list (list loc)) (r c : nat) (q p : loc) :
  in_grid (set_loc cells r c q) p -> in_grid cells p \/ p = q.
Proof.
  unfold set_loc. intros (row & [i Hi]%list_elem_of_lookup_1 & Hp).
  destruct (decide (i = r)) as [->|Hne].
  - destruct (decide (r < length cells)) as [Hr|Hr].
    + rewrite list_lookup_insert_eq in Hi by done. injection Hi as <-.
      apply list_elem_of_lookup_1 in Hp as [j Hj].
      assert (cells !!! r ∈ cells) as Hin.
      { eapply list_elem_of_lookup_2. by apply list_lookup_lookup_total_lt. }
      destruct (decide (j = c)) as [->|Hne].
      * destruct (decide (c < length (cells !!! r))) as [Hc|Hc].
        -- rewrite list_lookup_insert_eq in Hj by done. injection Hj as <-. by right.
        -- rewrite list_insert_ge in Hj by lia. left. exists (cells !!! r).
           split; [done|]. by eapply list_elem_of_lookup_2.
      * rewrite list_lookup_insert_ne in Hj by done. left. exists (cells !!! r).
        split; [done|]. by eapply list_elem_of_lookup_2.
    + rewrite list_insert_ge in Hi by lia. left. exists row.
      split; [by eapply list_elem_of_lookup_2|done].
  - rewrite list_lookup_insert_ne in Hi by done. left. exists row.
    split; [by eapply list_elem_of_lookup_2|done].
Qed.

Lemma at2_set_loc (rows cols : nat) (cells : list (list loc)) (r c : nat) (q : loc) :
  grid_shape rows cols cells -> r < rows -> c < cols ->
  at2 (set_loc cells r c q) r c = Ok q.
Proof.
  intros [Hlen Hall] Hr Hc. unfold at2, set_loc.
  rewrite (at_Ok _ r (<[c := q]> (cells !!! r)))
    by (apply list_lookup_insert_eq; lia). ok.
  apply at_Ok, list_lookup_insert_eq.
  rewrite (proj1 (Forall_lookup _ _) Hall r (cells !!! r)); [done|].
  apply list_lookup_lookup_total_lt. lia.
Qed.

(** A table of the program still owns its cells after it was embedded into
    another table. *)
Lemma owned_after_embedding (h k : store) (src dst : loc) (RS CS RD CD : nat)
    (cellsS cellsD : list (list loc)) (r c : nat) (q : loc) :
  owned h src -> src <> dst ->
  h !! src = Some (OTable RS CS cellsS) ->
  h !! dst = Some (OTable RD CD cellsD) ->
  (forall x, in_grid cellsS x -> x < length h) ->
  length h <= q ->
  Forall (fresh_or_copied h cellsS) k ->
  owned (<[dst := OTable RD CD (set_loc cellsD r c q)]> (h ++ k)) src.
Proof.
  intros Hown Hne Hsrc Hdst Hvalid Hq Hk.
  assert (src < length h) as Hslt by (by eapply lookup_lt_Some).
  assert (dst < length h) as Hdlt by (by eapply lookup_lt_Some).
  assert ((<[dst := OTable RD CD (set_loc cellsD r c q)]> (h ++ k)) !! src
          = Some (OTable RS CS cellsS)) as Hsrc'.
  { rewrite list_lookup_insert_ne by done. by rewrite lookup_app_l. }
  assert (forall p, length h <= p -> p <> src /\ ~ in_grid cellsS p) as Hfresh.
  { intros p Hp. split; [lia|]. intros Hg%Hvalid. lia. }
  assert (forall x o p, h !! x = Some o -> points_to o p -> x <> src ->
                        p <> src /\ ~ in_grid cellsS p) as Hold.
  { intros x o p Ho Hp Hx. destruct (Hown x o p Ho Hp) as [Hps Hpg].
    split; [done|]. by apply (Hpg Hx _ Hsrc). }
  enough (forall x o p,
            (<[dst := OTable RD CD (set_loc cellsD r c q)]> (h ++ k)) !! x = Some o ->
            points_to o p -> p <> src /\ (x <> src -> ~ in_grid cellsS p)) as Hall.
  { intros x o p Ho Hp. destruct (Hall x o p Ho Hp) as [Hps Hpg].
    split; [done|]. intros Hx o'. rewrite Hsrc'. intros [= <-]. by apply Hpg. }
  intros x o p Ho Hp.
  destruct (decide (x = dst)) as [->|Hxd].
  - rewrite list_lookup_insert_eq in Ho by (rewrite length_app; lia).
    injection Ho as <-.
    apply in_grid_set_loc in Hp as [Hp| ->].
    + destruct (Hold dst _ p Hdst Hp) as [? ?]; [done|]. done.
    + destruct (Hfresh q Hq). done.
  - rewrite list_lookup_insert_ne in Ho by done.
    destruct (decide (x < length h)) as [Hlt|Hge].
    + rewrite lookup_app_l in Ho by done.
      destruct (Hown x o p Ho Hp) as [Hps Hpg]. split; [done|].
      intros Hx. by apply (Hpg Hx _ Hsrc).
    + rewrite lookup_app_r in Ho by lia. apply list_elem_of_lookup_2 in Ho.
      destruct (proj1 (Forall_forall _ _) Hk o Ho p Hp)
        as [Hp'|(row & x' & o' & Hrow & Hx' & Ho' & Hno & Hp')].
      * destruct (Hfresh p Hp'). done.
      * destruct (Hold x' o' p Ho' Hp'); [|done].
        intros ->. rewrite Hsrc in Ho'. injection Ho' as <-. by eapply Hno.
Qed.

(** C3. Let [src] and [dst] be two tables of the program and [(r, c)] a cell
    of [dst].  After [dst.setCell(r, c, src)] the cell [(r, c)] of [dst] has
    the value [src] had at the call, and it keeps this value, hence its sizes
    and its output, whatever is then done to [src]: cells replaced, texts and
    images of its cells changed in place, [src] assigned to. *)
Theorem snapshot_frozen (h : store) (src dst : loc) (S D : CTable) (r c : nat) :
  reads_table h src S -> wf_table S ->
  reads_table h dst D -> wf_table D ->
  r < Rows D -> c < Cols D ->
  src <> dst -> owned h src -> unreferenced h dst ->
  exists h1 q,
    setCell_table dst r c src h = Ok h1
    /\ getCell dst r c h1 = Ok q
    /\ reads h1 q (CTableCell S)
    /\ forall ms h2,
         mutate_all src ms h1 = Ok h2 ->
         getCell dst r c h2 = Ok q
         /\ reads h2 q (CTableCell S)
         /\ forall height width out,
              Output_at h2 q height width out <-> Output_at h1 q height width out.
Proof.
  intros [n Hsrc] HwfS [m Hdst] HwfD Hr Hc Hne Hown Hfree.
  apply (load_table_mono n (n `max` m)) in Hsrc; [|lia].
  apply (load_table_mono m (n `max` m)) in Hdst; [|lia].
  pose proof HwfS as [HshapeS _]%wf_cell_TableCell.
  pose proof HwfD as [HshapeD _]%wf_cell_TableCell.
  destruct (setCell_table_spec _ h src dst S D r c Hsrc HshapeS Hdst HshapeD Hr Hc Hfree)
    as (cellsS & cellsD & k & q & HsrcO & HdstO & Hrun & Hq & Hk & Hload & _).
  set (h1 := <[dst := OTable (Rows D) (Cols D) (set_loc cellsD r c q)]> (h ++ k)) in *.
  assert (src < length h) as Hslt by (by eapply lookup_lt_Some).
  assert (dst < length h) as Hdlt by (by eapply lookup_lt_Some).
  assert (grid_loads (n `max` m) h cellsS (Cells S)) as HgS.
  { apply load_table_Some in Hsrc as (cells & Hobj & Hg).
    rewrite HsrcO in Hobj. injection Hobj as <-. by apply grid_loads_load_grid. }
  assert (grid_loads (n `max` m) h cellsD (Cells D)) as HgD.
  { apply load_table_Some in Hdst as (cells & Hobj & Hg).
    rewrite HdstO in Hobj. injection Hobj as <-. by apply grid_loads_load_grid. }
  assert (forall x, in_grid cellsS x -> x < length h) as Hvalid.
  { intros x (row & Hrow & Hx).
    destruct (grid_loads_elem _ _ _ _ _ _ HgS Hrow Hx) as [v Hv]. by eapply load_lt. }
  assert (h1 !! dst = Some (OTable (Rows D) (Cols D) (set_loc cellsD r c q))) as Hdst1.
  { unfold h1. rewrite list_lookup_insert_eq; [done|]. rewrite length_app. lia. }
  assert (h1 !! src = Some (OTable (Rows S) (Cols S) cellsS)) as Hsrc1.
  { unfold h1. rewrite list_lookup_insert_ne by done. by rewrite lookup_app_l. }
  assert (at2 (set_loc cellsD r c q) r c = Ok q) as Hat.
  { apply (at2_set_loc (Rows D) (Cols D)); try done.
    by apply (grid_loads_shape _ _ _ _ _ _ HgD). }
  assert (owned h1 src) as Hown1.
  { eapply owned_after_embedding; eauto. lia. }
  exists h1, q. split; [exact Hrun|]. split.
  { unfold getCell. run (at_Ok _ _ _ Hdst1). exact Hat. }
  assert (reads h1 q (CTableCell S)) as Hreads1 by (by eexists).
  split; [exact Hreads1|].
  intros ms h2 Hms.
  enough (getCell dst r c h2 = Ok q /\ reads h2 q (CTableCell S)) as [Hget Hreads2].
  { split; [done|]. split; [done|]. intros height width out.
    split; intros (v & Hv & Hout).
    - rewrite (reads_deterministic _ _ _ _ Hv Hreads2) in Hout. by exists (CTableCell S).
    - rewrite (reads_deterministic _ _ _ _ Hv Hreads1) in Hout. by exists (CTableCell S). }
  pose proof (confined_mutate_all h1 src cellsS ms h1 h2
                (confined_refl h1 src cellsS _ _ Hsrc1) Hms) as Hconf.
  assert (length h1 = length (h ++ k)) as Hlen1 by (unfold h1; by rewrite length_insert).
  split.
  - destruct Hconf as (_ & Hsame & _).
    unfold getCell. rewrite (at_Ok _ dst (OTable (Rows D) (Cols D) (set_loc cellsD r c q))).
    + ok. exact Hat.
    + rewrite Hsame; [done| |done|].
      * rewrite Hlen1, length_app. lia.
      * intros (row & Hrow & Hx).
        destruct (grid_loads_elem _ _ _ _ _ _ HgS Hrow Hx) as [v Hv].
        by eapply load_not_table.
  - eexists. eapply (confined_frame h1 src cellsS); eauto.
    + lia.
    + intros Hg%Hvalid. lia.
Qed.

Lemma snapshot_frozen_witness :
  exists h1 q,
    setCell_table example_t 0 1 example_u example_store = Ok h1
    /\ reads h1 q (CTableCell example_U).
Proof.
  destruct (snapshot_frozen example_store example_u example_t example_U example_T 0 1)
    as (h1 & q & Hrun & _ & Hreads & _).
  - exists 1. reflexivity.
  - vm_compute. exact I.
  - exists 1. reflexivity.
  - vm_compute. exact I.
  - simpl. lia.
  - simpl. lia.
  - unfold example_u, example_t. lia.
  - apply owned_list_correct, (bool_decide_unpack _). vm_compute. exact I.
  - apply unreferenced_list_correct, (bool_decide_unpack _). vm_compute. exact I.
  - exists h1, q. split; [exact Hrun|exact Hreads].
Defined.

(** ** Equality *)

Lemma all_of_true (test : nat -> outcome bool) (ix : list nat) :
  (forall i, i ∈ ix -> test i = Ok true) -> all_of test ix = Ok true.
Proof.
  induction ix as [|i ix IH]; intros H; [done|]. cbn [all_of].
  rewrite (H i) by apply list_elem_of_here. ok.
  apply IH. intros j Hj. apply H. by apply list_elem_of_further.
Qed.

(** A well-formed cell is equal to itself. *)
Lemma cell_equals_refl (cell : CBase) : wf_cell cell -> cell_equals cell cell = Ok true.
Proof.
  unfold cell_equals.
  induction cell as [|allLines formatType|imageData|t IH] using CBase_nested_ind;
    intros Hwf; simpl.
  - done.
  - by rewrite !bool_decide_eq_true_2.
  - by rewrite !bool_decide_eq_true_2.
  - apply wf_cell_TableCell in Hwf as [Hshape Hwf].
    unfold table_equals. simpl. rewrite decide_False by tauto.
    apply all_of_true. intros r Hr%elem_of_seq.
    apply all_of_true. intros c Hc%elem_of_seq.
    destruct (grid_shape_lookup _ _ _ r c Hshape) as (row & Hrow & Hcell); [lia|lia|].
    unfold at2.
    rewrite (at_Ok _ r (map (fun c => vEquals (vtbl c)) row))
      by (by rewrite list_lookup_fmap, Hrow). ok.
    rewrite (at_Ok _ c (vEquals (vtbl ((Cells t !!! r) !!! c))))
      by (by rewrite list_lookup_fmap, Hcell). ok.
    run (at_Ok _ _ _ Hrow). run (at_Ok _ _ _ Hcell).
    assert (Forall wf_cell row /\ Forall (fun c => wf_cell c ->
              vEquals (vtbl c) c = Ok true) row) as [Hwfr IHr].
    { split; eapply (proj1 (Forall_lookup _ _)); eauto. }
    eapply (proj1 (Forall_lookup _ _) IHr); [exact Hcell|].
    eapply (proj1 (Forall_lookup _ _) Hwfr); exact Hcell.
Qed.

(** C4. The clone of a cell of any of the four kinds is a new object with the
    value of the original, so the two compare equal; and whatever is then
    written to the clone ([setText], [addRow], or any other change of that
    object and of objects made later), the original keeps its value. *)
Theorem Clone_equal_independent (h : store) (this : loc) (c : CBase) :
  reads h this c -> wf_cell c ->
  exists copy h',
    Clone this h = Ok (copy, h')
    /\ copy <> this
    /\ reads h' copy c
    /\ reads h' this c
    /\ equal_at h' copy this
    /\ (forall text h'', setText copy text h' = Ok h'' -> reads h'' this c)
    /\ (forall line h'', addRow copy line h' = Ok h'' -> reads h'' this c)
    /\ (forall h'', (forall x, x < length h -> h'' !! x = h' !! x) -> reads h'' this c).
Proof.
  intros [fuel Hload] Hwf.
  destruct (Clone_load fuel h this c Hload) as (o & Ho & Hno & Hrun & Hnew).
  pose proof (load_lt _ _ _ _ Hload) as Hlt.
  assert (forall h'', (forall x, x < length h -> h'' !! x = (h ++ [o]) !! x) ->
                      reads h'' this c) as Hframe.
  { intros h'' Hsame. exists fuel.
    apply (load_frame (fun x => length h <= x) h); try done.
    - intros x Hx. rewrite Hsame by lia. apply lookup_app_l. lia.
    - intros. lia.
    - lia. }
  exists (length h), (h ++ [o]). split; [exact Hrun|]. split; [lia|].
  split; [by exists fuel|]. split; [by apply Hframe|].
  split.
  { exists c, c. split; [by exists fuel|]. split; [by apply Hframe|].
    by apply cell_equals_refl. }
  split; [|split; [|exact Hframe]].
  - intros text h'' (o' & -> & _)%setText_inv. apply Hframe.
    intros x Hx. apply list_lookup_insert_ne. lia.
  - intros line h'' (o' & -> & _)%addRow_inv. apply Hframe.
    intros x Hx. apply list_lookup_insert_ne. lia.
Qed.

Lemma Clone_equal_independent_witness :
  exists copy h',
    Clone 4 example_store = Ok (copy, h')
    /\ reads h' copy (CText [lit "ab"] ALIGN_LEFT)
    /\ equal_at h' copy 4.
Proof.
  destruct (Clone_equal_independent example_store 4 (CText [lit "ab"] ALIGN_LEFT))
    as (copy & h' & Hrun & _ & Hcopy & _ & Heq & _).
  - exists 1. reflexivity.
  - vm_compute. exact I.
  - exists copy, h'. split; [exact Hrun|]. split; [exact Hcopy|exact Heq].
Defined.

(** * The claims about bounds and dimensions *)

Lemma at2_out_of_range {A : Type} (rows cols : nat) (m : list (list A)) (i j : nat) :
  grid_shape rows cols m -> rows <= i \/ cols <= j -> at2 m i j = Undefined.
Proof.
  intros [Hlen Hall] Hout. unfold at2.
  destruct (m !! i) as [row|] eqn:Hrow.
  - run (at_Ok _ _ _ Hrow). apply at_Undefined.
    rewrite (proj1 (Forall_lookup _ _) Hall i row Hrow).
    apply lookup_lt_Some in Hrow. lia.
  - unfold at_. by rewrite Hrow.
Qed.

Lemma set_at2_out_of_range {A : Type} (rows cols : nat) (m : list (list A))
    (i j : nat) (x : A) :
  grid_shape rows cols m -> rows <= i \/ cols <= j -> set_at2 m i j x = Undefined.
Proof.
  intros [Hlen Hall] Hout. unfold set_at2.
  destruct (m !! i) as [row|] eqn:Hrow.
  - run (at_Ok _ _ _ Hrow). rewrite set_at_Undefined; [done|].
    rewrite (proj1 (Forall_lookup _ _) Hall i row Hrow).
    apply lookup_lt_Some in Hrow. lia.
  - unfold at_. by rewrite Hrow.
Qed.

Lemma set_pointer_out_of_range (h k : store) (t : loc) (T : CTable)
    (row col : nat) (p : loc) :
  reads_table h t T -> wf_table T -> Rows T <= row \/ Cols T <= col ->
  set_pointer t row col p (h ++ k) = Undefined.
Proof.
  intros [fuel (cells & Ht & Hg%grid_loads_load_grid)%load_table_Some]
         [Hshape _]%wf_cell_TableCell Hout.
  unfold set_pointer.
  rewrite (at_Ok _ t (OTable (Rows T) (Cols T) cells))
    by (rewrite lookup_app_l; [done|by eapply lookup_lt_Some]). ok.
  rewrite (set_at2_out_of_range (Rows T) (Cols T)); [done| |done].
  by apply (grid_loads_shape _ _ _ _ _ _ Hg).
Qed.

(** C6, as the code has it.  [getCell] and both [setCell] index the grid
    without a check: with [row >= rows] or [col >= cols] the call has
    undefined behaviour.  No error is raised and nothing is known of the
    table afterwards. *)
Theorem out_of_range_is_undefined (h : store) (t : loc) (T : CTable) (row col : nat) :
  reads_table h t T -> wf_table T -> Rows T <= row \/ Cols T <= col ->
  getCell t row col h = Undefined
  /\ (forall cell v, reads h cell v -> setCell t row col cell h = Undefined)
  /\ (forall u U, reads_table h u U -> wf_table U ->
        setCell_table t row col u h = Undefined).
Proof.
  intros Hreads Hwf Hout. split; [|split].
  - destruct Hreads as [fuel (cells & Ht & Hg%grid_loads_load_grid)%load_table_Some].
    apply wf_cell_TableCell in Hwf as [Hshape _].
    unfold getCell. run (at_Ok _ _ _ Ht).
    apply (at2_out_of_range (Rows T) (Cols T)); [|done].
    by apply (grid_loads_shape _ _ _ _ _ _ Hg).
  - intros cell v [fuel Hcell].
    destruct (Clone_load _ _ _ _ Hcell) as (o & _ & _ & Hrun & _).
    unfold setCell. run Hrun. by eapply set_pointer_out_of_range.
  - intros u U [fuel Hu] [HshapeU _]%wf_cell_TableCell.
    destruct (new_TableCell_spec fuel h u U Hu HshapeU)
      as (cells & cells' & k & _ & Hrun & _).
    cbn zeta in Hrun. unfold setCell_table. run Hrun.
    rewrite <- app_assoc. by eapply set_pointer_out_of_range.
Qed.

Lemma out_of_range_is_undefined_witness :
  getCell example_t 1 0 example_store = Undefined.
Proof.
  refine (proj1 (out_of_range_is_undefined example_store example_t example_T 1 0 _ _ _)).
  - exists 1. reflexivity.
  - vm_compute. exact I.
  - left. simpl. lia.
Defined.

(** C6, as the specification has it, fails: out of range, neither [getCell]
    nor [setCell] raises an error. *)
Lemma out_of_range_raises_no_error :
  (~ exists e, getCell example_t 1 0 example_store = Throw e)
  /\ (~ exists e, setCell example_t 0 2 4 example_store = Throw e).
Proof. split; intros [e He]; vm_compute in He; discriminate He. Qed.

(** ** Dimensions *)

Lemma dims_insert_ne (h : store) (t x : loc) (o : object) :
  x <> t -> dims (<[x := o]> h) t = dims h t.
Proof. intros Hne. unfold dims. by rewrite list_lookup_insert_ne. Qed.

Lemma dims_extend (h k : store) (t : loc) (d : nat * nat) :
  dims h t = Some d -> dims (h ++ k) t = Some d.
Proof.
  unfold dims. destruct (h !! t) as [o|] eqn:Ho; [|done].
  by rewrite (lookup_app_l_Some _ _ _ _ Ho).
Qed.

Lemma dims_set_pointer (h h' : store) (t : loc) (row col : nat) (p : loc) (d : nat * nat) :
  dims h t = Some d -> set_pointer t row col p h = Ok h' -> dims h' t = Some d.
Proof.
  intros Hd (R & C & cells & cells' & Ht & -> & _)%set_pointer_inv.
  unfold dims in *. rewrite Ht in Hd.
  rewrite list_lookup_insert_eq by (by eapply lookup_lt_Some). done.
Qed.

Lemma dims_write_cell (h : store) (t cell : loc) (o' : object) (d : nat * nat) :
  dims h t = Some d -> (forall R C cells, h !! cell <> Some (OTable R C cells)) ->
  dims (<[cell := o']> h) t = Some d.
Proof.
  intros Hd Hno. rewrite dims_insert_ne; [done|]. intros ->.
  unfold dims in Hd. destruct (h !! t) as [[| | | |R C cells]|] eqn:Ho; try done.
  by eapply Hno.
Qed.

Lemma dims_mutate (h h' : store) (t : loc) (m : mutation) (d : nat * nat) :
  dims h t = Some d -> mutate t m h = Ok h' ->
  dims h' t = match m with Assign other => dims h other | _ => Some d end.
Proof.
  intros Hd. destruct m as [row col cell|row col table|row col text|row col line|other];
    cbn [mutate].
  - unfold setCell.
    intros ([p h1] & (-> & o & -> & _)%Clone_inv & Hset)%bind_Ok_inv.
    eapply dims_set_pointer; [|exact Hset]. by apply dims_extend.
  - unfold setCell_table.
    intros ([p h1] & (_ & k & ->)%new_TableCell_inv & Hset)%bind_Ok_inv.
    eapply dims_set_pointer; [|exact Hset]. by apply dims_extend.
  - intros (cell & _ & (o' & -> & Hno)%setText_inv)%bind_Ok_inv.
    by apply dims_write_cell.
  - intros (cell & _ & (o' & -> & Hno)%addRow_inv)%bind_Ok_inv.
    by apply dims_write_cell.
  - unfold assign. case_decide as Heq; [intros [= <-]; by subst|].
    intros (o & Ho%at_Ok_inv & Hrun)%bind_Ok_inv.
    destruct o as [| | | |R C cells]; try done.
    apply bind_Ok_inv in Hrun as ([cells' h1] & _ & [Hlt ->]%set_at_Ok_inv).
    unfold dims. rewrite list_lookup_insert_eq by done. by rewrite Ho.
Qed.

(** C8, as the code has it.  The row and column counts of a table do not
    change when its cells are replaced or changed in place, when it is
    streamed, compared or read; assignment [t = u] gives [t] the counts of
    [u]. *)
Theorem dims_fixed_except_assignment (h h' : store) (t : loc) (d : nat * nat) :
  dims h t = Some d ->
  (forall ops, Forall (fun op => ~ is_assignment op) ops ->
               exec_all t ops h = Ok h' -> dims h' t = Some d)
  /\ (forall other, exec t (Mutation (Assign other)) h = Ok h' ->
                    dims h' t = dims h other).
Proof.
  intros Hd. split.
  - intros ops Hops. revert h Hd.
    induction Hops as [|op ops Hop _ IH]; intros h Hd; cbn [exec_all].
    + by intros [= <-].
    + intros (h1 & Hexec & Hrest)%bind_Ok_inv. eapply IH; [|exact Hrest].
      destruct op as [m| | |row col]; cbn [exec] in Hexec.
      * rewrite (dims_mutate _ _ _ _ _ Hd Hexec). by destruct m.
      * by injection Hexec as <-.
      * by injection Hexec as <-.
      * apply bind_Ok_inv in Hexec as (_ & _ & [= <-]). done.
  - intros other Hexec. cbn [exec] in Hexec.
    by rewrite (dims_mutate _ _ _ _ _ Hd Hexec).
Qed.

Lemma dims_fixed_except_assignment_witness :
  exists h',
    exec_all example_t
             [Mutation (SetCell 0 1 4); Render; Mutation (SetText 0 0 (lit "abc"))]
             example_store = Ok h'
    /\ dims h' 2 = Some (1, 2).
Proof.
  assert (exists h',
    exec_all example_t
             [Mutation (SetCell 0 1 4); Render; Mutation (SetText 0 0 (lit "abc"))]
             example_store = Ok h') as [h' Hrun].
  { eexists. vm_compute. reflexivity. }
  exists h'. split; [exact Hrun|].
  refine (proj1 (dims_fixed_except_assignment example_store h' example_t (1, 2) _)
                _ _ Hrun).
  - reflexivity.
  - repeat constructor; simpl; tauto.
Defined.

(** C8, as the specification has it, fails: an assignment from a table of
    other dimensions changes the counts. *)
Lemma assignment_changes_dims :
  exists h',
    exec example_t (Mutation (Assign example_u)) example_store = Ok h'
    /\ dims example_store example_t = Some (1, 2)
    /\ dims h' example_t = Some (1, 1).
Proof. eexists. vm_compute. done. Qed.

(** * The assertions of [main]

    The model runs [main] and obtains the texts its assertions expect, among
    them a row of empty cells without a content line, the snapshot of [t2]
    that the later [setText] does not change, and [t1] embedded in itself
    twice. *)
Example main_assertions :
  main_program = Ok (main_expected, [false; true; false]).
Proof. vm_compute. reflexivity. Qed.

(** * Every store of a program keeps its tables apart

    The hypotheses of the theorems on copies ([owned], [unreferenced], a
    well-formed value) hold in the empty store and are kept by the
    constructors and by every change of a table. *)

Lemma Forall_exists_Forall2 {A B : Type} (P : A -> B -> Prop) (l : list A) :
  Forall (fun x => exists y, P x y) l -> exists k, Forall2 P l k.
Proof.
  induction 1 as [|x l [y Hy] _ [k Hk]]; [by exists []|].
  exists (y :: k). by constructor.
Qed.

Lemma readable_row (h : store) (row : list loc) :
  Forall (readable h) row ->
  exists fuel vs, row_loads fuel h row vs /\ Forall wf_cell vs.
Proof.
  induction 1 as [|p row (v & [n Hn] & Hv) _ (m & vs & Hvs & Hwf)].
  - exists 0, []. split; constructor.
  - exists (n `max` m), (v :: vs). split; [|by constructor]. constructor.
    + apply (load_mono n); [lia|done].
    + eapply Forall2_impl; [exact Hvs|]. intros l w. apply load_mono. lia.
Qed.

Lemma readable_grid (h : store) (cells : list (list loc)) :
  Forall (Forall (readable h)) cells ->
  exists fuel vals, grid_loads fuel h cells vals /\ Forall (Forall wf_cell) vals.
Proof.
  induction 1 as [|row cells (n & vs & Hvs & Hwf)%readable_row _
                     (m & vals & Hvals & Hwfs)].
  - exists 0, []. split; constructor.
  - exists (n `max` m), (vs :: vals). split; [|by constructor]. constructor.
    + eapply Forall2_impl; [exact Hvs|]. intros l w. apply load_mono. lia.
    + eapply Forall2_impl; [exact Hvals|]. intros r ws Hr.
      eapply Forall2_impl; [exact Hr|]. intros l w. apply load_mono. lia.
Qed.

Lemma in_grid_Forall (P : loc -> Prop) (cells : list (list loc)) :
  (forall p, in_grid cells p -> P p) <-> Forall (Forall P) cells.
Proof.
  split.
  - intros H. apply Forall_forall. intros row Hrow. apply Forall_forall.
    intros p Hp. apply H. by exists row.
  - intros H p (row & Hrow & Hp).
    by apply (proj1 (Forall_forall _ _) (proj1 (Forall_forall _ _) H row Hrow)).
Qed.

(** A table has a well-formed value when its grid has the shape its counts
    say and its cells are readable. *)
Lemma table_ok_intro (h : store) (t : loc) (R C : nat) (cells : list (list loc)) :
  h !! t = Some (OTable R C cells) -> grid_shape R C cells ->
  (forall p, in_grid cells p -> readable h p) ->
  table_ok h t.
Proof.
  intros Ht Hshape Hcells%in_grid_Forall.
  destruct (readable_grid h cells Hcells) as (fuel & vals & Hvals & Hwf).
  exists (mkTable R C vals). split.
  - exists fuel. apply load_table_Some. exists cells. split; [done|].
    by apply grid_loads_load_grid.
  - apply wf_cell_TableCell. split; [|done]. simpl.
    by apply (grid_loads_shape _ _ _ _ _ _ Hvals).
Qed.

Lemma table_ok_elim (h : store) (t : loc) :
  table_ok h t ->
  exists R C cells,
    h !! t = Some (OTable R C cells) /\ grid_shape R C cells
    /\ forall p, in_grid cells p -> readable h p.
Proof.
  intros (T & [fuel (cells & Ht & Hg%grid_loads_load_grid)%load_table_Some]
            & [Hshape Hwf]%wf_cell_TableCell).
  exists (Rows T), (Cols T), cells. split; [done|]. split.
  - by apply (grid_loads_shape _ _ _ _ _ _ Hg).
  - intros p (row & [i Hi]%list_elem_of_lookup_1 & [j Hj]%list_elem_of_lookup_1).
    destruct (Forall2_lookup_l _ _ _ _ _ Hg Hi) as (vs & Hvs & Hr).
    destruct (Forall2_lookup_l _ _ _ _ _ Hr Hj) as (v & Hv & Hload).
    exists v. split; [by exists fuel|].
    pose proof (proj1 (Forall_lookup _ _) Hwf i vs Hvs) as Hrow.
    exact (proj1 (Forall_lookup _ _) Hrow j v Hv).
Qed.

Lemma readable_not_table (h : store) (p : loc) (R C : nat) (cells : list (list loc)) :
  readable h p -> h !! p <> Some (OTable R C cells).
Proof. intros (v & [fuel Hload] & _). by eapply load_not_table. Qed.

Lemma readable_lt (h : store) (p : loc) : readable h p -> p < length h.
Proof. intros (v & [fuel Hload] & _). by eapply load_lt. Qed.

Lemma readable_extend (h k : store) (p : loc) : readable h p -> readable (h ++ k) p.
Proof.
  intros (v & [fuel Hload] & Hwf). exists v. split; [|done].
  exists fuel. by apply load_extend.
Qed.

Lemma table_ok_extend (h k : store) (t : loc) : table_ok h t -> table_ok (h ++ k) t.
Proof.
  intros (T & [fuel Hload] & Hwf). exists T. split; [|done].
  exists fuel. by apply load_table_extend.
Qed.

(** New objects that respect the tables keep the store a program store. *)
Lemma program_store_extend (ts : list loc) (h k : store) :
  program_store ts h -> Forall (respects ts h) k -> program_store ts (h ++ k).
Proof.
  intros [Hclosed Hts] Hk.
  assert (forall x o, (h ++ k) !! x = Some o -> h !! x = Some o \/ respects ts h o)
    as Hobj.
  { intros x o Ho. destruct (decide (x < length h)) as [Hlt|Hge].
    - left. by rewrite lookup_app_l in Ho.
    - right. rewrite lookup_app_r in Ho by lia.
      eapply (proj1 (Forall_forall _ _) Hk). by eapply list_elem_of_lookup_2. }
  split.
  - intros x o p [Ho|Hr]%Hobj Hp; rewrite length_app.
    + pose proof (Hclosed x o p Ho Hp). lia.
    + destruct (Hr p Hp). lia.
  - intros t Ht. destruct (Hts t Ht) as [Hown Hok].
    split; [|by apply table_ok_extend].
    destruct (table_ok_elim _ _ Hok) as (R & C & cells & Hobj' & _).
    assert ((h ++ k) !! t = Some (OTable R C cells)) as Ht'.
    { rewrite lookup_app_l; [done|]. by eapply lookup_lt_Some. }
    intros x o p Ho Hp. destruct (decide (x < length h)) as [Hlt|Hge].
    + rewrite lookup_app_l in Ho by done. destruct (Hown x o p Ho Hp) as [? Hg].
      split; [done|]. intros Hx o'. rewrite Ht'. intros [= <-]. by apply (Hg Hx).
    + rewrite lookup_app_r in Ho by lia. apply list_elem_of_lookup_2 in Ho.
      destruct (proj1 (Forall_forall _ _) Hk o Ho p Hp) as [_ Hr].
      destruct (Hr t Ht) as [? Hg]. split; [done|].
      intros _ o'. rewrite Ht'. intros [= <-]. by apply Hg.
Qed.

(** The copy of the object of a readable cell respects the tables. *)
Lemma copy_respects (ts : list loc) (h : store) (x : loc) (o : object) :
  program_store ts h -> h !! x = Some o -> (forall R C cs, o <> OTable R C cs) ->
  respects ts h o.
Proof.
  intros [Hclosed Hts] Ho Hno p Hp. split; [by eapply Hclosed|].
  intros t Ht. destruct (Hts t Ht) as [Hown Hok].
  destruct (Hown x o p Ho Hp) as [? Hg]. split; [done|].
  apply Hg. intros ->.
  destruct (table_ok_elim _ _ Hok) as (R & C & cells & Hobj & _).
  rewrite Hobj in Ho. injection Ho as <-. by eapply Hno.
Qed.

(** In a closed store the objects to come are unreferenced. *)
Lemma closed_unreferenced (h : store) (p : loc) :
  closed h -> length h <= p -> unreferenced h p.
Proof. intros Hclosed Hp x o Ho Hpt. pose proof (Hclosed x o p Ho Hpt). lia. Qed.

Lemma table_ok_table (h : store) (t : loc) :
  table_ok h t -> exists R C cells, h !! t = Some (OTable R C cells).
Proof. intros (R & C & cells & Ht & _)%table_ok_elim. eauto. Qed.

Lemma readable_ne_table (h : store) (p t : loc) :
  readable h p -> table_ok h t -> p <> t.
Proof.
  intros Hp (R & C & cells & Ht)%table_ok_table ->. by eapply readable_not_table.
Qed.

Section WriteGrid.
Context (ts : list loc) (h : store) (t : loc).
Context (R C : nat) (cells : list (list loc)) (R' C' : nat) (cells' : list (list loc)).
Hypothesis Hstore : program_store ts h.
Hypothesis Ht : t ∈ ts.
Hypothesis Hobj : h !! t = Some (OTable R C cells).
Hypothesis Hshape : grid_shape R' C' cells'.
Hypothesis Hcells : forall p, in_grid cells' p ->
  readable h p /\ (in_grid cells p \/ unreferenced h p).

Let h' := <[t := OTable R' C' cells']> h.

Lemma write_grid_lookup_t : h' !! t = Some (OTable R' C' cells').
Proof. apply list_lookup_insert_eq. by eapply lookup_lt_Some. Qed.

Lemma write_grid_readable (p : loc) : readable h p -> readable h' p.
Proof.
  destruct Hstore as [_ Hts]. destruct (Hts t Ht) as [Hown Hok].
  intros Hp. pose proof (readable_ne_table _ _ _ Hp Hok) as Hne.
  destruct Hp as (v & [fuel Hload] & Hwf). exists v. split; [|done]. exists fuel.
  apply (load_frame (fun x => x = t) h); try done.
  - intros x Hx. by apply list_lookup_insert_ne.
  - intros x o q Hx Ho Hq _. by destruct (Hown x o q Ho Hq).
Qed.

(** Writing a grid of readable cells, each a cell the table had or an
    object nothing points to, keeps the store a program store. *)
Lemma program_store_write_grid : program_store ts h'.
Proof.
  pose proof Hstore as [Hclosed Hts]. split.
  - intros x o p Ho Hp. unfold h'. rewrite length_insert.
    destruct (decide (x = t)) as [->|Hne].
    + rewrite write_grid_lookup_t in Ho. injection Ho as <-.
      apply readable_lt. by apply Hcells.
    + unfold h' in Ho. rewrite list_lookup_insert_ne in Ho by done.
      by eapply Hclosed.
  - intros t2 Ht2. destruct (Hts t2 Ht2) as [Hown2 Hok2].
    destruct (Hts t Ht) as [Hown Hok]. split.
    + intros x o p Ho Hp. destruct (decide (x = t)) as [->|Hne].
      * rewrite write_grid_lookup_t in Ho. injection Ho as <-.
        destruct (Hcells p Hp) as [Hread Hfrom]. split.
        { by eapply readable_ne_table. }
        intros Hne o' Ho'. unfold h' in Ho'.
        rewrite list_lookup_insert_ne in Ho' by done.
        destruct Hfrom as [Hin|Hfree]; [|by apply (Hfree t2 o' Ho')].
        destruct (Hown2 t _ p Hobj Hin) as [_ Hg]. by apply Hg.
      * unfold h' in Ho. rewrite list_lookup_insert_ne in Ho by done.
        destruct (Hown2 x o p Ho Hp) as [Hpt Hg]. split; [done|].
        intros Hx o' Ho'. destruct (decide (t2 = t)) as [->|Hne2].
        -- rewrite write_grid_lookup_t in Ho'. injection Ho' as <-. intros Hin.
           destruct (Hcells p Hin) as [_ [Hin'|Hfree]].
           ++ by apply (Hg Hx _ Hobj).
           ++ by apply (Hfree x o Ho).
        -- unfold h' in Ho'. rewrite list_lookup_insert_ne in Ho' by done.
           by apply (Hg Hx).
    + destruct (decide (t2 = t)) as [->|Hne2].
      * eapply table_ok_intro; [apply write_grid_lookup_t|done|].
        intros p Hp. apply write_grid_readable. by apply Hcells.
      * destruct (table_ok_elim _ _ Hok2) as (R2 & C2 & cells2 & Hobj2 & Hs2 & Hc2).
        eapply (table_ok_intro h' t2 R2 C2 cells2); [|done|].
        -- unfold h'. by rewrite list_lookup_insert_ne.
        -- intros p Hp. apply write_grid_readable. by apply Hc2.
Qed.
End WriteGrid.

Lemma plain_readable (h : store) (c : loc) (o : object) :
  plain o -> h !! c = Some o -> readable h c.
Proof.
  intros Hplain Ho. destruct o as [|allLines formatType|imageData| |]; try done.
  - exists CEmpty. split; [|done]. exists 1. by rewrite load_S, Ho.
  - exists (CText allLines formatType). split; [|done]. exists 1. by rewrite load_S, Ho.
  - exists (CImage imageData). split; [|done]. exists 1. by rewrite load_S, Ho.
Qed.

Lemma plain_no_pointer (o : object) (p : loc) : plain o -> ~ points_to o p.
Proof. destruct o; simpl; tauto. Qed.

(** Writing a text or an image over a text or an image of a table keeps the
    store a program store. *)
Lemma program_store_write_cell (ts : list loc) (h : store) (t c : loc)
    (R C : nat) (cells : list (list loc)) (o0 o : object) :
  program_store ts h -> t ∈ ts ->
  h !! t = Some (OTable R C cells) -> in_grid cells c ->
  h !! c = Some o0 -> plain o0 -> plain o ->
  program_store ts (<[c := o]> h).
Proof.
  intros [Hclosed Hts] Ht Hobj Hc Ho0 Hp0 Hp.
  assert (c < length h) as Hclt by (by eapply lookup_lt_Some).
  assert (forall t2, t2 ∈ ts -> c <> t2) as Hct.
  { intros t2 [_ (R2 & C2 & cells2 & Hobj2)%table_ok_table]%Hts ->.
    rewrite Hobj2 in Ho0. by injection Ho0 as <-. }
  assert (forall x o1 p, (<[c := o]> h) !! x = Some o1 -> points_to o1 p ->
                         x <> c /\ h !! x = Some o1) as Hold.
  { intros x o1 p Ho1 Hp1. destruct (decide (x = c)) as [->|Hne].
    - rewrite list_lookup_insert_eq in Ho1 by done. injection Ho1 as <-.
      by apply plain_no_pointer in Hp1.
    - by rewrite list_lookup_insert_ne in Ho1. }
  assert (forall p, readable h p -> readable (<[c := o]> h) p) as Hread.
  { intros p Hrp. destruct (decide (p = c)) as [->|Hne].
    - eapply plain_readable; [exact Hp|]. by apply list_lookup_insert_eq.
    - destruct Hrp as (v & [fuel Hload] & Hwf). exists v. split; [|done]. exists fuel.
      apply (load_frame (fun x => x = c \/ x ∈ ts) h); try done.
      + intros x Hx. apply list_lookup_insert_ne. intros <-. tauto.
      + intros x o1 q Hx Ho1 Hq _ [->|Hq'].
        * destruct (Hts t Ht) as [Hown _].
          destruct (Hown x o1 c Ho1 Hq) as [_ Hg].
          apply (Hg ltac:(intros ->; tauto) _ Hobj). exact Hc.
        * destruct (Hts q Hq') as [Hown _]. by destruct (Hown x o1 q Ho1 Hq).
      + intros [?|Hin]; [done|]. destruct (Hts p Hin) as [_ Hok].
        eapply readable_ne_table; [|exact Hok|done].
        exists v. split; [by exists fuel|done]. }
  split.
  - intros x o1 p Ho1 Hp1. destruct (Hold x o1 p Ho1 Hp1) as [_ Ho1'].
    rewrite length_insert. by eapply Hclosed.
  - intros t2 Ht2. destruct (Hts t2 Ht2) as [Hown2 Hok2].
    assert ((<[c := o]> h) !! t2 = h !! t2) as Hsame.
    { apply list_lookup_insert_ne. by apply Hct. }
    split.
    + intros x o1 p Ho1 Hp1. destruct (Hold x o1 p Ho1 Hp1) as [_ Ho1'].
      rewrite Hsame. by apply (Hown2 x o1 p).
    + destruct (table_ok_elim _ _ Hok2) as (R2 & C2 & cells2 & Hobj2 & Hs2 & Hc2).
      eapply (table_ok_intro _ t2 R2 C2 cells2); [by rewrite Hsame|done|].
      intros p Hpin. apply Hread. by apply Hc2.
Qed.

Lemma alloc_unreferenced (ts : list loc) (h : store) (o : object) :
  closed h -> respects ts h o -> unreferenced (h ++ [o]) (length h).
Proof.
  intros Hclosed Hr x o' Ho' Hp. destruct (decide (x < length h)) as [Hlt|Hge].
  - rewrite lookup_app_l in Ho' by done. pose proof (Hclosed x o' _ Ho' Hp). lia.
  - rewrite lookup_app_r in Ho' by lia.
    apply list_elem_of_lookup_2, list_elem_of_singleton in Ho' as ->.
    destruct (Hr _ Hp). lia.
Qed.

Lemma program_store_Clone (ts : list loc) (h : store) (x : loc) :
  program_store ts h -> readable h x ->
  exists o,
    Clone x h = Ok (length h, h ++ [o])
    /\ program_store ts (h ++ [o])
    /\ readable (h ++ [o]) (length h)
    /\ unreferenced (h ++ [o]) (length h).
Proof.
  intros Hstore (v & [fuel Hload] & Hwf).
  destruct (Clone_load _ _ _ _ Hload) as (o & Ho & Hno & Hrun & Hnew).
  pose proof (copy_respects ts h x o Hstore Ho Hno) as Hr.
  exists o. split; [done|]. split; [|split].
  - apply program_store_extend; [done|]. by constructor.
  - exists v. split; [by exists fuel|done].
  - eapply alloc_unreferenced; [apply Hstore|exact Hr].
Qed.

Lemma set_at2_Ok_inv (cells cells' : list (list loc)) (i j : nat) (p : loc) :
  set_at2 cells i j p = Ok cells' -> cells' = set_loc cells i j p.
Proof.
  unfold set_at2, set_loc.
  intros (row & Hrow%at_Ok_inv & (row' & [Hj ->]%set_at_Ok_inv
                                  & [Hi ->]%set_at_Ok_inv)%bind_Ok_inv)%bind_Ok_inv.
  by rewrite (list_lookup_total_correct _ _ _ Hrow).
Qed.

(** Storing a new, readable cell nothing points to in the grid of a table. *)
Lemma program_store_set_pointer (ts : list loc) (h h' : store) (t : loc)
    (row col : nat) (q : loc) :
  program_store ts h -> t ∈ ts -> readable h q -> unreferenced h q ->
  set_pointer t row col q h = Ok h' -> program_store ts h'.
Proof.
  intros Hstore Ht Hq Hfree. pose proof Hstore as [_ Hts].
  destruct (Hts t Ht) as [_ (R & C & cells & Hobj & Hshape & Hcells)%table_ok_elim].
  unfold set_pointer. run (at_Ok _ _ _ Hobj).
  intros (cells' & ->%set_at2_Ok_inv & [_ ->]%set_at_Ok_inv)%bind_Ok_inv.
  eapply program_store_write_grid; eauto.
  - by apply grid_shape_insert.
  - intros p [Hp| ->]%in_grid_set_loc.
    + split; [by apply Hcells|by left].
    + split; [done|by right].
Qed.

Lemma program_store_setCell (ts : list loc) (h h' : store) (t : loc)
    (row col : nat) (x : loc) :
  program_store ts h -> t ∈ ts -> readable h x ->
  setCell t row col x h = Ok h' -> program_store ts h'.
Proof.
  intros Hstore Ht Hx.
  destruct (program_store_Clone ts h x Hstore Hx) as (o & Hrun & Hstore' & Hq & Hfree).
  unfold setCell. run Hrun. by apply program_store_set_pointer.
Qed.

Lemma setText_inv_plain (cell : loc) (text : str) (h h' : store) :
  setText cell text h = Ok h' ->
  exists o0 o, h !! cell = Some o0 /\ plain o0 /\ plain o /\ h' = <[cell := o]> h.
Proof.
  unfold setText. intros (o & Ho%at_Ok_inv & Hrun)%bind_Ok_inv.
  destruct o; try done. apply set_at_Ok_inv in Hrun as [_ ->].
  do 2 eexists. split; [done|]. by repeat split.
Qed.

Lemma addRow_inv_plain (cell : loc) (line : str) (h h' : store) :
  addRow cell line h = Ok h' ->
  exists o0 o, h !! cell = Some o0 /\ plain o0 /\ plain o /\ h' = <[cell := o]> h.
Proof.
  unfold addRow. intros (o & Ho%at_Ok_inv & Hrun)%bind_Ok_inv.
  destruct o; try done. apply set_at_Ok_inv in Hrun as [_ ->].
  do 2 eexists. split; [done|]. by repeat split.
Qed.

Lemma grid_loads_readable (fuel : nat) (h : store) (cells : list (list loc))
    (vals : list (list CBase)) (p : loc) :
  grid_loads fuel h cells vals -> Forall (Forall wf_cell) vals ->
  in_grid cells p -> readable h p.
Proof.
  intros Hg Hwf (row & [i Hi]%list_elem_of_lookup_1 & [j Hj]%list_elem_of_lookup_1).
  destruct (Forall2_lookup_l _ _ _ _ _ Hg Hi) as (vs & Hvs & Hr).
  destruct (Forall2_lookup_l _ _ _ _ _ Hr Hj) as (v & Hv & Hload).
  exists v. split; [by exists fuel|].
  pose proof (proj1 (Forall_lookup _ _) Hwf i vs Hvs) as Hrow.
  exact (proj1 (Forall_lookup _ _) Hrow j v Hv).
Qed.

Lemma extend_unreferenced (ts : list loc) (h k : store) (p : loc) :
  closed h -> Forall (respects ts h) k -> length h <= p -> unreferenced (h ++ k) p.
Proof.
  intros Hclosed Hk Hp x o Ho Hpt. destruct (decide (x < length h)) as [Hlt|Hge].
  - rewrite lookup_app_l in Ho by done. pose proof (Hclosed x o _ Ho Hpt). lia.
  - rewrite lookup_app_r in Ho by lia. apply list_elem_of_lookup_2 in Ho.
    destruct (proj1 (Forall_forall _ _) Hk o Ho p Hpt). lia.
Qed.

(** The loop nest of the copy constructor makes a grid of new, readable
    cells that nothing points to. *)
Lemma program_store_clone_cells (ts : list loc) (h : store) (u : loc) :
  program_store ts h -> table_ok h u ->
  exists R C cells cells' k,
    h !! u = Some (OTable R C cells)
    /\ clone_cells R C cells h = Ok (cells', h ++ k)
    /\ program_store ts (h ++ k)
    /\ grid_shape R C cells'
    /\ forall p, in_grid cells' p ->
         readable (h ++ k) p /\ unreferenced (h ++ k) p.
Proof.
  intros Hstore (T & [fuel (cells & Hu & Hg%grid_loads_load_grid)%load_table_Some]
                   & [Hshape Hwf]%wf_cell_TableCell).
  assert (grid_shape (Rows T) (Cols T) cells) as Hcells.
  { by apply (grid_loads_shape _ _ _ _ _ _ Hg). }
  destruct (clone_cells_spec fuel h (Rows T) (Cols T) cells (Cells T) Hcells Hg)
    as (cells' & k & Hrun & Hk & Hg' & Hs' & Hf').
  assert (Forall (respects ts h) k) as Hresp.
  { eapply Forall_impl; [exact Hk|].
    intros o (row & x & _ & _ & Ho & Hno). by eapply copy_respects. }
  exists (Rows T), (Cols T), cells, cells', k.
  split; [done|]. split; [done|]. split; [by apply program_store_extend|].
  split; [done|]. intros p Hp. split.
  - by eapply grid_loads_readable.
  - eapply extend_unreferenced; [apply Hstore|exact Hresp|].
    by apply (proj2 (in_grid_Forall _ _) Hf').
Qed.

(** A new table on a grid of readable cells nothing points to is one more
    table of the program. *)
Lemma program_store_new_table (ts : list loc) (h : store) (R C : nat)
    (cells : list (list loc)) :
  program_store ts h -> grid_shape R C cells ->
  (forall p, in_grid cells p -> readable h p /\ unreferenced h p) ->
  program_store (length h :: ts) (h ++ [OTable R C cells]).
Proof.
  intros [Hclosed Hts] Hshape Hcells.
  assert (forall x o p, (h ++ [OTable R C cells]) !! x = Some o -> points_to o p ->
            (x < length h /\ h !! x = Some o)
            \/ (x = length h /\ o = OTable R C cells /\ in_grid cells p)) as Hobj.
  { intros x o p Ho Hp. destruct (decide (x < length h)) as [Hlt|Hge].
    - left. by rewrite lookup_app_l in Ho.
    - right. rewrite lookup_app_r in Ho by lia.
      destruct (x - length h) as [|n] eqn:E; [|by destruct n].
      injection Ho as <-. split; [lia|done]. }
  assert ((h ++ [OTable R C cells]) !! length h = Some (OTable R C cells)) as Hnew.
  { by rewrite list_lookup_middle. }
  split.
  - intros x o p Ho Hp. rewrite length_app. simpl.
    destruct (Hobj x o p Ho Hp) as [[_ Ho']|(_ & _ & Hin)].
    + pose proof (Hclosed x o p Ho' Hp). lia.
    + pose proof (readable_lt _ _ (proj1 (Hcells p Hin))). lia.
  - intros t [->|Ht]%elem_of_cons.
    + split.
      * intros x o p Ho Hp. rewrite Hnew.
        destruct (Hobj x o p Ho Hp) as [[Hlt Ho']|(-> & -> & Hin)].
        -- split; [pose proof (Hclosed x o p Ho' Hp); lia|].
           intros _ o' [= <-] Hin. by apply (proj2 (Hcells p Hin) x o Ho').
        -- split; [|done]. pose proof (readable_lt _ _ (proj1 (Hcells p Hin))). lia.
      * eapply table_ok_intro; [exact Hnew|done|].
        intros p Hp. apply readable_extend. by apply Hcells.
    + destruct (Hts t Ht) as [Hown Hok]. split; [|by apply table_ok_extend].
      destruct (table_ok_table _ _ Hok) as (R2 & C2 & cells2 & Ht2).
      assert ((h ++ [OTable R C cells]) !! t = Some (OTable R2 C2 cells2)) as Ht2'.
      { rewrite lookup_app_l; [done|]. by eapply lookup_lt_Some. }
      intros x o p Ho Hp. rewrite Ht2'.
      destruct (Hobj x o p Ho Hp) as [[Hlt Ho']|(-> & -> & Hin)].
      * destruct (Hown x o p Ho' Hp) as [? Hg]. split; [done|].
        intros Hx o' [= <-]. by apply (Hg Hx).
      * destruct (Hcells p Hin) as [Hread Hfree]. split.
        -- by eapply readable_ne_table.
        -- intros _ o' [= <-]. by apply (Hfree t _ Ht2).
Qed.

Lemma reads_TableCell (h : store) (q p : loc) (T : CTable) :
  h !! q = Some (OTableCell p) -> reads_table h p T -> reads h q (CTableCell T).
Proof. intros Hq [fuel Hload]. exists (S fuel). by rewrite load_S, Hq, Hload. Qed.

(** Embedding a table makes a new, readable cell nothing points to. *)
Lemma program_store_new_TableCell (ts : list loc) (h : store) (u : loc) :
  program_store ts h -> table_ok h u ->
  exists q h',
    new_TableCell u h = Ok (q, h')
    /\ program_store ts h' /\ readable h' q /\ unreferenced h' q.
Proof.
  intros Hstore Hu.
  destruct (program_store_clone_cells ts h u Hstore Hu)
    as (R & C & cells & cells' & k & Hobj & Hrun & Hstore1 & Hshape & Hcells).
  set (h1 := h ++ k) in *. set (p := length h1).
  set (h2 := h1 ++ [OTable R C cells']). set (h3 := h2 ++ [OTableCell p]).
  assert (respects ts h1 (OTable R C cells')) as Hr2.
  { intros p0 Hp0. destruct (Hcells p0 Hp0) as [Hread Hfree].
    split; [by apply readable_lt|]. intros t Ht.
    destruct Hstore1 as [_ Hts]. destruct (Hts t Ht) as [_ Hok].
    split; [by eapply readable_ne_table|]. intros o' Ho'. by apply (Hfree t). }
  assert (program_store ts h2) as Hstore2.
  { apply program_store_extend; [done|]. by constructor. }
  assert (unreferenced h2 p) as Hfree2.
  { eapply alloc_unreferenced; [apply Hstore1|exact Hr2]. }
  assert (respects ts h2 (OTableCell p)) as Hr3.
  { intros p0 Hp0. simpl in Hp0. subst p0.
    split; [unfold h2; rewrite length_app; simpl; lia|].
    intros t Ht. destruct Hstore2 as [_ Hts]. destruct (Hts t Ht) as [_ Hok].
    split.
    - destruct Hstore1 as [_ Hts1]. destruct (Hts1 t Ht) as [_ Hok1].
      destruct (table_ok_table _ _ Hok1) as (? & ? & ? & Ht1).
      apply lookup_lt_Some in Ht1. unfold p. lia.
    - intros o' Ho'. by apply (Hfree2 t). }
  assert (program_store ts h3) as Hstore3.
  { apply program_store_extend; [done|]. by constructor. }
  exists (length h2), h3. split; [|split; [done|split]].
  - unfold new_TableCell, copy_table. run (at_Ok _ _ _ Hobj). run Hrun. done.
  - assert (table_ok h3 p) as (T & HT & Hwf).
    { apply table_ok_extend.
      eapply (table_ok_intro h2 p R C cells'); [|done|].
      - by apply list_lookup_middle.
      - intros p0 Hp0. apply readable_extend. by apply Hcells. }
    exists (CTableCell T). split; [|done].
    eapply reads_TableCell; [|exact HT]. by apply list_lookup_middle.
  - eapply alloc_unreferenced; [apply Hstore2|exact Hr3].
Qed.

Lemma program_store_setCell_table (ts : list loc) (h h' : store) (t : loc)
    (row col : nat) (u : loc) :
  program_store ts h -> t ∈ ts -> table_ok h u ->
  setCell_table t row col u h = Ok h' -> program_store ts h'.
Proof.
  intros Hstore Ht Hu.
  destruct (program_store_new_TableCell ts h u Hstore Hu)
    as (q & h1 & Hrun & Hstore1 & Hq & Hfree).
  unfold setCell_table. run Hrun. by apply program_store_set_pointer.
Qed.

Lemma program_store_assign (ts : list loc) (h h' : store) (t other : loc) :
  program_store ts h -> t ∈ ts -> table_ok h other ->
  assign t other h = Ok h' -> program_store ts h'.
Proof.
  intros Hstore Ht Hother. unfold assign. case_decide; [by intros [= <-]|].
  destruct (program_store_clone_cells ts h other Hstore Hother)
    as (R & C & cells & cells' & k & Hobj & Hrun & Hstore1 & Hshape & Hcells).
  run (at_Ok _ _ _ Hobj). run Hrun. intros [_ ->]%set_at_Ok_inv.
  pose proof Hstore1 as [_ Hts].
  destruct (Hts t Ht) as [_ (Rt & Ct & cellst & Hobjt)%table_ok_table].
  eapply program_store_write_grid; eauto.
  intros p Hp. destruct (Hcells p Hp). split; [done|by right].
Qed.

(** Every change of a table of the program, with arguments that have a
    value, gives a program store again. *)
Theorem program_store_mutate (ts : list loc) (h h' : store) (t : loc) (m : mutation) :
  program_store ts h -> t ∈ ts -> arguments_ok h m ->
  mutate t m h = Ok h' -> program_store ts h'.
Proof.
  intros Hstore Ht Hargs.
  destruct m as [row col cell|row col table|row col text|row col line|other];
    cbn [mutate arguments_ok] in *.
  - by apply program_store_setCell.
  - by apply program_store_setCell_table.
  - intros (c & (R & C & cells & Hobj & Hc)%getCell_inv
              & (o0 & o & Ho0 & Hp0 & Hp & ->)%setText_inv_plain)%bind_Ok_inv.
    eapply program_store_write_cell; eauto.
  - intros (c & (R & C & cells & Hobj & Hc)%getCell_inv
              & (o0 & o & Ho0 & Hp0 & Hp & ->)%addRow_inv_plain)%bind_Ok_inv.
    eapply program_store_write_cell; eauto.
  - by apply program_store_assign.
Qed.

(** [CTable t(other)] declares one more table of the program. *)
Theorem program_store_copy_table (ts : list loc) (h : store) (other : loc) :
  program_store ts h -> table_ok h other ->
  exists t h', copy_table other h = Ok (t, h') /\ program_store (t :: ts) h'.
Proof.
  intros Hstore Hother.
  destruct (program_store_clone_cells ts h other Hstore Hother)
    as (R & C & cells & cells' & k & Hobj & Hrun & Hstore1 & Hshape & Hcells).
  do 2 eexists. split.
  - unfold copy_table. run (at_Ok _ _ _ Hobj). run Hrun. done.
  - by apply program_store_new_table.
Qed.

(** A temporary or a variable of a class of cells without pointers. *)
Theorem program_store_plain (ts : list loc) (h : store) (o : object) :
  program_store ts h -> plain o ->
  program_store ts (h ++ [o]) /\ readable (h ++ [o]) (length h).
Proof.
  intros Hstore Hplain. split.
  - apply program_store_extend; [done|]. constructor; [|done].
    intros p Hp. by apply plain_no_pointer in Hp.
  - eapply plain_readable; [exact Hplain|]. by apply list_lookup_middle.
Qed.

Lemma program_store_nil : program_store [] [].
Proof.
  split.
  - intros x o p Ho. by rewrite lookup_nil in Ho.
  - intros t Ht. by apply elem_of_nil in Ht.
Qed.

(** [CTable t(rows, cols)] declares one more table of the program. *)
Theorem program_store_new_CTable (ts : list loc) (h : store) (rows cols : nat) :
  program_store ts h ->
  exists t h', new_CTable rows cols h = Ok (t, h') /\ program_store (t :: ts) h'.
Proof.
  intros Hstore.
  assert (forall n, Forall (respects ts h) (replicate n OEmpty)) as Hresp.
  { intros n. apply Forall_replicate. intros p Hp. destruct Hp. }
  assert (exists cells n,
    for_range rows (fun _ '(grid, h) =>
      '(row, h) ← for_range cols (fun _ '(row, h) =>
                     let '(cell, h) := alloc OEmpty h in Ok (row ++ [cell], h))
                   ([], h);
      Ok (grid ++ [row], h))
    ([], h) = Ok (cells, h ++ replicate n OEmpty)
    /\ grid_shape rows cols cells
    /\ Forall (Forall (fun p => length h <= p < length h + n)) cells)
    as (cells & n & Hrun & Hshape & Hcells).
  { destruct (for_range_invariant
      (fun i '(grid, h') =>
         exists n, h' = h ++ replicate n OEmpty /\ grid_shape i cols grid
                   /\ Forall (Forall (fun p => length h <= p < length h + n)) grid)
      rows
      (fun _ '(grid, h) =>
        '(row, h) ← for_range cols (fun _ '(row, h) =>
                       let '(cell, h) := alloc OEmpty h in Ok (row ++ [cell], h))
                     ([], h);
        Ok (grid ++ [row], h))
      ([], h)) as ([cells h'] & Hrun & n & -> & Hs & Hc).
    - exists 0. simpl. rewrite app_nil_r. repeat split; constructor.
    - intros i [grid h'] Hi (n & -> & [Hl Hs] & Hc).
      destruct (for_range_invariant
        (fun j '(row, h') =>
           exists m, h' = h ++ replicate m OEmpty /\ n <= m /\ length row = j
                     /\ Forall (fun p => length h <= p < length h + m) row)
        cols
        (fun _ '(row, h) =>
           let '(cell, h) := alloc OEmpty h in Ok (row ++ [cell], h))
        ([], h ++ replicate n OEmpty)) as ([row h'] & Hrow & m & -> & Hnm & Hl' & Hr).
      + exists n. split; [done|]. split; [lia|]. split; [done|constructor].
      + intros j [row h'] Hj (m & -> & Hnm & Hl' & Hr). unfold alloc.
        eexists. split; [done|]. exists (S m).
        rewrite replicate_S_end, app_assoc. repeat split; try done; try lia.
        * rewrite length_app. simpl. lia.
        * apply Forall_app. split.
          -- eapply Forall_impl; [exact Hr|]. intros p. simpl. lia.
          -- constructor; [|done]. rewrite length_app, length_replicate. lia.
      + rewrite Hrow. ok. eexists. split; [done|]. exists m. repeat split.
        * rewrite length_app. simpl. lia.
        * apply Forall_app. split; [done|]. by constructor.
        * apply Forall_app. split; [|by constructor].
          eapply Forall_impl; [exact Hc|]. intros r Hr'.
          eapply Forall_impl; [exact Hr'|]. intros p. simpl. lia.
    - exists cells, n. by rewrite Hrun. }
  do 2 eexists. split.
  - unfold new_CTable. run Hrun. done.
  - apply program_store_new_table; [by apply program_store_extend|done|].
    intros p Hp%(proj2 (in_grid_Forall _ _) Hcells). split.
    + eapply (plain_readable _ p OEmpty); [done|].
      rewrite lookup_app_r by lia. apply lookup_replicate_2. lia.
    + eapply extend_unreferenced; [apply Hstore|apply Hresp|lia].
Qed.

(** In a program store the tables satisfy what the theorems on copies
    assume. *)
Lemma program_store_table (ts : list loc) (h : store) (t : loc) :
  program_store ts h -> t ∈ ts ->
  owned h t /\ unreferenced h t /\ exists T, reads_table h t T /\ wf_table T.
Proof.
  intros [_ Hts] Ht. destruct (Hts t Ht) as [Hown Hok].
  split; [done|]. split; [by apply owned_unreferenced|done].
Qed.

(** * Further properties of the code *)

(** ** Equality is equality of values *)

Lemma all_of_spec (test : nat -> outcome bool) (P : nat -> Prop) (ix : list nat) :
  (forall i, i ∈ ix -> exists b, test i = Ok b /\ (b = true <-> P i)) ->
  exists b, all_of test ix = Ok b /\ (b = true <-> forall i, i ∈ ix -> P i).
Proof.
  induction ix as [|i ix IH]; intros H; cbn [all_of].
  - exists true. split; [done|]. split; [|done]. intros _ i Hi. by apply elem_of_nil in Hi.
  - destruct (H i) as (b & -> & Hb); [apply list_elem_of_here|]. ok. destruct b.
    + destruct IH as (b' & -> & Hb');
        [intros; apply H; by apply list_elem_of_further|].
      exists b'. split; [done|]. rewrite Hb'. split.
      * intros HP j [->|Hj]%elem_of_cons; [by apply Hb|auto].
      * intros HP j Hj. apply HP. by apply list_elem_of_further.
    + exists false. split; [done|]. split; [done|].
      intros HP. apply Hb, HP, list_elem_of_here.
Qed.

Lemma grid_ext {A : Type} `{Inhabited A} (rows cols : nat) (m m' : list (list A)) :
  grid_shape rows cols m -> grid_shape rows cols m' ->
  (forall r c, r < rows -> c < cols -> (m !!! r) !!! c = (m' !!! r) !!! c) ->
  m = m'.
Proof.
  intros [Hlen Hrows] [Hlen' Hrows'] Hsame.
  apply (list_eq_same_length _ _ rows); [done..|].
  intros r row row' Hr Hrow Hrow'.
  pose proof (proj1 (Forall_lookup _ _) Hrows r row Hrow) as Hl.
  pose proof (proj1 (Forall_lookup _ _) Hrows' r row' Hrow') as Hl'.
  apply (list_eq_same_length _ _ cols); [done..|].
  intros c x x' Hc Hx Hx'. specialize (Hsame r c Hr Hc).
  rewrite (list_lookup_total_correct _ _ _ Hrow) in Hsame.
  rewrite (list_lookup_total_correct _ _ _ Hrow') in Hsame.
  rewrite (list_lookup_total_correct _ _ _ Hx) in Hsame.
  by rewrite (list_lookup_total_correct _ _ _ Hx') in Hsame.
Qed.

Lemma cell_at_Forall (P : CBase -> Prop) (t : CTable) (r c : nat) :
  grid_shape (Rows t) (Cols t) (Cells t) -> Forall (Forall P) (Cells t) ->
  r < Rows t -> c < Cols t -> P (cell_at t r c).
Proof.
  intros Hshape HP Hr Hc.
  destruct (grid_shape_lookup _ _ _ r c Hshape Hr Hc) as (row & Hrow & Hcell).
  eapply (proj1 (Forall_lookup _ _)); [|exact Hcell].
  eapply (proj1 (Forall_lookup _ _)); [exact HP|exact Hrow].
Qed.

(** [CTable::operator==], given what [operator==] returns on the cells. *)
Lemma table_equals_spec (t u : CTable) :
  grid_shape (Rows t) (Cols t) (Cells t) ->
  grid_shape (Rows u) (Cols u) (Cells u) ->
  (forall r c, r < Rows t -> c < Cols t -> Rows t = Rows u -> Cols t = Cols u ->
     exists b, cell_equals (cell_at t r c) (cell_at u r c) = Ok b
               /\ (b = true <-> cell_at t r c = cell_at u r c)) ->
  exists b, equals t u = Ok b /\ (b = true <-> t = u).
Proof.
  intros Ht Hu Hcells. unfold equals, table_equals. simpl.
  case_decide as Hdims.
  { exists false. split; [done|]. split; [done|]. intros ->. tauto. }
  assert (Rows t = Rows u /\ Cols t = Cols u) as [HR HC] by lia.
  destruct (all_of_spec
    (fun rows => all_of (fun cols =>
       cell ← at2 (map (map (fun c => vEquals (vtbl c))) (Cells t)) rows cols;
       cell' ← at2 (Cells u) rows cols;
       cell cell') (seq 0 (Cols t)))
    (fun r => forall c, c ∈ seq 0 (Cols t) -> cell_at t r c = cell_at u r c)
    (seq 0 (Rows t))) as (b & Hrun & Hb).
  - intros r Hr%elem_of_seq. apply all_of_spec. intros c Hc%elem_of_seq.
    destruct (grid_shape_lookup _ _ _ r c Ht) as (row & Hrow & Hcell); [lia..|].
    destruct (grid_shape_lookup _ _ _ r c Hu) as (row' & Hrow' & Hcell'); [lia..|].
    unfold at2.
    rewrite (at_Ok _ r (map (fun c => vEquals (vtbl c)) row))
      by (by rewrite list_lookup_fmap, Hrow). ok.
    rewrite (at_Ok _ c (vEquals (vtbl ((Cells t !!! r) !!! c))))
      by (by rewrite list_lookup_fmap, Hcell). ok.
    run (at_Ok _ _ _ Hrow'). run (at_Ok _ _ _ Hcell').
    apply Hcells; lia.
  - exists b. split; [exact Hrun|]. rewrite Hb. split.
    + intros Hsame. destruct t as [R C cells], u as [R' C' cells']. simpl in *.
      subst R' C'. f_equal. apply (grid_ext R C); [done..|].
      intros r c Hr Hc. apply (Hsame r); apply elem_of_seq; lia.
    + by intros ->.
Qed.

(** [operator==] of the four kinds of cells. *)
Lemma cell_equals_spec (cell : CBase) :
  wf_cell cell -> forall other, wf_cell other ->
  exists b, cell_equals cell other = Ok b /\ (b = true <-> cell = other).
Proof.
  induction cell as [|allLines formatType|imageData|t IH] using CBase_nested_ind;
    intros Hwf other Hwf'.
  - exists (Empty.equals other). split; [done|]. destruct other; simpl; split; done.
  - exists (Text.equals allLines formatType other). split; [done|].
    destruct other as [|allLines' formatType'| |]; simpl; try (split; done).
    rewrite andb_true_iff, !bool_decide_eq_true. split; [by intros [-> ->]|].
    by intros [= -> ->].
  - exists (Image.equals imageData other). split; [done|].
    destruct other as [| |imageData'|]; simpl; try (split; done).
    rewrite bool_decide_eq_true. split; [by intros ->|by intros [= ->]].
  - destruct other as [| | |u]; try (exists false; split; [done|split; done]).
    apply wf_cell_TableCell in Hwf as [Ht Hwf].
    apply wf_cell_TableCell in Hwf' as [Hu Hwf'].
    destruct (table_equals_spec t u Ht Hu) as (b & Hrun & Hb).
    + intros r c Hr Hc HR HC.
      apply (cell_at_Forall _ t r c Ht IH Hr Hc).
      * by apply cell_at_Forall.
      * apply cell_at_Forall; [done..|lia|lia].
    + exists b. split; [exact Hrun|]. rewrite Hb. split; [by intros ->|by intros [= ->]].
Qed.

(** Two well-formed tables compare equal with [==] exactly when they have
    the same value: the same numbers of rows and columns and, cell by cell,
    the same kind of cell with the same lines, alignment or image rows or,
    for an embedded table, the same table again.  [!=] returns the
    opposite. *)
Theorem table_equals_iff_same (t u : CTable) :
  wf_table t -> wf_table u ->
  exists b,
    equals t u = Ok b
    /\ not_equals t u = Ok (negb b)
    /\ (b = true <-> t = u).
Proof.
  intros Ht Hu. destruct (cell_equals_spec (CTableCell t) Ht (CTableCell u) Hu)
    as (b & Hrun & Hb).
  change (cell_equals (CTableCell t) (CTableCell u)) with (equals t u) in Hrun.
  exists b. split; [exact Hrun|]. split.
  - unfold not_equals. by rewrite Hrun.
  - rewrite Hb. split; [by intros [= ->]|by intros ->].
Qed.

Lemma table_equals_iff_same_witness :
  equals nested_table main_t2 = Ok false /\ not_equals nested_table main_t2 = Ok true.
Proof.
  destruct (table_equals_iff_same nested_table main_t2) as (b & Hrun & Hrun' & Hb).
  - vm_compute. exact I.
  - vm_compute. exact I.
  - destruct b.
    + exfalso. by pose proof (proj1 Hb eq_refl).
    + split; [exact Hrun|exact Hrun'].
Defined.

(** A cell compares equal to another with the virtual [operator==] exactly
    when both are of the same kind and hold the same content: two empty
    cells; two texts with the same lines and the same alignment; two images
    with the same rows; two embedded tables that are equal.  The call is
    dispatched on the left operand and casts the right one, and still the
    result is the same with the operands exchanged. *)
Theorem cell_equals_iff_same (cell other : CBase) :
  wf_cell cell -> wf_cell other ->
  exists b,
    cell_equals cell other = Ok b
    /\ cell_equals other cell = Ok b
    /\ (b = true <-> cell = other).
Proof.
  intros Hwf Hwf'.
  destruct (cell_equals_spec cell Hwf other Hwf') as (b & Hrun & Hb).
  destruct (cell_equals_spec other Hwf' cell Hwf) as (b' & Hrun' & Hb').
  exists b. split; [exact Hrun|]. split; [|exact Hb].
  rewrite Hrun'. f_equal. destruct b, b'; try done.
  - apply Hb'. symmetry. by apply Hb.
  - symmetry. apply Hb. symmetry. by apply Hb'.
Qed.

Lemma cell_equals_iff_same_witness :
  cell_equals (CText [lit "ab"] ALIGN_LEFT) (CText [lit "ab"] ALIGN_RIGHT) = Ok false.
Proof.
  destruct (cell_equals_iff_same (CText [lit "ab"] ALIGN_LEFT)
              (CText [lit "ab"] ALIGN_RIGHT)) as (b & Hrun & _ & Hb).
  - exact I.
  - exact I.
  - destruct b; [|exact Hrun]. exfalso. by pose proof (proj1 Hb eq_refl).
Defined.

(** ** A table as its constructor leaves it *)

Lemma wf_new_table (rows cols : nat) : wf_table (new_table rows cols).
Proof.
  apply wf_cell_TableCell. simpl. split; [split|].
  - by rewrite length_replicate.
  - apply Forall_replicate. by rewrite length_replicate.
  - apply Forall_replicate, Forall_replicate. exact I.
Qed.

Lemma new_table_cell_at (rows cols r c : nat) : cell_at (new_table rows cols) r c = CEmpty.
Proof.
  unfold cell_at. simpl. destruct (decide (r < rows)) as [Hr|Hr].
  - rewrite lookup_total_replicate_2 by done. destruct (decide (c < cols)) as [Hc|Hc].
    + by rewrite lookup_total_replicate_2.
    + rewrite list_lookup_total_alt, lookup_ge_None_2; [done|].
      rewrite length_replicate. lia.
  - rewrite (list_lookup_total_alt (replicate rows _)), lookup_ge_None_2; [done|].
    rewrite length_replicate. lia.
Qed.

Lemma max_list_zero {A : Type} (f : A -> nat) (l : list A) :
  (forall x, f x = 0) -> max_list (f <$> l) = 0.
Proof. intros Hf. induction l as [|x l IH]; [done|]. cbn [fmap list_fmap max_list]. fold (fmap f l). rewrite Hf, IH. done. Qed.

Lemma new_table_colWidth (rows cols c : nat) : colWidth (new_table rows cols) c = 0.
Proof.
  unfold colWidth, col_max. apply max_list_zero. intros r.
  by rewrite new_table_cell_at.
Qed.

Lemma new_table_rowHeight (rows cols r : nat) : rowHeight (new_table rows cols) r = 0.
Proof.
  unfold rowHeight, row_max. apply max_list_zero. intros c.
  by rewrite new_table_cell_at.
Qed.

Lemma concat_tabulate_const {A : Type} (x : list A) (n : nat) :
  concat ((fun _ => x) <$> seq 0 n) = concat (replicate n x).
Proof. by rewrite <- replicate_tabulate. Qed.

(** A table as [CTable(rows, cols)] leaves it, with every cell empty, is
    written as [rows + 1] border lines and nothing else, each of them
    [cols + 1] plus signs; so a table without rows or without columns still
    has its first border line. *)
Theorem new_table_renders_borders (rows cols : nat) :
  to_text (new_table rows cols)
  = Ok (concat (replicate (S rows) (replicate (S cols) "+"%char ++ [nl]))).
Proof.
  rewrite to_text_layout by apply wf_new_table. f_equal.
  unfold table_layout, layout. simpl Rows. simpl Cols.
  assert (border_line cols (colWidth (new_table rows cols))
          = replicate (S cols) "+"%char ++ [nl]) as Hborder.
  { unfold border_line.
    rewrite (tabulate_ext _ (fun _ => lit "+") cols)
      by (intros c _; by rewrite new_table_colWidth).
    rewrite concat_tabulate_const.
    assert (concat (replicate cols (lit "+")) = replicate cols "+"%char) as ->; [|done].
    clear. induction cols as [|cols IH]; [done|]. simpl in *. by rewrite IH. }
  rewrite (tabulate_ext _ (fun _ => replicate (S cols) "+"%char ++ [nl]) rows).
  - rewrite concat_tabulate_const, Hborder. done.
  - intros r _. unfold row_block. by rewrite new_table_rowHeight, Hborder.
Qed.

(** ** Texts: output in a box that is too narrow, and [setText] *)

Lemma Text_Output_throws (allLines : list str) (formatType : FormatingType)
    (width : nat) (ix : list nat) (acc : list str) :
  Exists (fun i => width < length (default [] (allLines !! i))) ix ->
  for_each (Text.Output_step allLines formatType width) ix acc = Throw length_error.
Proof.
  revert acc. induction ix as [|i ix IH]; intros acc Hbad.
  - by apply Exists_nil in Hbad.
  - cbn [for_each]. rewrite Text_Output_step. case_decide as Hfit; [|done]. ok.
    apply IH. apply Exists_cons in Hbad as [Hbad|Hbad]; [lia|done].
Qed.

(** [Output(height, width)] of a text looks at the first [height] stored
    lines only.  If each of them has at most [width] characters it returns
    the [height] padded lines; if one of them is longer, the unsigned
    difference [width - line.size()] wraps around and the construction of
    the padding throws [std::length_error]. *)
Theorem Text_Output_fits_or_throws (allLines : list str) (formatType : FormatingType)
    (height width : nat) :
  Output (CText allLines formatType) height width
  = if decide (Forall (fun line => length line <= width) (take height allLines))
    then Ok (text_line allLines formatType width <$> seq 0 height)
    else Throw length_error.
Proof.
  change (Output (CText allLines formatType) height width)
    with (Text.Output allLines formatType height width).
  case_decide as Hfit.
  - apply Text_Output_lines. intros i line Hi Hline.
    eapply (proj1 (Forall_lookup _ _) Hfit i). by rewrite lookup_take_lt.
  - apply not_Forall_Exists in Hfit; [|apply _].
    apply Exists_exists in Hfit as (line & Hin & Hlong).
    apply list_elem_of_lookup in Hin as [i Hi].
    apply lookup_take_Some in Hi as [Hi Hlt].
    apply Text_Output_throws, Exists_exists. exists i. split.
    + apply elem_of_seq. lia.
    + rewrite Hi. simpl in *. lia.
Qed.

Lemma text_lines_one (line : str) :
  single_line line -> line <> [] -> text_lines line = [line].
Proof.
  unfold single_line. induction line as [|c line IH]; intros Hline Hne; [done|].
  rewrite not_elem_of_cons in Hline. destruct Hline as [Hc Hline].
  cbn [text_lines]. rewrite decide_False by congruence.
  destruct line as [|c' line]; [done|]. by rewrite IH.
Qed.

Lemma text_lines_joined (text : str) :
  concat ((fun line => line ++ [nl]) <$> text_lines text)
  = if decide (text = [] \/ last text = Some nl) then text else text ++ [nl].
Proof.
  induction text as [|c rest IH]; [by rewrite decide_True by auto|].
  destruct rest as [|c' rest].
  { cbn [text_lines]. destruct (decide (c = nl)) as [->|Hc]; simpl.
    - done.
    - rewrite decide_False; [done|]. intros [?|?]; congruence. }
  remember (c' :: rest) as tl eqn:Htl.
  assert (tl <> []) as Hne by (by subst).
  assert (last (c :: tl) = last tl) as Hlast by (by subst).
  clear Htl.
  assert ((if decide (c :: tl = [] \/ last (c :: tl) = Some nl)
           then c :: tl else (c :: tl) ++ [nl])
          = c :: (if decide (tl = [] \/ last tl = Some nl) then tl else tl ++ [nl]))
    as ->.
  { rewrite Hlast. repeat case_decide; try done; exfalso; intuition congruence. }
  rewrite <- IH. cbn [text_lines]. destruct (decide (c = nl)) as [->|Hc]; [done|].
  destruct (text_lines tl) as [|line lines] eqn:E; [|done].
  by apply text_lines_nil in E.
Qed.

(** [setText] splits the text at its newlines.  No stored line holds a
    newline; the stored lines, each followed by a newline, are the text
    again, with a newline added at the end when the text is not empty and
    does not end with one.  So a newline at the end of the text adds no empty
    line, the empty text gives no line at all, and the number of lines is the
    number of newlines, plus one for a last line without newline. *)
Theorem setText_splits_at_newlines (text : str) :
  let ended := if decide (text = [] \/ last text = Some nl) then true else false in
  Forall single_line (Text.setText text)
  /\ concat ((fun line => line ++ [nl]) <$> Text.setText text)
     = (if ended then text else text ++ [nl])
  /\ Text.Height (Text.setText text) = count_char nl text + (if ended then 0 else 1).
Proof.
  unfold Text.setText, Text.Height. rewrite getlines_text_lines. cbn zeta.
  split; [apply text_lines_single_line|]. split.
  - rewrite text_lines_joined. by case_decide.
  - rewrite <- count_newlines_text_lines. by case_decide.
Qed.

(** [setText] of lines joined by newlines stores these lines, when no line
    holds a newline and the last one is not empty. *)
Theorem setText_joined_lines (lines : list str) :
  Forall single_line lines -> last lines <> Some [] ->
  Text.setText (lines_text lines) = lines.
Proof.
  unfold Text.setText. rewrite getlines_text_lines.
  destruct lines as [|line lines]; [done|]. cbn [lines_text].
  revert line. induction lines as [|line' lines IH]; intros line Hlines Hlast.
  - simpl. rewrite app_nil_r. apply text_lines_one.
    + by inversion Hlines.
    + intros ->. by apply Hlast.
  - inversion Hlines as [|? ? Hline Hlines']; subst.
    rewrite fmap_cons. cbn [concat app]. rewrite text_lines_line_app by done.
    f_equal. apply IH; [done|]. exact Hlast.
Qed.

Lemma setText_joined_lines_witness :
  Text.setText (lit "Hello," ++ [nl] ++ lit "Hello Kitty")
  = [lit "Hello,"; lit "Hello Kitty"].
Proof.
  apply (setText_joined_lines [lit "Hello,"; lit "Hello Kitty"]).
  - unfold single_line. apply (bool_decide_unpack _). vm_compute. exact I.
  - simpl. discriminate.
Defined.

(** ** Images: where the rows are placed *)

Lemma margin_le (box size : nat) : margin box size <= box - size.
Proof.
  unfold margin. case_decide; [|lia].
  apply Nat.Div0.div_le_upper_bound. lia.
Qed.

Lemma half_split (n : nat) : n / 2 <= n - n / 2 <= S (n / 2).
Proof.
  pose proof (Nat.div_mod_eq n 2) as Hn.
  pose proof (Nat.mod_upper_bound n 2). lia.
Qed.

Lemma fit_length (width : nat) (line : str) : length (fit width line) = width.
Proof. unfold fit. rewrite length_app, length_take, length_replicate. lia. Qed.

Lemma fit_short (width : nat) (line : str) :
  length line <= width -> fit width line = line ++ replicate (width - length line) sp.
Proof. intros H. unfold fit. by rewrite take_ge. Qed.

Lemma fit_long (width : nat) (line : str) :
  width <= length line -> fit width line = take width line.
Proof.
  intros H. unfold fit. replace (width - length line) with 0 by lia.
  apply app_nil_r.
Qed.

(** The loop of [CImage::Output], in closed form. *)
Lemma Image_Output_lines (imageData : list str) (height width : nat) :
  Image.Output imageData height width
  = Ok (image_line imageData height width <$> seq 0 height).
Proof.
  unfold Image.Output. case_decide as Hdeg.
  { f_equal. rewrite replicate_tabulate. apply tabulate_ext. intros j Hj.
    unfold image_line. cbn zeta. case_decide as Hin; [|done].
    destruct Hdeg as [->|[->| ->]]; [simpl in Hin; lia|lia|].
    unfold margin, fit. rewrite decide_False by lia. done. }
  fold (margin height (length imageData)). fold (margin width (Image.Width imageData)).
  set (top := margin height (length imageData)).
  set (left := margin width (Image.Width imageData)).
  assert (left <= width) as Hleft.
  { pose proof (margin_le width (Image.Width imageData)). unfold left. lia. }
  destruct (for_range_invariant
    (fun i out =>
       out = (fun j => if decide (top <= j < top + i)
                       then replicate left sp ++ fit (width - left) (imageData !!! (j - top))
                       else replicate width sp) <$> seq 0 height)
    (length imageData)
    (fun i out =>
       if decide (i + top < height) then
         imgLine ← at_ imageData i;
         canvas ← at_ out (i + top);
         canvas ←
           (if decide (width < left + length imgLine) then
              piece ← substr imgLine 0 (width - left);
              replace canvas left (width - left) piece
            else replace canvas left (length imgLine) imgLine);
         set_at out (i + top) canvas
       else Ok out)
    (replicate height (replicate width sp))) as (out & Hrun & ->).
  - rewrite replicate_tabulate. apply tabulate_ext. intros j _.
    by rewrite decide_False by lia.
  - intros i out Hi ->. case_decide as Hin.
    + destruct (lookup_lt_is_Some_2 imageData i Hi) as [imgLine HimgLine].
      run (at_Ok _ _ _ HimgLine).
      rewrite (at_tabulate _ height (i + top)) by done. ok.
      rewrite (decide_False (P := top <= i + top < top + i)) by lia.
      assert ((if decide (width < left + length imgLine)
               then piece ← substr imgLine 0 (width - left);
                    replace (replicate width sp) left (width - left) piece
               else replace (replicate width sp) left (length imgLine) imgLine)
              = Ok (replicate left sp ++ fit (width - left) imgLine)) as ->.
      { case_decide as Hover.
        - unfold substr. rewrite decide_True by lia. ok.
          unfold replace. rewrite length_replicate, decide_True by lia.
          rewrite take_replicate, drop_replicate, drop_0, fit_long by lia.
          do 2 f_equal; [f_equal; lia|].
          replace (width - (left + (width - left) `min` (width - left))) with 0 by lia.
          by rewrite app_nil_r.
        - unfold replace. rewrite length_replicate, decide_True by lia.
          rewrite take_replicate, drop_replicate, fit_short by lia.
          do 2 f_equal; [f_equal; lia|]. do 2 f_equal. lia. }
      ok. rewrite set_at_Ok by (by rewrite length_tabulate).
      eexists; split; [done|]. rewrite insert_tabulate. apply tabulate_ext.
      intros j Hj. destruct (decide (j = i + top)) as [->|Hne].
      * rewrite decide_True by lia. replace (i + top - top) with i by lia.
        by rewrite (list_lookup_total_correct _ _ _ HimgLine).
      * repeat case_decide; try done; lia.
    + eexists; split; [done|]. apply tabulate_ext. intros j Hj.
      repeat case_decide; try done; lia.
  - by rewrite Hrun.
Qed.

(** What [Output(height, width)] of an image returns, whatever the rows of
    the image are.  (The call can fail before anything is placed, where the
    blank box cannot be built: [string(width, ' ')] throws
    [std::length_error] for a width past [string::max_size()].)  The result
    has [height] lines of [width] characters.  With the top margin
    [(height - rows) / 2] and the left margin [(width - length of row 0) / 2],
    each 0 if the image does not fit, line [top + i] is the left margin in
    spaces and then row [i], cut or padded on the right to the rest of the
    width; the other lines are blank, and rows that would come after line
    [height - 1] are left out. *)
Theorem Image_Output_placed (imageData : list str) (height width : nat)
    (out : list str) :
  Output (CImage imageData) height width = Ok out ->
  block height width out
  /\ out = (fun j =>
              let top := margin height (Image.Height imageData) in
              let left := margin width (Image.Width imageData) in
              if decide (top <= j < top + Image.Height imageData)
              then replicate left sp
                   ++ fit (width - left) (imageData !!! (j - top))
              else replicate width sp) <$> seq 0 height.
Proof.
  intros Hrun.
  destruct (Image_Output_block imageData height width) as (out' & Hrun' & Hblock & _).
  change (Output (CImage imageData)) with (Image.Output imageData) in Hrun.
  rewrite Hrun in Hrun'. injection Hrun' as <-. split; [exact Hblock|].
  rewrite Image_Output_lines in Hrun. by injection Hrun as <-.
Qed.

Lemma Image_Output_placed_witness :
  block 3 4 [lit " ab "; lit " cde"; lit "    "].
Proof.
  refine (proj1 (Image_Output_placed [lit "ab"; lit "cdef"] 3 4
                   [lit " ab "; lit " cde"; lit "    "] _)).
  vm_compute. reflexivity.
Defined.

(** At its own size an image is returned row by row, each row cut or padded
    to the length of the first row: that length is the width of the image,
    also when a later row is longer. *)
Theorem Image_Output_natural (imageData : list str) :
  Output (CImage imageData) (Image.Height imageData) (Image.Width imageData)
  = Ok (fit (Image.Width imageData) <$> imageData).
Proof.
  change (Output (CImage imageData)) with (Image.Output imageData).
  rewrite Image_Output_lines. f_equal. unfold Image.Height.
  apply (list_eq_same_length _ _ (length imageData));
    [by rewrite length_fmap|by rewrite length_tabulate|].
  intros j x y Hj Hx Hy. rewrite lookup_tabulate in Hx by done.
  rewrite list_lookup_fmap in Hy.
  destruct (imageData !! j) as [row|] eqn:Hrow; [|done].
  injection Hx as <-. injection Hy as <-.
  unfold image_line, margin. cbn zeta.
  rewrite (decide_False (P := length imageData < length imageData)) by lia.
  rewrite (decide_False (P := Image.Width imageData < Image.Width imageData)) by lia.
  rewrite decide_True by lia. simpl. rewrite ?Nat.sub_0_r.
  by rewrite (list_lookup_total_correct _ _ _ Hrow).
Qed.

Lemma margin_fits (box size : nat) : size <= box -> margin box size = (box - size) / 2.
Proof.
  intros H. unfold margin. case_decide; [done|].
  replace (box - size) with 0 by lia. done.
Qed.

Lemma margin_none (box size : nat) : box <= size -> margin box size = 0.
Proof. intros H. unfold margin. by rewrite decide_False by lia. Qed.

Lemma Image_Width_first (imageData : list str) (P : nat -> Prop) :
  Forall (fun row => P (length row)) imageData -> imageData <> [] ->
  P (Image.Width imageData).
Proof. intros Hall Hne. destruct imageData as [|row0 rows]; [done|]. by inversion Hall. Qed.

(** An image whose rows all have [w] characters, in a box it fits in, is
    centred: [(height - rows) / 2] blank lines above it, the others below,
    and every row between [(width - w) / 2] spaces on its left and the other
    spaces on its right.  When the space left over is odd, the extra line is
    below and the extra space on the right. *)
Theorem Image_Output_centred (imageData : list str) (height width w : nat) :
  Forall (fun row => length row = w) imageData ->
  length imageData <= height -> w <= width ->
  let top := (height - length imageData) / 2 in
  let left := (width - w) / 2 in
  let blank := replicate width sp in
  Output (CImage imageData) height width
  = Ok (replicate top blank
        ++ ((fun row => replicate left sp ++ row ++ replicate (width - w - left) sp)
              <$> imageData)
        ++ replicate (height - length imageData - top) blank)
  /\ left <= width - w - left <= S left
  /\ top <= height - length imageData - top <= S top.
Proof.
  intros Hrect Hh Hw. cbn zeta. split; [|split; apply half_split].
  change (Output (CImage imageData)) with (Image.Output imageData).
  rewrite Image_Output_lines. f_equal.
  pose proof (half_split (height - length imageData)) as Htop.
  pose proof (half_split (width - w)) as Hleft.
  set (top := (height - length imageData) / 2) in *.
  set (left := (width - w) / 2) in *.
  apply (list_eq_same_length _ _ height); [|by rewrite length_tabulate|].
  { rewrite !length_app, !length_replicate, length_fmap. lia. }
  intros j x y Hj Hx Hy. rewrite lookup_tabulate in Hx by done. injection Hx as <-.
  unfold image_line. cbn zeta. rewrite (margin_fits height) by done. fold top.
  destruct (decide (j < top)) as [Hlow|Hlow].
  { rewrite lookup_app_l in Hy by (rewrite length_replicate; lia).
    apply lookup_replicate in Hy as [-> _]. by rewrite decide_False by lia. }
  rewrite lookup_app_r in Hy by (rewrite length_replicate; lia).
  rewrite length_replicate in Hy.
  destruct (decide (j - top < length imageData)) as [Hin|Hout].
  - rewrite lookup_app_l in Hy by (by rewrite length_fmap).
    rewrite list_lookup_fmap in Hy.
    destruct (imageData !! (j - top)) as [row|] eqn:Hrow; [|done].
    injection Hy as <-. rewrite decide_True by lia.
    rewrite (list_lookup_total_correct _ _ _ Hrow).
    assert (length row = w) as Hrow'.
    { eapply (proj1 (Forall_lookup _ _) Hrect); eauto. }
    assert (Image.Width imageData = w) as ->.
    { apply (Image_Width_first imageData (fun n => n = w)); [done|].
      intros ->. done. }
    rewrite (margin_fits width) by done. fold left.
    rewrite fit_short by lia. rewrite Hrow'. do 3 f_equal. lia.
  - rewrite lookup_app_r in Hy by (rewrite length_fmap; lia).
    apply lookup_replicate in Hy as [-> _]. by rewrite decide_False by lia.
Qed.

Lemma Image_Output_centred_witness :
  Output (CImage [lit "ab"; lit "cd"]) 5 5
  = Ok [lit "     "; lit " ab  "; lit " cd  "; lit "     "; lit "     "].
Proof.
  refine (proj1 (Image_Output_centred [lit "ab"; lit "cd"] 5 5 2 _ _ _)).
  - repeat constructor.
  - simpl. lia.
  - lia.
Defined.

(** An image in a box that is neither higher nor wider than it is cut, not
    centred: the first [height] rows are returned, each cut to its first
    [width] characters. *)
Theorem Image_Output_cropped (imageData : list str) (height width : nat) :
  height <= length imageData ->
  Forall (fun row => width <= length row) imageData ->
  Output (CImage imageData) height width = Ok (take width <$> take height imageData).
Proof.
  intros Hh Hw. change (Output (CImage imageData)) with (Image.Output imageData).
  rewrite Image_Output_lines. f_equal.
  apply (list_eq_same_length _ _ height); [|by rewrite length_tabulate|].
  { rewrite length_fmap, length_take. lia. }
  intros j x y Hj Hx Hy. rewrite lookup_tabulate in Hx by done. injection Hx as <-.
  rewrite list_lookup_fmap, lookup_take_lt in Hy by done.
  destruct (imageData !! j) as [row|] eqn:Hrow; [|done]. injection Hy as <-.
  unfold image_line. cbn zeta. rewrite (margin_none height) by done.
  rewrite (margin_none width).
  - rewrite decide_True by lia. simpl. rewrite ?Nat.sub_0_r.
    rewrite (list_lookup_total_correct _ _ _ Hrow). apply fit_long.
    eapply (proj1 (Forall_lookup _ _) Hw); eauto.
  - apply (Image_Width_first imageData (fun n => width <= n)); [done|].
    intros ->. done.
Qed.

Lemma Image_Output_cropped_witness :
  Output (CImage [lit "abc"; lit "def"; lit "ghi"]) 2 2 = Ok [lit "ab"; lit "de"].
Proof.
  apply (Image_Output_cropped [lit "abc"; lit "def"; lit "ghi"] 2 2).
  - simpl. lia.
  - repeat constructor.
Defined.

(** ** Embedded tables: output and sizes *)

(** The two loops of [CTableCell::Output], in closed form. *)
Lemma TableCell_Output_lines (text : str) (height width : nat) :
  TableCell.Output (Ok text) height width
  = Ok ((fun i => fit width (default [] (text_lines text !! i))) <$> seq 0 height).
Proof.
  unfold TableCell.Output. ok. rewrite getlines_text_lines. f_equal.
  set (lines := text_lines text).
  apply (list_eq_same_length _ _ height); [by rewrite length_tabulate| |].
  { rewrite length_app, length_replicate, length_fmap, length_take. lia. }
  intros i x y Hi Hx Hy. rewrite lookup_tabulate in Hy by done. injection Hy as <-.
  rewrite length_fmap, length_take in Hx.
  destruct (decide (i < length lines)) as [Hin|Hout].
  - rewrite lookup_app_l in Hx by (rewrite length_fmap, length_take; lia).
    rewrite list_lookup_fmap, lookup_take_lt in Hx by done.
    destruct (lines !! i) as [line|] eqn:Hline; [|done]. injection Hx as <-. simpl.
    case_decide; [by rewrite fit_long by lia|by rewrite fit_short by lia].
  - rewrite lookup_app_r in Hx by (rewrite length_fmap, length_take; lia).
    apply lookup_replicate in Hx as [-> _].
    rewrite lookup_ge_None_2 by lia. simpl. unfold fit.
    by rewrite take_nil, Nat.sub_0_r.
Qed.

(** What [Output(height, width)] of a cell that embeds a well-formed table
    returns.  (The call can fail where a line of [width] characters cannot be
    built: the padding throws [std::length_error] for a width past
    [string::max_size()].)  Line [i] of the result is line [i] of the text of
    the table, cut to its first [width] characters or padded with spaces on
    the right; where the text has no line [i], the line is blank.  So a box
    narrower than the table cuts it on the right and a box lower than it cuts
    it at the bottom. *)
Theorem TableCell_Output_fitted (T : CTable) (height width : nat) (out : list str) :
  wf_table T ->
  Output (CTableCell T) height width = Ok out ->
  exists text,
    to_text T = Ok text
    /\ out = (fun i => fit width (default [] (text_lines text !! i))) <$> seq 0 height.
Proof.
  intros Hwf Hrun. exists (table_layout T). split; [by apply to_text_layout|].
  unfold Output in Hrun. simpl in Hrun. fold (to_text T) in Hrun.
  rewrite (to_text_layout T Hwf), TableCell_Output_lines in Hrun.
  by injection Hrun as <-.
Qed.

Lemma TableCell_Output_fitted_witness :
  exists text,
    to_text main_t2 = Ok text
    /\ [lit "+-----"; lit "|OOP  "]
       = (fun i => fit 6 (default [] (text_lines text !! i))) <$> seq 0 2.
Proof.
  apply (TableCell_Output_fitted main_t2 2 6 [lit "+-----"; lit "|OOP  "]).
  - vm_compute. exact I.
  - vm_compute. reflexivity.
Defined.

Lemma length_written_lines (t : CTable) :
  length (written_lines t) = 1 + sum_list ((fun r => rowHeight t r + 1) <$> seq 0 (Rows t)).
Proof.
  unfold written_lines. cbn zeta. cbn [length]. rewrite length_concat_tabulate.
  f_equal. apply sum_list_tabulate_ext. intros r _.
  rewrite length_app, length_tabulate. done.
Qed.

Lemma max_list_const (l : list nat) (n : nat) :
  l <> [] -> Forall (fun x => x = n) l -> max_list l = n.
Proof.
  intros Hne Hall. induction Hall as [|x l -> Hall IH]; [done|].
  destruct l as [|y l]; [simpl; lia|]. simpl in *. rewrite IH by done. lia.
Qed.

(** A cell that embeds a well-formed table whose cells hold single lines is
    as wide as a border line of that table, [1 + sum of (colWidth[c] + 1)]
    characters, and as high as the table has lines, [1 + sum of
    (rowHeight[r] + 1)].  In a box at least that large the table is at the
    top left, uncut: [Output] returns the lines of the table, each padded
    with spaces on the right, and then blank lines; at its own size it
    returns the lines of the table as they are. *)
Theorem TableCell_natural_size (T : CTable) (height width : nat) :
  wf_table T -> Forall (Forall single_lines) (Cells T) ->
  let w := 1 + sum_list ((fun c => colWidth T c + 1) <$> seq 0 (Cols T)) in
  let h := 1 + sum_list ((fun r => rowHeight T r + 1) <$> seq 0 (Rows T)) in
  h <= height -> w <= width ->
  Width (CTableCell T) = Ok w
  /\ Height (CTableCell T) = Ok h
  /\ Output (CTableCell T) height width
     = Ok (((fun line => line ++ replicate (width - w) sp) <$> written_lines T)
           ++ replicate (height - h) (replicate width sp))
  /\ Output (CTableCell T) h w = Ok (written_lines T).
Proof.
  intros Hwf Hsingle. cbn zeta.
  set (w := 1 + sum_list ((fun c => colWidth T c + 1) <$> seq 0 (Cols T))).
  rewrite <- length_written_lines. intros Hh Hw.
  assert (text_lines (table_layout T) = written_lines T) as Hlines.
  { rewrite table_layout_written_lines.
    by apply text_lines_terminated, written_lines_single_line. }
  assert (Forall (fun line => length line = w) (written_lines T)) as Hlen.
  { by apply written_lines_length. }
  assert (forall height width, length (written_lines T) <= height -> w <= width ->
            TableCell.Output (Ok (table_layout T)) height width
            = Ok (((fun line => line ++ replicate (width - w) sp) <$> written_lines T)
                  ++ replicate (height - length (written_lines T))
                       (replicate width sp))) as Hout.
  { clear Hh Hw height width. intros height width Hh Hw.
    rewrite TableCell_Output_lines, Hlines. f_equal.
    apply (list_eq_same_length _ _ height); [|by rewrite length_tabulate|].
    { rewrite length_app, length_fmap, length_replicate. lia. }
    intros i x y Hi Hx Hy. rewrite lookup_tabulate in Hx by done. injection Hx as <-.
    destruct (decide (i < length (written_lines T))) as [Hin|Hout].
    - rewrite lookup_app_l in Hy by (by rewrite length_fmap).
      rewrite list_lookup_fmap in Hy.
      destruct (written_lines T !! i) as [line|] eqn:Hline; [|done].
      injection Hy as <-. simpl.
      pose proof (proj1 (Forall_lookup _ _) Hlen i line Hline) as Hl. simpl in Hl.
      rewrite fit_short by lia. by rewrite Hl.
    - rewrite lookup_app_r in Hy by (rewrite length_fmap; lia).
      apply lookup_replicate in Hy as [-> _].
      rewrite lookup_ge_None_2 by lia. simpl. unfold fit.
      by rewrite take_nil, Nat.sub_0_r. }
  unfold Width, Height, Output. simpl. fold (to_text T).
  rewrite (to_text_layout T Hwf). split; [|split; [|split]].
  - unfold TableCell.Width. ok. rewrite fold_max_length, getlines_text_lines, Hlines.
    f_equal. rewrite Nat.max_0_l. apply max_list_const; [by unfold written_lines|].
    by apply Forall_fmap.
  - unfold TableCell.Height. ok. by rewrite count_newlines_text_lines, Hlines.
  - by apply Hout.
  - rewrite Hout by done. rewrite !Nat.sub_diag. f_equal.
    change (replicate 0 (replicate w sp)) with (@nil str). rewrite app_nil_r.
    transitivity (id <$> written_lines T); [|apply list_fmap_id].
    apply list_fmap_ext. intros i line _. apply app_nil_r.
Qed.

Lemma TableCell_natural_size_witness :
  Width (CTableCell main_t2) = Ok 28
  /\ Height (CTableCell main_t2) = Ok 5
  /\ Output (CTableCell main_t2) 5 28 = Ok (written_lines main_t2).
Proof.
  destruct (TableCell_natural_size main_t2 6 30) as (Hw & Hh & _ & Hout).
  - vm_compute. exact I.
  - repeat constructor; unfold single_line; apply (bool_decide_unpack _);
      vm_compute; exact I.
  - simpl. lia.
  - simpl. lia.
  - split; [exact Hw|]. split; [exact Hh|exact Hout].
Defined.

(** * Further properties of the store *)

(** ** Looking a cell up and replacing it *)

Lemma grid_loads_lookup (fuel : nat) (h : store) (cells : list (list loc))
    (vals : list (list CBase)) (R C r c : nat) :
  grid_loads fuel h cells vals -> grid_shape R C vals -> r < R -> c < C ->
  exists q, at2 cells r c = Ok q /\ in_grid cells q
            /\ load fuel h q = Some ((vals !!! r) !!! c).
Proof.
  intros Hg Hvals Hr Hc.
  assert (grid_shape R C cells) as Hcells by (by apply (grid_loads_shape _ _ _ _ _ _ Hg)).
  destruct (grid_shape_lookup _ _ _ r c Hcells Hr Hc) as (row & Hrow & Hq).
  destruct (grid_shape_lookup _ _ _ r c Hvals Hr Hc) as (vs & Hvs & Hv).
  exists ((cells !!! r) !!! c). split; [|split].
  - unfold at2. run (at_Ok _ _ _ Hrow). by apply at_Ok.
  - exists row. split; by eapply list_elem_of_lookup_2.
  - pose proof (Forall2_lookup_lr _ _ _ _ _ _ Hg Hrow Hvs) as Hrl.
    exact (Forall2_lookup_lr _ _ _ _ _ _ Hrl Hq Hv).
Qed.

(** In range, [getCell(row, col)] returns the cell at that position. *)
Theorem getCell_in_range (h : store) (t : loc) (T : CTable) (row col : nat) :
  reads_table h t T -> wf_table T -> row < Rows T -> col < Cols T ->
  exists q, getCell t row col h = Ok q /\ reads h q (cell_at T row col).
Proof.
  intros [fuel (cells & Hobj & Hg%grid_loads_load_grid)%load_table_Some]
         [Hshape _]%wf_cell_TableCell Hr Hc.
  destruct (grid_loads_lookup _ _ _ _ _ _ row col Hg Hshape Hr Hc) as (q & Hat & _ & Hq).
  exists q. split.
  - unfold getCell. run (at_Ok _ _ _ Hobj). exact Hat.
  - by exists fuel.
Qed.

Lemma getCell_in_range_witness :
  exists q, getCell example_t 0 0 example_store = Ok q
            /\ reads example_store q (CText [lit "ab"] ALIGN_LEFT).
Proof.
  apply (getCell_in_range example_store example_t example_T 0 0).
  - exists 1. reflexivity.
  - vm_compute. exact I.
  - simpl. lia.
  - simpl. lia.
Defined.

Lemma at2_set_loc_ne (cells : list (list loc)) (r c r' c' : nat) (q : loc) :
  (r', c') <> (r, c) -> at2 (set_loc cells r c q) r' c' = at2 cells r' c'.
Proof.
  intros Hne. unfold at2, set_loc, at_.
  destruct (decide (r' = r)) as [->|Hr].
  - destruct (decide (r < length cells)) as [Hlt|Hge].
    + rewrite list_lookup_insert_eq by done.
      rewrite (list_lookup_lookup_total_lt cells r Hlt). simpl.
      rewrite list_lookup_insert_ne; [done|]. congruence.
    + by rewrite list_insert_ge by lia.
  - by rewrite list_lookup_insert_ne.
Qed.

(** Writing the pointer to a cell with the value [v] into a table that
    nothing points to. *)
Lemma set_pointer_spec (fuel : nat) (h : store) (t : loc) (T : CTable) (r c : nat)
    (q : loc) (v : CBase) :
  load_table fuel h t = Some T -> grid_shape (Rows T) (Cols T) (Cells T) ->
  r < Rows T -> c < Cols T -> unreferenced h t -> load fuel h q = Some v ->
  exists cells,
    let h' := <[t := OTable (Rows T) (Cols T) (set_loc cells r c q)]> h in
    h !! t = Some (OTable (Rows T) (Cols T) cells)
    /\ set_pointer t r c q h = Ok h'
    /\ load_table fuel h' t = Some (set_cell T r c v)
    /\ forall cell v', load fuel h cell = Some v' -> load fuel h' cell = Some v'.
Proof.
  intros (cells & Hobj & Hg%grid_loads_load_grid)%load_table_Some Hshape Hr Hc Hfree Hq.
  assert (grid_shape (Rows T) (Cols T) cells) as Hcells
    by (by apply (grid_loads_shape _ _ _ _ _ _ Hg)).
  assert (t < length h) as Hlt by (by eapply lookup_lt_Some).
  exists cells. cbn zeta.
  set (h' := <[t := OTable (Rows T) (Cols T) (set_loc cells r c q)]> h).
  assert (forall cell v', load fuel h cell = Some v' -> load fuel h' cell = Some v')
    as Hframe.
  { intros cell v' Hcell. apply (load_frame (fun x => x = t) h); try done.
    - intros x Hx. unfold h'. by rewrite list_lookup_insert_ne.
    - intros x o p Hx Ho Hp _ ->. by eapply Hfree.
    - intros ->. by eapply load_not_table. }
  split; [done|]. split; [|split; [|done]].
  - unfold set_pointer. run (at_Ok _ _ _ Hobj).
    rewrite (set_at2_Ok (Rows T) (Cols T)) by done. ok.
    unfold write. by rewrite set_at_Ok.
  - apply load_table_Some. exists (set_loc cells r c q). split.
    + unfold h'. by rewrite list_lookup_insert_eq.
    + apply grid_loads_load_grid, grid_loads_insert; [|by apply Hframe].
      eapply Forall2_impl; [exact Hg|]. intros row vs Hrow.
      eapply Forall2_impl; [exact Hrow|]. intros l v' Hl. by apply Hframe.
Qed.

(** After [t.setCell(row, col, cell)], in range, the table reads as before
    but for the value [cell] had at the call, at [(row, col)];
    [getCell(row, col)] returns a new object with that value, not the
    argument; and at every other position [getCell] returns what it returned
    before.  The cell that the position held is released by the assignment:
    nothing is said of it afterwards, also when it is the argument itself,
    as in [t.setCell(row, col, t.getCell(row, col))].  An argument that no
    [shared_ptr] points to, a variable or a temporary of the program, keeps
    its value. *)
Theorem setCell_then_getCell (h : store) (t cell : loc) (T : CTable) (v : CBase)
    (row col : nat) :
  reads_table h t T -> wf_table T -> reads h cell v ->
  row < Rows T -> col < Cols T -> unreferenced h t ->
  exists h' q,
    setCell t row col cell h = Ok h'
    /\ reads_table h' t (set_cell T row col v)
    /\ getCell t row col h' = Ok q
    /\ q <> cell
    /\ reads h' q v
    /\ (unreferenced h cell -> reads h' cell v)
    /\ forall row' col', (row', col') <> (row, col) ->
         getCell t row' col' h' = getCell t row' col' h.
Proof.
  intros [n Ht] [Hshape _]%wf_cell_TableCell [m Hcell] Hr Hc Hfree.
  apply (load_table_mono n (n `max` m)) in Ht; [|lia].
  apply (load_mono m (n `max` m)) in Hcell; [|lia].
  set (fuel := n `max` m) in *.
  destruct (Clone_load _ _ _ _ Hcell) as (o & Ho & Hno & Hclone & Hq).
  assert (cell < length h) as Hclt by (by eapply lookup_lt_Some).
  assert (unreferenced (h ++ [o]) t) as Hfree'.
  { intros x o' Ho' Hp. destruct (decide (x < length h)) as [Hlt|Hge].
    - rewrite lookup_app_l in Ho' by done. by eapply Hfree.
    - rewrite lookup_app_r in Ho' by lia.
      apply list_elem_of_lookup_2, list_elem_of_singleton in Ho' as ->.
      by eapply Hfree. }
  destruct (set_pointer_spec fuel (h ++ [o]) t T row col (length h) v)
    as (cells & Hobj & Hset & Ht' & Hframe); try done.
  { by apply load_table_extend. }
  cbn zeta in *.
  set (h' := <[t := OTable (Rows T) (Cols T) (set_loc cells row col (length h))]>
               (h ++ [o])) in *.
  assert (t < length h) as Htlt.
  { apply load_table_Some in Ht as (? & ? & _). by eapply lookup_lt_Some. }
  assert (h !! t = Some (OTable (Rows T) (Cols T) cells)) as Hobj0.
  { by rewrite lookup_app_l in Hobj. }
  assert (h' !! t = Some (OTable (Rows T) (Cols T) (set_loc cells row col (length h))))
    as Hobj'.
  { unfold h'. rewrite list_lookup_insert_eq; [done|]. rewrite length_app. lia. }
  exists h', (length h). split; [|split; [|split; [|split; [|split; [|split]]]]].
  - unfold setCell. run Hclone. exact Hset.
  - by exists fuel.
  - unfold getCell. run (at_Ok _ _ _ Hobj').
    apply (at2_set_loc (Rows T) (Cols T)); [|done..].
    apply load_table_Some in Ht as (cells0 & Hobj1 & Hg%grid_loads_load_grid).
    rewrite Hobj0 in Hobj1. injection Hobj1 as <-.
    by apply (grid_loads_shape _ _ _ _ _ _ Hg).
  - lia.
  - exists fuel. by apply Hframe.
  - intros _. exists fuel. by apply Hframe, load_extend.
  - intros row' col' Hne. unfold getCell.
    run (at_Ok _ _ _ Hobj'). run (at_Ok _ _ _ Hobj0). by apply at2_set_loc_ne.
Qed.

Lemma setCell_then_getCell_witness :
  exists h', setCell example_t 0 1 7 example_store = Ok h'
    /\ reads_table h' example_t
         (mkTable 1 2 [[CText [lit "ab"] ALIGN_LEFT; CImage [lit "##"]]]).
Proof.
  destruct (setCell_then_getCell example_store example_t 7 example_T
              (CImage [lit "##"]) 0 1) as (h' & q & Hrun & Hreads & _).
  - exists 1. reflexivity.
  - vm_compute. exact I.
  - exists 1. reflexivity.
  - simpl. lia.
  - simpl. lia.
  - apply unreferenced_list_correct, (bool_decide_unpack _). vm_compute. exact I.
  - exists h'. split; [exact Hrun|exact Hreads].
Defined.

(** ** The example store is the store of a program *)

Lemma closed_list_correct (h : store) : closed_list h -> closed h.
Proof.
  intros Hall x o p Ho Hp%points_to_pointers.
  apply list_elem_of_lookup_2 in Ho.
  apply (proj1 (Forall_forall (fun p => p < length h) (pointers o))); [|exact Hp].
  exact (proj1 (Forall_forall _ _) Hall o Ho).
Qed.

Example example_store_program_store : program_store [example_u; example_t] example_store.
Proof.
  split.
  - apply closed_list_correct, (bool_decide_unpack _). vm_compute. exact I.
  - intros t [->|Ht%list_elem_of_singleton]%elem_of_cons; [|subst t]; split.
    + apply owned_list_correct, (bool_decide_unpack _). vm_compute. exact I.
    + exists example_U. split; [exists 1; reflexivity|vm_compute; exact I].
    + apply owned_list_correct, (bool_decide_unpack _). vm_compute. exact I.
    + exists example_T. split; [exists 1; reflexivity|vm_compute; exact I].
Qed.

(** ** Tables of a program do not share cells *)

Lemma confined_frame_table (h1 : store) (t : loc) (cells1 : list (list loc))
    (h2 : store) (fuel : nat) (u : loc) (U : CTable) :
  owned h1 t -> (exists R C, h1 !! t = Some (OTable R C cells1)) ->
  confined h1 t cells1 h2 -> u <> t -> unreferenced h1 u ->
  load_table fuel h1 u = Some U -> load_table fuel h2 u = Some U.
Proof.
  intros Hown (R & C & Ht) (Hlen & Hsame & _) Hut Hfree Hload.
  apply (load_table_frame (fun x => x = t \/ in_grid cells1 x \/ length h1 <= x) h1);
    try done.
  - intros x Hx. apply Hsame; [lia|tauto|tauto].
  - intros x o p Hx Ho Hp Hlt.
    destruct (Hown x o p Ho Hp) as [Hpt Hpg].
    intros [->|[Hg|?]]; [done| |lia].
    eapply (Hpg ltac:(tauto)); [exact Ht|]. exact Hg.
  - apply load_table_Some in Hload as (cells & Hobj & _).
    apply lookup_lt_Some in Hobj.
    intros [?|[Hg|?]]; [done| |lia]. by eapply (Hfree t).
Qed.

Lemma mutate_all_other_table (ts : list loc) (h h' : store) (t u : loc) (U : CTable)
    (ms : list mutation) :
  program_store ts h -> t ∈ ts -> u ∈ ts -> u <> t ->
  reads_table h u U -> mutate_all t ms h = Ok h' ->
  reads_table h' u U.
Proof.
  intros [_ Hts] Ht Hu Hne [fuel Hload] Hms.
  destruct (Hts t Ht) as [Hown (R & C & cells & Hobj)%table_ok_table].
  destruct (Hts u Hu) as [Hown' _].
  exists fuel. eapply (confined_frame_table h t cells); eauto.
  - eapply confined_mutate_all; [|exact Hms]. by eapply confined_refl.
  - by apply owned_unreferenced.
Qed.

(** Two table variables of a program share nothing: whatever is done to one
    of them (cells replaced, texts and images changed in place through
    [getCell], the table assigned to), every other table keeps its value and
    its cells: [getCell] returns there the objects it returned before. *)
Theorem other_tables_unchanged (ts : list loc) (h h' : store) (t u : loc) (U : CTable)
    (ms : list mutation) :
  program_store ts h -> t ∈ ts -> u ∈ ts -> u <> t ->
  reads_table h u U -> mutate_all t ms h = Ok h' ->
  reads_table h' u U
  /\ forall row col, getCell u row col h' = getCell u row col h.
Proof.
  intros Hstore Ht Hu Hne Hload Hms.
  split; [exact (mutate_all_other_table ts h h' t u U ms Hstore Ht Hu Hne Hload Hms)|].
  destruct Hstore as [_ Hts].
  destruct (Hts t Ht) as [Hown (R & C & cells & Hobj)%table_ok_table].
  destruct (Hts u Hu) as [Hown' (R' & C' & cells' & Hobj')%table_ok_table].
  destruct (confined_mutate_all h t cells ms h h' (confined_refl h t cells _ _ Hobj) Hms)
    as (_ & Hsame & _).
  intros row col. unfold getCell, at_. rewrite Hsame; [done| |done|].
  - by eapply lookup_lt_Some.
  - intros Hg. by eapply (owned_unreferenced h u Hown' t).
Qed.

Lemma other_tables_unchanged_witness :
  exists h',
    mutate_all example_t [SetText 0 0 (lit "x"); Assign example_u] example_store = Ok h'
    /\ reads_table h' example_u example_U.
Proof.
  eexists. split; [vm_compute; reflexivity|].
  refine (proj1 (other_tables_unchanged [example_u; example_t] example_store _
                   example_t example_u example_U
                   [SetText 0 0 (lit "x"); Assign example_u] _ _ _ _ _ _)).
  - exact example_store_program_store.
  - apply list_elem_of_further, list_elem_of_here.
  - apply list_elem_of_here.
  - unfold example_u, example_t. lia.
  - exists 1. reflexivity.
  - vm_compute. reflexivity.
Defined.

(** ** No two positions of a table share a cell *)

Lemma join_cons {A : Type} (l : list A) (ls : list (list A)) :
  mjoin (l :: ls) = l ++ mjoin ls.
Proof. done. Qed.

Lemma NoDup_replace {A : Type} (l1 l2 : list A) (x p : A) :
  NoDup (l1 ++ x :: l2) -> p ∉ l1 ++ x :: l2 -> NoDup (l1 ++ p :: l2).
Proof.
  rewrite !NoDup_app, !NoDup_cons, not_elem_of_app, not_elem_of_cons.
  intros (H1 & H12 & Hx & H2) (Hp1 & _ & Hp2).
  split; [done|]. split; [|by split].
  intros y Hy. specialize (H12 y Hy). rewrite not_elem_of_cons in *.
  split; [|tauto]. by intros ->.
Qed.

Lemma NoDup_set_loc (cells : list (list loc)) (r c : nat) (p : loc) :
  NoDup (mjoin cells) -> p ∉ mjoin cells -> NoDup (mjoin (set_loc cells r c p)).
Proof.
  intros Hnd Hp. unfold set_loc.
  destruct (decide (r < length cells)) as [Hr|Hr]; [|by rewrite list_insert_ge by lia].
  destruct (lookup_lt_is_Some_2 cells r Hr) as [row Hrow].
  rewrite (list_lookup_total_correct _ _ _ Hrow).
  destruct (decide (c < length row)) as [Hc|Hc].
  2: { rewrite (list_insert_ge row) by lia. by rewrite list_insert_id. }
  destruct (lookup_lt_is_Some_2 row c Hc) as [x Hx].
  rewrite (insert_take_drop cells) by done. rewrite (insert_take_drop row) by done.
  rewrite <- (take_drop_middle cells r row Hrow) in Hnd, Hp.
  rewrite <- (take_drop_middle row c x Hx) in Hnd, Hp.
  rewrite join_app, join_cons in *.
  assert (forall y : loc,
            mjoin (take r cells) ++ (take c row ++ y :: drop (S c) row)
              ++ mjoin (drop (S r) cells)
            = (mjoin (take r cells) ++ take c row)
                ++ y :: (drop (S c) row ++ mjoin (drop (S r) cells))) as Hassoc.
  { intros y. by rewrite <- !app_assoc. }
  rewrite Hassoc in *. by eapply NoDup_replace.
Qed.

Lemma in_grid_join (cells : list (list loc)) (p : loc) : in_grid cells p <-> p ∈ mjoin cells.
Proof.
  rewrite list_elem_of_join. unfold in_grid. split; intros (row & ? & ?); by exists row.
Qed.

(** The copies [clone_cells] makes are the objects it adds to the store, in
    order. *)
Lemma clone_cells_seq (R C : nat) (cells cells' : list (list loc)) (h h' : store) :
  clone_cells R C cells h = Ok (cells', h') ->
  length h <= length h' /\ mjoin cells' = seq (length h) (length h' - length h).
Proof.
  unfold clone_cells, for_range. intros Hrun.
  apply (for_each_partial
           (fun '(grid, h0) =>
              length h <= length h0
              /\ mjoin grid = seq (length h) (length h0 - length h)) _ _ _ _ Hrun).
  { split; [done|]. by rewrite Nat.sub_diag. }
  intros i [grid h0] [grid' h1] [Hle Hg] ([row h2] & Hrow & [= <- <-])%bind_Ok_inv.
  assert (length h0 <= length h2 /\ row = seq (length h0) (length h2 - length h0))
    as [Hle' ->].
  { apply (for_each_partial
             (fun '(row, h1) =>
                length h0 <= length h1
                /\ row = seq (length h0) (length h1 - length h0)) _ _ _ _ Hrow).
    { split; [done|]. by rewrite Nat.sub_diag. }
    intros j [row1 h3] [row2 h4] [Hl ->] (cell & _ & Hb)%bind_Ok_inv.
    apply bind_Ok_inv in Hb as ([cell' h5] & (-> & o & -> & _)%Clone_inv & [= <- <-]).
    rewrite length_app. simpl. split; [lia|].
    replace (length h3 + 1 - length h0) with (S (length h3 - length h0)) by lia.
    rewrite seq_S. do 2 f_equal. lia. }
  split; [lia|]. rewrite join_app, Hg, join_cons. simpl. rewrite app_nil_r.
  replace (length h2 - length h)
    with ((length h0 - length h) + (length h2 - length h0)) by lia.
  rewrite seq_app. do 2 f_equal. lia.
Qed.

(** [CTable(rows, cols)] adds [rows * cols] empty cells and then the table,
    whose grid holds these cells in order. *)
Lemma new_CTable_spec (rows cols : nat) (h : store) :
  exists cells,
    new_CTable rows cols h
    = Ok (length h + rows * cols,
          h ++ replicate (rows * cols) OEmpty ++ [OTable rows cols cells])
    /\ grid_shape rows cols cells
    /\ mjoin cells = seq (length h) (rows * cols).
Proof.
  destruct (for_range_invariant
    (fun i '(grid, h') =>
       h' = h ++ replicate (i * cols) OEmpty
       /\ grid_shape i cols grid
       /\ mjoin grid = seq (length h) (i * cols))
    rows
    (fun _ '(grid, h) =>
       '(row, h) ← for_range cols (fun _ '(row, h) =>
                      let '(cell, h) := alloc OEmpty h in Ok (row ++ [cell], h))
                    ([], h);
       Ok (grid ++ [row], h))
    ([], h)) as ([cells h'] & Hrun & -> & Hshape & Hjoin).
  - simpl. rewrite app_nil_r. repeat split; constructor.
  - intros i [grid h'] Hi (-> & [Hlen Hrows] & Hjoin).
    destruct (for_range_invariant
      (fun j '(row, h') =>
         h' = (h ++ replicate (i * cols) OEmpty) ++ replicate j OEmpty
         /\ row = seq (length h + i * cols) j)
      cols
      (fun _ '(row, h) =>
         let '(cell, h) := alloc OEmpty h in Ok (row ++ [cell], h))
      ([], h ++ replicate (i * cols) OEmpty)) as ([row h'] & Hrow & -> & ->).
    + simpl. by rewrite app_nil_r.
    + intros j [row h'] Hj [-> ->]. unfold alloc. eexists. split; [done|]. split.
      * by rewrite replicate_S_end, !app_assoc.
      * rewrite seq_S. do 2 f_equal.
        rewrite !length_app, !length_replicate. lia.
    + rewrite Hrow. ok. eexists. split; [done|]. split; [|split].
      * rewrite <- app_assoc, <- replicate_add. do 2 f_equal. lia.
      * split; [rewrite length_app; simpl; lia|].
        apply Forall_app. split; [done|]. constructor; [|done]. by rewrite length_seq.
      * rewrite join_app, Hjoin, join_cons. simpl. rewrite app_nil_r.
        by rewrite (Nat.add_comm cols), seq_app.
  - exists cells. split; [|done]. unfold new_CTable. run Hrun. unfold alloc.
    rewrite length_app, length_replicate, <- app_assoc. done.
Qed.

Lemma distinct_cells_extend (h k : store) (t : loc) :
  t < length h -> distinct_cells h t -> distinct_cells (h ++ k) t.
Proof. intros Hlt Hd R C cells Hobj. rewrite lookup_app_l in Hobj by done. eauto. Qed.

Lemma distinct_cells_same (h h' : store) (t : loc) :
  h' !! t = h !! t -> distinct_cells h t -> distinct_cells h' t.
Proof. intros Hsame Hd R C cells Hobj. rewrite Hsame in Hobj. eauto. Qed.

Lemma set_pointer_inv_loc (this : loc) (row col : nat) (p : loc) (h h' : store) :
  set_pointer this row col p h = Ok h' ->
  exists R C cells,
    h !! this = Some (OTable R C cells)
    /\ h' = <[this := OTable R C (set_loc cells row col p)]> h.
Proof.
  unfold set_pointer. intros (o & Ho%at_Ok_inv & Hset)%bind_Ok_inv.
  destruct o as [| | | |R C cells]; try done.
  apply bind_Ok_inv in Hset as (cells' & ->%set_at2_Ok_inv & [_ ->]%set_at_Ok_inv).
  by exists R, C, cells.
Qed.

Lemma distinct_cells_set_pointer (h h' : store) (t : loc) (row col : nat) (p : loc) :
  distinct_cells h t ->
  (forall R C cells, h !! t = Some (OTable R C cells) -> ~ in_grid cells p) ->
  set_pointer t row col p h = Ok h' -> distinct_cells h' t.
Proof.
  intros Hd Hp (R & C & cells & Hobj & ->)%set_pointer_inv_loc R' C' cells' Hobj'.
  rewrite list_lookup_insert_eq in Hobj' by (by eapply lookup_lt_Some).
  injection Hobj' as <- <- <-.
  apply NoDup_set_loc; [by eapply Hd|]. rewrite <- in_grid_join. by eapply Hp.
Qed.

Lemma distinct_cells_mutate (ts : list loc) (h h' : store) (t : loc) (m : mutation) :
  program_store ts h -> t ∈ ts -> (forall u, u ∈ ts -> distinct_cells h u) ->
  mutate t m h = Ok h' -> forall u, u ∈ ts -> distinct_cells h' u.
Proof.
  intros Hstore Ht Hd Hm u Hu.
  pose proof Hstore as [Hclosed Hts].
  destruct (Hts t Ht) as [Hown (R & C & cells & Hobj)%table_ok_table].
  assert (t < length h) as Hlt by (by eapply lookup_lt_Some).
  destruct (decide (u = t)) as [->|Hne].
  2: { destruct (Hts u Hu) as [Hown' (R' & C' & cells' & Hobj')%table_ok_table].
       destruct (confined_mutate h t cells h h' m (confined_refl h t cells _ _ Hobj) Hm)
         as (_ & Hsame & _).
       apply (distinct_cells_same h); [|by apply Hd].
       apply Hsame; [by eapply lookup_lt_Some|done|].
       intros Hg. by eapply (owned_unreferenced h u Hown' t). }
  assert (forall k p, length h <= p -> forall R C cells,
            (h ++ k) !! t = Some (OTable R C cells) -> ~ in_grid cells p) as Hfresh.
  { intros k p Hp R0 C0 cells0 Hobj0 Hg. rewrite lookup_app_l in Hobj0 by done.
    pose proof (Hclosed t _ p Hobj0 Hg). lia. }
  destruct m as [row col cell|row col table|row col text|row col line|other];
    cbn [mutate] in Hm.
  - unfold setCell in Hm.
    apply bind_Ok_inv in Hm as ([p h1] & (-> & o & -> & _)%Clone_inv & Hset).
    eapply distinct_cells_set_pointer; [|by apply Hfresh|exact Hset].
    apply distinct_cells_extend; auto.
  - unfold setCell_table in Hm.
    apply bind_Ok_inv in Hm as ([p h1] & (Hp & k & ->)%new_TableCell_inv & Hset).
    eapply distinct_cells_set_pointer; [|by apply Hfresh|exact Hset].
    apply distinct_cells_extend; auto.
  - apply bind_Ok_inv in Hm as (cell & Hget & (o' & -> & Hno)%setText_inv).
    apply (distinct_cells_same h); [|auto].
    rewrite list_lookup_insert_ne; [done|]. intros ->. by eapply Hno.
  - apply bind_Ok_inv in Hm as (cell & Hget & (o' & -> & Hno)%addRow_inv).
    apply (distinct_cells_same h); [|auto].
    rewrite list_lookup_insert_ne; [done|]. intros ->. by eapply Hno.
  - unfold assign in Hm. case_decide; [injection Hm as <-; auto|].
    apply bind_Ok_inv in Hm as (o & Ho%at_Ok_inv & Hm).
    destruct o as [| | | |R' C' cells']; try done.
    apply bind_Ok_inv in Hm as ([cells'' h1] & Hclone & Hw).
    unfold write in Hw. apply set_at_Ok_inv in Hw as [Hlt' ->].
    intros R0 C0 cells0 Hobj0. rewrite list_lookup_insert_eq in Hobj0 by done.
    injection Hobj0 as <- <- <-.
    destruct (clone_cells_seq _ _ _ _ _ _ Hclone) as [_ ->]. apply NoDup_seq.
Qed.

(** Every change of a table of a program leaves the store the store of a
    program: no pointer dangles; every table variable is pointed to by
    nothing, its cells are pointed to by its grid only and no two positions
    of the grid hold the same cell; and every grid, at every depth, has
    [Rows] rows of [Cols] cells. *)
Theorem program_state_mutate (ts : list loc) (h h' : store) (t : loc) (m : mutation) :
  program_state ts h -> t ∈ ts -> arguments_ok h m ->
  mutate t m h = Ok h' -> program_state ts h'.
Proof.
  intros [Hstore Hd] Ht Hargs Hm. split.
  - exact (program_store_mutate ts h h' t m Hstore Ht Hargs Hm).
  - exact (distinct_cells_mutate ts h h' t m Hstore Ht Hd Hm).
Qed.

(** A temporary or a variable of a class of cells without pointers. *)
Lemma program_state_plain (ts : list loc) (h : store) (o : object) :
  program_state ts h -> plain o ->
  program_state ts (h ++ [o]) /\ readable (h ++ [o]) (length h).
Proof.
  intros [Hstore Hd] Ho.
  destruct (program_store_plain ts h o Hstore Ho) as [Hstore' Hread].
  split; [|done]. split; [done|]. intros t Ht.
  apply distinct_cells_extend; [|auto].
  destruct Hstore as [_ Hts].
  destruct (Hts t Ht) as [_ (R & C & cells & Hobj)%table_ok_table].
  by eapply lookup_lt_Some.
Qed.

Lemma program_state_nil : program_state [] [].
Proof. split; [apply program_store_nil|]. intros t Ht. by apply elem_of_nil in Ht. Qed.

Lemma program_state_lt (ts : list loc) (h : store) (t : loc) :
  program_state ts h -> t ∈ ts -> t < length h.
Proof.
  intros [[_ Hts] _] Ht.
  destruct (Hts t Ht) as [_ (R & C & cells & Hobj)%table_ok_table].
  by eapply lookup_lt_Some.
Qed.

Lemma grid_loads_empty (fuel : nat) (h : store) (R C : nat) (cells : list (list loc)) :
  grid_shape R C cells ->
  (forall p, in_grid cells p -> load fuel h p = Some CEmpty) ->
  grid_loads fuel h cells (replicate R (replicate C CEmpty)).
Proof.
  intros [Hlen Hrows] Hcells. apply Forall2_replicate_r; [done|].
  apply Forall_forall. intros row Hrow. unfold flip.
  apply Forall2_replicate_r.
  - by apply (proj1 (Forall_forall _ _) Hrows).
  - apply Forall_forall. intros p Hp. apply Hcells. by exists row.
Qed.

(** [CTable t(rows, cols)] declares one more table of the program, apart
    from the others, which keep their values.  It reads as [rows] rows of
    [cols] empty cells, each an object of its own. *)
Theorem program_state_new_CTable (ts : list loc) (h : store) (rows cols : nat) :
  program_state ts h ->
  exists t h',
    new_CTable rows cols h = Ok (t, h')
    /\ (t ∉ ts)
    /\ program_state (t :: ts) h'
    /\ reads_table h' t (new_table rows cols)
    /\ forall u U, reads_table h u U -> reads_table h' u U.
Proof.
  intros Hstate. pose proof Hstate as [Hstore Hd].
  destruct (program_store_new_CTable ts h rows cols Hstore) as (t & h' & Hrun & Hstore').
  destruct (new_CTable_spec rows cols h) as (cells & Hrun' & Hshape & Hjoin).
  rewrite Hrun in Hrun'. injection Hrun' as -> ->.
  set (n := rows * cols) in *.
  assert ((h ++ replicate n OEmpty ++ [OTable rows cols cells]) !! (length h + n)
          = Some (OTable rows cols cells)) as Hobj.
  { rewrite lookup_app_r by lia.
    rewrite lookup_app_r by (rewrite length_replicate; lia).
    rewrite length_replicate. by replace (length h + n - length h - n) with 0 by lia. }
  do 2 eexists. split; [exact Hrun|]. split; [|split; [|split]].
  - intros Ht. pose proof (program_state_lt ts h _ Hstate Ht). lia.
  - split; [done|]. intros u [->|Hu]%elem_of_cons.
    + intros R C cells' Hobj'. rewrite Hobj in Hobj'. injection Hobj' as <- <- <-.
      rewrite Hjoin. apply NoDup_seq.
    + apply distinct_cells_extend; [by eapply program_state_lt|auto].
  - exists 1. apply load_table_Some. exists cells. split; [exact Hobj|].
    apply grid_loads_load_grid, grid_loads_empty; [done|].
    intros p Hp%in_grid_join. rewrite Hjoin in Hp. apply elem_of_seq in Hp.
    cbn [load]. rewrite lookup_app_r by lia.
    rewrite lookup_app_l by (rewrite length_replicate; lia).
    by rewrite lookup_replicate_2 by lia.
  - intros u U [fuel Hload]. exists fuel. by apply load_table_extend.
Qed.

Lemma program_state_new_CTable_witness :
  exists t h',
    new_CTable 2 3 [] = Ok (t, h') /\ reads_table h' t (new_table 2 3).
Proof.
  destruct (program_state_new_CTable [] [] 2 3) as (t & h' & Hrun & _ & _ & Hreads & _).
  - exact program_state_nil.
  - exists t, h'. split; [exact Hrun|exact Hreads].
Defined.

Example example_store_program_state : program_state [example_u; example_t] example_store.
Proof.
  split; [exact example_store_program_store|].
  intros t [->|Ht%list_elem_of_singleton]%elem_of_cons; [|subst t];
    intros R C cells [= <- <- <-]; apply (bool_decide_unpack _); vm_compute; exact I.
Qed.

(** ** The copy constructor and the assignment *)

Lemma copies_unreferenced (h k : store) (cells : list (list loc)) (t : loc) :
  unreferenced h t -> copies_of h cells k -> unreferenced (h ++ k) t.
Proof.
  intros Hfree Hk x o Ho Hp. destruct (decide (x < length h)) as [Hlt|Hge].
  - rewrite lookup_app_l in Ho by done. by eapply Hfree.
  - rewrite lookup_app_r in Ho by lia. apply list_elem_of_lookup_2 in Ho.
    destruct (proj1 (Forall_forall _ _) Hk o Ho) as (row & x' & _ & _ & Ho' & _).
    by eapply Hfree.
Qed.

Lemma write_table_frame (fuel : nat) (h : store) (t : loc) (o : object) (R C : nat)
    (cells : list (list loc)) (cell : loc) (v : CBase) :
  unreferenced h t -> h !! t = Some (OTable R C cells) ->
  load fuel h cell = Some v -> load fuel (<[t := o]> h) cell = Some v.
Proof.
  intros Hfree Hobj Hload. apply (load_frame (fun x => x = t) h); try done.
  - intros x Hx. by rewrite list_lookup_insert_ne.
  - intros x o' p Hx Ho Hp _ ->. by eapply Hfree.
  - intros ->. by eapply load_not_table.
Qed.

Lemma write_table_frame_table (fuel : nat) (h : store) (t : loc) (o : object) (R C : nat)
    (cells : list (list loc)) (u : loc) (U : CTable) :
  unreferenced h t -> h !! t = Some (OTable R C cells) -> u <> t ->
  load_table fuel h u = Some U -> load_table fuel (<[t := o]> h) u = Some U.
Proof.
  intros Hfree Hobj Hne Hload. apply (load_table_frame (fun x => x = t) h); try done.
  - intros x Hx. by rewrite list_lookup_insert_ne.
  - intros x o' p Hx Ho Hp _ ->. by eapply Hfree.
Qed.

Lemma copy_table_inv (other : loc) (h h' : store) (t' : loc) :
  copy_table other h = Ok (t', h') ->
  exists R C cells cells' h1,
    h !! other = Some (OTable R C cells)
    /\ clone_cells R C cells h = Ok (cells', h1)
    /\ t' = length h1 /\ h' = h1 ++ [OTable R C cells'].
Proof.
  unfold copy_table. intros (o & Ho%at_Ok_inv & Hrun)%bind_Ok_inv.
  destruct o as [| | | |R C cells]; try done.
  apply bind_Ok_inv in Hrun as ([cells' h1] & Hclone & [= <- <-]).
  by exists R, C, cells, cells', h1.
Qed.

(** The copy constructor makes a table with the value of the original, which
    keeps its value; the copy is one more table of the program, so whatever
    is then done to one of the two, the other keeps its value. *)
Theorem copy_table_independent (ts : list loc) (h : store) (t : loc) (T : CTable) :
  program_state ts h -> t ∈ ts -> reads_table h t T ->
  exists t' h',
    copy_table t h = Ok (t', h')
    /\ (t' ∉ ts)
    /\ reads_table h' t' T
    /\ reads_table h' t T
    /\ program_state (t' :: ts) h'
    /\ (forall ms h'', mutate_all t' ms h' = Ok h'' -> reads_table h'' t T)
    /\ (forall ms h'', mutate_all t ms h' = Ok h'' -> reads_table h'' t' T).
Proof.
  intros Hstate Ht [fuel Hload]. pose proof Hstate as [Hstore Hd].
  pose proof Hstore as [_ Hts]. destruct (Hts t Ht) as [_ Hok].
  destruct (program_store_copy_table ts h t Hstore Hok) as (t' & h' & Hrun & Hstore').
  assert (grid_shape (Rows T) (Cols T) (Cells T)) as Hshape.
  { destruct Hok as (T0 & HT0 & [Hshape _]%wf_cell_TableCell).
    by rewrite (reads_table_deterministic h t T T0) by (done || by exists fuel). }
  destruct (copy_table_spec fuel h t T Hload Hshape)
    as (cells & cells' & k & Hobj & Hrun' & _ & Hg & _ & _).
  rewrite Hrun in Hrun'. injection Hrun' as -> ->.
  assert (t < length h) as Hlt by (by eapply lookup_lt_Some).
  assert (length (h ++ k) <> t) as Hne by (rewrite length_app; lia).
  assert (reads_table ((h ++ k) ++ [OTable (Rows T) (Cols T) cells']) (length (h ++ k)) T)
    as Hcopy.
  { exists fuel. apply load_table_Some. exists cells'. split.
    - by rewrite lookup_app_r, Nat.sub_diag by lia.
    - by apply grid_loads_load_grid, grid_loads_extend. }
  assert (reads_table ((h ++ k) ++ [OTable (Rows T) (Cols T) cells']) t T) as Horig.
  { exists fuel. by do 2 apply load_table_extend. }
  assert (program_state (length (h ++ k) :: ts)
            ((h ++ k) ++ [OTable (Rows T) (Cols T) cells'])) as Hstate'.
  { split; [done|]. intros u [->|Hu]%elem_of_cons.
    - intros R C cells0 Hobj0.
      rewrite lookup_app_r, Nat.sub_diag in Hobj0 by lia. injection Hobj0 as <- <- <-.
      apply copy_table_inv in Hrun
        as (R & C & cells0 & cells1 & h1 & _ & Hclone & _ & [<- [= _ _ <-]]%app_inj_tail).
      destruct (clone_cells_seq _ _ _ _ _ _ Hclone) as [_ ->]. apply NoDup_seq.
    - rewrite <- app_assoc.
      apply distinct_cells_extend; [by eapply program_state_lt|auto]. }
  do 2 eexists. split; [exact Hrun|]. split.
  { intros Hin. pose proof (program_state_lt ts h _ Hstate Hin) as Hlt'.
    rewrite length_app in Hlt'. lia. }
  split; [done|]. split; [done|]. split; [done|]. split; intros ms h'' Hms.
  - eapply (mutate_all_other_table _ _ _ (length (h ++ k)) t); eauto.
    + apply list_elem_of_here.
    + by apply list_elem_of_further.
  - eapply (mutate_all_other_table _ _ _ t (length (h ++ k))); eauto.
    + by apply list_elem_of_further.
    + apply list_elem_of_here.
Qed.

Lemma copy_table_independent_witness :
  exists t' h',
    copy_table example_t example_store = Ok (t', h')
    /\ reads_table h' t' example_T /\ reads_table h' example_t example_T.
Proof.
  destruct (copy_table_independent [example_u; example_t] example_store example_t
              example_T) as (t' & h' & Hrun & _ & Hcopy & Horig & _).
  - exact example_store_program_state.
  - apply list_elem_of_further, list_elem_of_here.
  - exists 1. reflexivity.
  - exists t', h'. split; [exact Hrun|]. split; [exact Hcopy|exact Horig].
Defined.

(** After [t = u] the table [t] has the value of [u], dimensions included,
    and [u] keeps its value; the store is the store of a program again, so
    the two tables share no cell.  [t = t] changes nothing. *)
Theorem assign_copies_value (ts : list loc) (h : store) (t u : loc) (U : CTable) :
  program_state ts h -> t ∈ ts -> u ∈ ts -> reads_table h u U ->
  exists h',
    assign t u h = Ok h'
    /\ reads_table h' t U
    /\ reads_table h' u U
    /\ program_state ts h'
    /\ (u = t -> h' = h).
Proof.
  intros Hstate Ht Hu [fuel Hload]. pose proof Hstate as [Hstore Hd].
  pose proof Hstore as [_ Hts].
  destruct (Hts t Ht) as [Hown (Rt & Ct & cellst & Hobjt)%table_ok_table].
  destruct (Hts u Hu) as [_ Hok].
  destruct (decide (u = t)) as [->|Hne].
  { exists h. unfold assign. rewrite decide_True by done.
    split; [done|]. split; [by exists fuel|]. split; [by exists fuel|]. by split. }
  assert (grid_shape (Rows U) (Cols U) (Cells U)) as Hshape.
  { destruct Hok as (U0 & HU0 & [Hshape _]%wf_cell_TableCell).
    by rewrite (reads_table_deterministic h u U U0) by (done || by exists fuel). }
  pose proof Hload as (cells & Hobj & Hg%grid_loads_load_grid)%load_table_Some.
  assert (grid_shape (Rows U) (Cols U) cells) as Hcells
    by (by apply (grid_loads_shape _ _ _ _ _ _ Hg)).
  destruct (clone_cells_spec fuel h (Rows U) (Cols U) cells (Cells U) Hcells Hg)
    as (cells' & k & Hrun & Hk & Hg' & Hshape' & Habove).
  assert (t < length h) as Hlt by (by eapply lookup_lt_Some).
  assert (unreferenced (h ++ k) t) as Hfree.
  { eapply copies_unreferenced; [|exact Hk]. by apply owned_unreferenced. }
  assert ((h ++ k) !! t = Some (OTable Rt Ct cellst)) as Hobjt'
    by (by rewrite lookup_app_l).
  set (h' := <[t := OTable (Rows U) (Cols U) cells']> (h ++ k)).
  assert (assign t u h = Ok h') as Hassign.
  { unfold assign. rewrite decide_False by done. run (at_Ok _ _ _ Hobj). run Hrun.
    unfold write. rewrite set_at_Ok by (rewrite length_app; lia). done. }
  exists h'. split; [done|]. split; [|split; [|split; [|done]]].
  - exists fuel. apply load_table_Some. exists cells'. split.
    + unfold h'. rewrite list_lookup_insert_eq; [done|]. rewrite length_app. lia.
    + apply grid_loads_load_grid.
      eapply Forall2_impl; [exact Hg'|]. intros row vs Hrow.
      eapply Forall2_impl; [exact Hrow|]. intros l v Hl.
      by eapply write_table_frame.
  - exists fuel. eapply write_table_frame_table; eauto. by apply load_table_extend.
  - split.
    + exact (program_store_assign ts h h' t u Hstore Ht Hok Hassign).
    + exact (distinct_cells_mutate ts h h' t (Assign u) Hstore Ht Hd Hassign).
Qed.

Lemma assign_copies_value_witness :
  exists h',
    assign example_t example_u example_store = Ok h'
    /\ reads_table h' example_t example_U /\ reads_table h' example_u example_U.
Proof.
  destruct (assign_copies_value [example_u; example_t] example_store example_t
              example_u example_U) as (h' & Hrun & Ht & Hu & _).
  - exact example_store_program_state.
  - apply list_elem_of_further, list_elem_of_here.
  - apply list_elem_of_here.
  - exists 1. reflexivity.
  - exists h'. split; [exact Hrun|]. split; [exact Ht|exact Hu].
Defined.

(** ** Changing a cell in place, through [getCell] *)

Lemma at2_Ok_inv {A : Type} (m : list (list A)) (i j : nat) (x : A) :
  at2 m i j = Ok x -> exists row, m !! i = Some row /\ row !! j = Some x.
Proof.
  unfold at2. intros (row & Hrow%at_Ok_inv & Hx%at_Ok_inv)%bind_Ok_inv. by exists row.
Qed.

Lemma grid_lookup_unique (R C : nat) (cells : list (list loc)) (r c r' c' : nat)
    (row row' : list loc) (q : loc) :
  NoDup (mjoin cells) -> grid_shape R C cells ->
  cells !! r = Some row -> row !! c = Some q ->
  cells !! r' = Some row' -> row' !! c' = Some q ->
  r' = r /\ c' = c.
Proof.
  intros Hnd [_ Hrows] Hr Hc Hr' Hc'.
  assert (c < C) as HcC.
  { rewrite <- (proj1 (Forall_lookup _ _) Hrows r row Hr). by eapply lookup_lt_Some. }
  assert (c' < C) as HcC'.
  { rewrite <- (proj1 (Forall_lookup _ _) Hrows r' row' Hr'). by eapply lookup_lt_Some. }
  assert (mjoin cells !! (r * C + c) = Some q) as H1.
  { apply join_lookup_Some_same_length'; [done..|]. by exists row. }
  assert (mjoin cells !! (r' * C + c') = Some q) as H2.
  { apply join_lookup_Some_same_length'; [done..|]. by exists row'. }
  pose proof (NoDup_lookup _ _ _ _ Hnd H1 H2) as Heq.
  apply Nat.mul_split_l in Heq; [|done..]. by destruct Heq.
Qed.

(** Writing a new object without pointers over the cell [(r, c)] of a table
    that owns its cells, no two of which are the same object. *)
Lemma write_cell_spec (fuel : nat) (h : store) (t : loc) (T : CTable) (r c : nat)
    (q : loc) (o' : object) (v' : CBase) :
  load_table fuel h t = Some T -> grid_shape (Rows T) (Cols T) (Cells T) ->
  owned h t -> distinct_cells h t ->
  getCell t r c h = Ok q ->
  load fuel (<[q := o']> h) q = Some v' ->
  load_table fuel (<[q := o']> h) t = Some (set_cell T r c v').
Proof.
  intros (cells & Hobj & Hg%grid_loads_load_grid)%load_table_Some Hshape Hown Hd Hget Hq'.
  unfold getCell in Hget. rewrite (at_Ok _ _ _ Hobj) in Hget. ok.
  apply at2_Ok_inv in Hget as (row & Hrow & Hq).
  assert (grid_shape (Rows T) (Cols T) cells) as Hcells
    by (by apply (grid_loads_shape _ _ _ _ _ _ Hg)).
  pose proof (Hd _ _ _ Hobj) as Hnd.
  assert (in_grid cells q) as Hin.
  { exists row. split; by eapply list_elem_of_lookup_2. }
  assert (q <> t) as Hqt.
  { intros ->. destruct (grid_loads_elem _ _ _ _ row t Hg) as [v Hv];
      [by eapply list_elem_of_lookup_2..|]. by eapply load_not_table. }
  assert (forall l v, l <> q -> l <> t -> load fuel h l = Some v ->
                      load fuel (<[q := o']> h) l = Some v) as Hframe.
  { intros l v Hlq Hlt. apply (load_frame (fun x => x = q \/ x = t) h).
    - intros x Hx. rewrite list_lookup_insert_ne; [done|]. intros <-. tauto.
    - intros x o p Hx Ho Hp _. destruct (Hown x o p Ho Hp) as [Hpt Hpg].
      intros [->| ->]; [|done]. eapply (Hpg ltac:(tauto)); [exact Hobj|exact Hin].
    - tauto. }
  apply load_table_Some. exists cells. split.
  { by rewrite list_lookup_insert_ne. }
  apply grid_loads_load_grid. simpl.
  assert (length cells = length (Cells T)) as Hlen by (by eapply Forall2_length).
  apply Forall2_same_length_lookup_2; [by rewrite length_insert|].
  intros i rowi vs Hrowi Hvs.
  assert (exists vs0, Cells T !! i = Some vs0
            /\ vs = if decide (i = r) then <[c := v']> vs0 else vs0)
    as (vs0 & Hvs0 & ->).
  { apply list_lookup_insert_Some in Hvs as [(Hir & Hvs & Hlt)|[Hne Hvs]].
    - subst i. exists (Cells T !!! r).
      split; [by apply list_lookup_lookup_total_lt|]. by rewrite decide_True.
    - exists vs. split; [done|]. by rewrite decide_False. }
  pose proof (Forall2_lookup_lr _ _ _ _ _ _ Hg Hrowi Hvs0) as Hrl.
  assert (length rowi = length vs0) as Hlen' by (by eapply Forall2_length).
  apply Forall2_same_length_lookup_2.
  { case_decide; [by rewrite length_insert|done]. }
  intros j l v Hl Hv.
  assert (l <> t) as Hlt.
  { intros ->. destruct (grid_loads_elem _ _ _ _ rowi t Hg) as [v0 Hv0];
      [by eapply list_elem_of_lookup_2..|]. by eapply load_not_table. }
  destruct (decide (i = r /\ j = c)) as [[-> ->]|Hne].
  - rewrite Hrow in Hrowi. injection Hrowi as <-. rewrite Hq in Hl. injection Hl as <-.
    rewrite decide_True in Hv by done.
    rewrite list_lookup_insert_eq in Hv by (rewrite <- Hlen'; by eapply lookup_lt_Some).
    by injection Hv as <-.
  - assert (vs0 !! j = Some v) as Hv0.
    { case_decide as Hir; [|done]. subst i.
      rewrite list_lookup_insert_ne in Hv; [done|]. intros <-. tauto. }
    apply Hframe; [|done|exact (Forall2_lookup_lr _ _ _ _ _ _ Hrl Hl Hv0)].
    intros ->. apply Hne.
    destruct (grid_lookup_unique _ _ _ r c i j row rowi q Hnd Hcells) as [-> ->]; done.
Qed.

Lemma program_state_table (ts : list loc) (h : store) (t : loc) (T : CTable) :
  program_state ts h -> t ∈ ts -> reads_table h t T ->
  owned h t /\ distinct_cells h t /\ wf_table T.
Proof.
  intros [[_ Hts] Hd] Ht Hread. destruct (Hts t Ht) as [Hown (T0 & HT0 & Hwf)].
  split; [done|]. split; [auto|].
  by rewrite (reads_table_deterministic h t T T0).
Qed.

(** [dynamic_cast<CText&>(t.getCell(row, col)).setText(text)], in range.  On
    a text cell the table then reads as before but for that cell, which
    holds the lines of [text] and keeps its alignment; no other cell of the
    table changes.  On a cell of another kind the cast throws
    [std::bad_cast]. *)
Theorem setText_in_place (ts : list loc) (h : store) (t : loc) (T : CTable)
    (row col : nat) (text : str) :
  program_state ts h -> t ∈ ts -> reads_table h t T ->
  row < Rows T -> col < Cols T ->
  match cell_at T row col with
  | CText _ formatType =>
      exists h',
        mutate t (SetText row col text) h = Ok h'
        /\ reads_table h' t (set_cell T row col (CText (Text.setText text) formatType))
  | _ => mutate t (SetText row col text) h = Throw bad_cast
  end.
Proof.
  intros Hstate Ht Hread Hr Hc.
  destruct (program_state_table ts h t T Hstate Ht Hread)
    as (Hown & Hd & [Hshape _]%wf_cell_TableCell).
  destruct Hread as [fuel Hload].
  pose proof Hload as (cells & Hobj & Hg%grid_loads_load_grid)%load_table_Some.
  destruct (grid_loads_lookup _ _ _ _ _ _ row col Hg Hshape Hr Hc) as (q & Hat & _ & Hq).
  fold (cell_at T row col) in Hq.
  assert (getCell t row col h = Ok q) as Hget.
  { unfold getCell. run (at_Ok _ _ _ Hobj). exact Hat. }
  cbn [mutate]. rewrite Hget. ok. unfold setText.
  destruct fuel as [|n]; [done|]. rewrite load_S in Hq.
  destruct (h !! q) as [[|allLines formatType|imageData|p|R C cs]|] eqn:Hq0;
    try done; rewrite (at_Ok _ _ _ Hq0); ok.
  - by injection Hq as <-.
  - injection Hq as <-. unfold write.
    rewrite set_at_Ok by (by eapply lookup_lt_Some).
    eexists. split; [done|]. exists (S n).
    apply write_cell_spec; try done.
    rewrite load_S, list_lookup_insert_eq by (by eapply lookup_lt_Some). done.
  - by injection Hq as <-.
  - destruct (load_table n h p); [|done]. by injection Hq as <-.
Qed.

Lemma setText_in_place_witness :
  exists h',
    mutate example_t (SetText 0 0 (lit "x" ++ [nl] ++ lit "yz")) example_store = Ok h'
    /\ reads_table h' example_t
         (mkTable 1 2 [[CText [lit "x"; lit "yz"] ALIGN_LEFT; CEmpty]]).
Proof.
  apply (setText_in_place [example_u; example_t] example_store example_t example_T 0 0
           (lit "x" ++ [nl] ++ lit "yz")).
  - exact example_store_program_state.
  - apply list_elem_of_further, list_elem_of_here.
  - exists 1. reflexivity.
  - simpl. lia.
  - simpl. lia.
Defined.

(** [dynamic_cast<CImage&>(t.getCell(row, col)).addRow(line)], in range.  On
    an image the table then reads as before but for that cell, whose image
    has [line] as one more row at its end; no other cell of the table
    changes.  On a cell of another kind the cast throws [std::bad_cast]. *)
Theorem addRow_in_place (ts : list loc) (h : store) (t : loc) (T : CTable)
    (row col : nat) (line : str) :
  program_state ts h -> t ∈ ts -> reads_table h t T ->
  row < Rows T -> col < Cols T ->
  match cell_at T row col with
  | CImage imageData =>
      exists h',
        mutate t (AddRow row col line) h = Ok h'
        /\ reads_table h' t (set_cell T row col (CImage (imageData ++ [line])))
  | _ => mutate t (AddRow row col line) h = Throw bad_cast
  end.
Proof.
  intros Hstate Ht Hread Hr Hc.
  destruct (program_state_table ts h t T Hstate Ht Hread)
    as (Hown & Hd & [Hshape _]%wf_cell_TableCell).
  destruct Hread as [fuel Hload].
  pose proof Hload as (cells & Hobj & Hg%grid_loads_load_grid)%load_table_Some.
  destruct (grid_loads_lookup _ _ _ _ _ _ row col Hg Hshape Hr Hc) as (q & Hat & _ & Hq).
  fold (cell_at T row col) in Hq.
  assert (getCell t row col h = Ok q) as Hget.
  { unfold getCell. run (at_Ok _ _ _ Hobj). exact Hat. }
  cbn [mutate]. rewrite Hget. ok. unfold addRow.
  destruct fuel as [|n]; [done|]. rewrite load_S in Hq.
  destruct (h !! q) as [[|allLines formatType|imageData|p|R C cs]|] eqn:Hq0;
    try done; rewrite (at_Ok _ _ _ Hq0); ok.
  - by injection Hq as <-.
  - by injection Hq as <-.
  - injection Hq as <-. unfold write.
    rewrite set_at_Ok by (by eapply lookup_lt_Some).
    eexists. split; [done|]. exists (S n).
    apply write_cell_spec; try done.
    rewrite load_S, list_lookup_insert_eq by (by eapply lookup_lt_Some). done.
  - destruct (load_table n h p); [|done]. by injection Hq as <-.
Qed.

Lemma addRow_in_place_witness :
  exists h',
    mutate example_u (AddRow 0 0 (lit "..")) example_store = Ok h'
    /\ reads_table h' example_u (mkTable 1 1 [[CImage [lit "##"; lit ".."]]]).
Proof.
  apply (addRow_in_place [example_u; example_t] example_store example_u example_U 0 0
           (lit "..")).
  - exact example_store_program_state.
  - apply list_elem_of_here.
  - exists 1. reflexivity.
  - simpl. lia.
  - simpl. lia.
Defined.

Lemma program_state_mutate_witness :
  exists h',
    mutate example_t (SetCellTable 0 1 example_u) example_store = Ok h'
    /\ program_state [example_u; example_t] h'.
Proof.
  eexists. split; [vm_compute; reflexivity|].
  apply (program_state_mutate [example_u; example_t] example_store _ example_t
           (SetCellTable 0 1 example_u)).
  - exact example_store_program_state.
  - apply list_elem_of_further, list_elem_of_here.
  - exists example_U. split; [exists 1; reflexivity|vm_compute; exact I].
  - vm_compute. reflexivity.
Defined.

(** ** Streaming and comparing the tables of a program *)

(** On the tables of a program, [os << t] and [t == u] neither throw nor run
    into undefined behaviour: [t] has a value, the stream operator writes the
    layout of that value, and the comparison returns whether the two values
    are the same. *)
Theorem program_tables_stream_and_compare (ts : list loc) (h : store) (t u : loc) :
  program_store ts h -> t ∈ ts -> u ∈ ts ->
  exists T U text b,
    reads_table h t T /\ reads_table h u U
    /\ to_text T = Ok text /\ text_at h t text
    /\ equals T U = Ok b /\ (b = true <-> T = U).
Proof.
  intros [_ Hts] Ht Hu.
  destruct (Hts t Ht) as [_ (T & HT & HwfT)].
  destruct (Hts u Hu) as [_ (U & HU & HwfU)].
  destruct (cell_equals_spec (CTableCell T) HwfT (CTableCell U) HwfU) as (b & Hrun & Hb).
  exists T, U, (table_layout T), b.
  split; [done|]. split; [done|]. split; [by apply to_text_layout|]. split.
  - exists T. split; [done|]. by apply to_text_layout.
  - split; [exact Hrun|]. rewrite Hb. split; [by intros [= ->]|by intros ->].
Qed.

Lemma program_tables_stream_and_compare_witness :
  exists text, text_at example_store example_t text.
Proof.
  destruct (program_tables_stream_and_compare [example_u; example_t] example_store
              example_t example_u) as (T & U & text & b & _ & _ & _ & Htext & _).
  - exact example_store_program_store.
  - apply list_elem_of_further, list_elem_of_here.
  - apply list_elem_of_here.
  - exists text. exact Htext.
Defined.

(** ** Embedding a table *)

(** After [t.setCell(row, col, u)] in range, the table [t] reads as before
    but for a cell at [(row, col)] that embeds the value [u] had at the call;
    [getCell(row, col)] returns that cell; at every other position [getCell]
    returns what it returned before; and [u], when it is another table,
    keeps its value. *)
Theorem setCell_table_then_getCell (h : store) (t u : loc) (T U : CTable)
    (row col : nat) :
  reads_table h t T -> wf_table T -> reads_table h u U -> wf_table U ->
  row < Rows T -> col < Cols T -> unreferenced h t ->
  exists h' q,
    setCell_table t row col u h = Ok h'
    /\ reads_table h' t (set_cell T row col (CTableCell U))
    /\ getCell t row col h' = Ok q
    /\ reads h' q (CTableCell U)
    /\ (u <> t -> reads_table h' u U)
    /\ forall row' col', (row', col') <> (row, col) ->
         getCell t row' col' h' = getCell t row' col' h.
Proof.
  intros [n Ht] HwfT [m Hu] HwfU Hr Hc Hfree.
  apply (load_table_mono n (n `max` m)) in Ht; [|lia].
  apply (load_table_mono m (n `max` m)) in Hu; [|lia].
  pose proof HwfT as [HshapeT _]%wf_cell_TableCell.
  pose proof HwfU as [HshapeU _]%wf_cell_TableCell.
  destruct (setCell_table_spec _ h u t U T row col Hu HshapeU Ht HshapeT Hr Hc Hfree)
    as (cellsU & cellsT & k & q & HuO & HtO & Hrun & Hq & Hk & Hload & Hload').
  set (h' := <[t := OTable (Rows T) (Cols T) (set_loc cellsT row col q)]> (h ++ k)) in *.
  assert (t < length h) as Htlt by (by eapply lookup_lt_Some).
  assert (h' !! t = Some (OTable (Rows T) (Cols T) (set_loc cellsT row col q))) as HtO'.
  { unfold h'. rewrite list_lookup_insert_eq; [done|]. rewrite length_app. lia. }
  assert (grid_shape (Rows T) (Cols T) cellsT) as HcT.
  { apply load_table_Some in Ht as (cells & Hobj & Hg%grid_loads_load_grid).
    rewrite HtO in Hobj. injection Hobj as <-.
    by apply (grid_loads_shape _ _ _ _ _ _ Hg). }
  exists h', q. split; [exact Hrun|]. split; [by eexists|]. split; [|split; [|split]].
  - unfold getCell. run (at_Ok _ _ _ HtO'). by apply (at2_set_loc (Rows T) (Cols T)).
  - by eexists.
  - intros Hne. exists (n `max` m).
    apply (load_table_frame (fun x => x = t) (h ++ k)); try done.
    + intros x Hx. unfold h'. by rewrite list_lookup_insert_ne.
    + intros x o p Hx Ho Hp _ ->.
      destruct (decide (x < length h)) as [Hlt|Hge].
      * rewrite lookup_app_l in Ho by done. by eapply Hfree.
      * rewrite lookup_app_r in Ho by lia. apply list_elem_of_lookup_2 in Ho.
        destruct (proj1 (Forall_forall _ _) Hk o Ho t Hp)
          as [?|(rw & x' & o' & _ & _ & Ho' & _ & Hp')]; [lia|].
        by eapply Hfree.
    + by apply load_table_extend.
  - intros row' col' Hne. unfold getCell.
    run (at_Ok _ _ _ HtO'). run (at_Ok _ _ _ HtO). by apply at2_set_loc_ne.
Qed.

Lemma setCell_table_then_getCell_witness :
  exists h',
    setCell_table example_t 0 1 example_u example_store = Ok h'
    /\ reads_table h' example_t
         (mkTable 1 2 [[CText [lit "ab"] ALIGN_LEFT; CTableCell example_U]])
    /\ reads_table h' example_u example_U.
Proof.
  destruct (setCell_table_then_getCell example_store example_t example_u
              example_T example_U 0 1) as (h' & q & Hrun & Ht & _ & _ & Hu & _).
  - exists 1. reflexivity.
  - vm_compute. exact I.
  - exists 1. reflexivity.
  - vm_compute. exact I.
  - simpl. lia.
  - simpl. lia.
  - apply unreferenced_list_correct, (bool_decide_unpack _). vm_compute. exact I.
  - exists h'. split; [exact Hrun|]. split; [exact Ht|].
    apply Hu. unfold example_u, example_t. lia.
Defined.
